(** * StorySplicer: world-state kernel, trigger engine and session layer

    A shallow embedding of the JavaScript sources of the StorySplicer MCP
    server (db/models, mcp/tools, mcp/handlers, mcp/server.js) together with
    the properties its specification states about them.

    Conventions of the embedding:
    - a table of the database is a finite map from the row id to the row;
      the table [worlds] is the set of its ids;
    - a nullable column is an [option]; an id is a [Z], taken in the range
      of the [INTEGER] columns; a JS number that is a measure (percentage,
      temperature, seconds) is an exact rational [Q];
    - a [NUMERIC(5,2)] column holds a number of hundredths, within the
      bounds that the column's type and [CHECK] allow ([Fixed]); it is read
      as the rational it stands for;
    - the percentages of a character and the temperature of an area,
      which the schema lets be [NULL], are taken not null;
    - a string is the list of its UTF-16 code units, each taken below 256;
      a character of a [VARCHAR] column is one such unit;
    - the arguments of a call have the types that the input schema of the
      tool gives them, and a JSON column holds values of the shape that
      the models write; the condition of a trigger is any JSON value;
    - the statements [UPDATE] and [INSERT] throw when a value does not fit
      its column or the new row violates a constraint of the schema
      (migrations/001_create_core_schema.js); of the constraints, the
      length of [characters.owner_id] is left out: a player id is taken to
      fit its column;
    - an [async] function that reads or writes the database is a function
      in the monad [M], which threads the database and carries a thrown
      [Error] next to the state the throw leaves behind (the sources open
      no transaction, so writes made before a throw stay);
    - the clock ([Date.now()], [new Date()]) and the random source
      ([Math.random()]) are explicit arguments. *)

From stdpp Require Import base option list gmap strings pretty sorting.
From Stdlib Require Import ZArith QArith Qminmax Qround Lqa Lia Ascii.

Local Open Scope Z_scope.
Local Open Scope string_scope.

(** ** The types of the columns *)

(** The proof that a test holds, when it does. *)
Definition check (b : bool) : option (Is_true b) :=
  match b as b0 return option (Is_true b0) with
  | true => Some I
  | false => None
  end.

(** A value of a [NUMERIC(5,2)] column whose hundredths lie between [lo]
    and [hi]. *)
Record Fixed (lo hi : Z) := {
  hundredths : Z;
  in_range : Is_true ((lo <=? hundredths)%Z && (hundredths <=? hi)%Z)
}.
Arguments hundredths {lo hi} _.
Arguments in_range {lo hi} _.

Definition fixed (lo hi h : Z) : option (Fixed lo hi) :=
  (fun p => {| hundredths := h; in_range := p |})
    <$> check ((lo <=? h)%Z && (h <=? hi)%Z).

(** [parseFloat(column)]: the number a value stands for. *)
Definition fixed_Q {lo hi : Z} (x : Fixed lo hi) : Q :=
  Qred (hundredths x # 100).
Coercion fixed_Q : Fixed >-> Q.

(** A percentage column: [NUMERIC(5,2) CHECK (c >= 0 AND c <= 100)]; and
    the temperature of an area, a [NUMERIC(5,2)] without a check. *)
Definition Percent : Type := Fixed 0 10000.
Definition Temperature : Type := Fixed (-99999) 99999.

(** The hundredths of a number given to a [NUMERIC(5,2)] column: the
    nearest ones, a tie going away from zero. *)
Definition round_hundredths (q : Q) : Z :=
  if Qle_bool 0 q then Qfloor (q * 100 + (1 # 2))
  else - Qfloor (- q * 100 + (1 # 2)).

(** What a column stores of a number that it accepts. *)
Definition as_percent (q : Q) : option Percent :=
  fixed 0 10000 (round_hundredths q).

Definition as_temperature (q : Q) : option Temperature :=
  fixed (-99999) 99999 (round_hundredths q).

(** [VARCHAR(n)]: a longer string is rejected unless what exceeds [n]
    characters is spaces, which are cut off. *)
Fixpoint all_spaces (s : string) : bool :=
  match s with
  | EmptyString => true
  | String c s' => Ascii.eqb c " "%char && all_spaces s'
  end.

Fixpoint take_string (n : nat) (s : string) : string :=
  match n, s with
  | S n', String c s' => String c (take_string n' s')
  | _, _ => EmptyString
  end.

Fixpoint drop_string (n : nat) (s : string) : string :=
  match n, s with
  | S n', String _ s' => drop_string n' s'
  | _, _ => s
  end.

Definition varchar (n : nat) (s : string) : option string :=
  if (String.length s <=? n)%nat then Some s
  else if all_spaces (drop_string n s) then Some (take_string n s)
  else None.

(** ** Rows of the database *)

(** A memory record [{action, result, timestamp}]. *)
Record MemoryEntry := {
  action : string;
  result : string;
  timestamp : string
}.

(** An injury [{part, type, severity}]. *)
Record Injury := {
  part : string;
  injury_type : string;
  severity : Q
}.

(** A row of [characters].  The descriptive columns that no modelled
    operation reads or writes (description, species, gender, age,
    backstory, likes, dislikes, interests, beliefs, internal_conflict)
    are left out. *)
Record Character := {
  character_id : Z;
  character_world_id : Z;
  character_name : string;
  memory : list MemoryEntry;
  nutrition : Percent;
  hydration : Percent;
  tiredness : Percent;
  alertness : Percent;
  damage : list Injury;
  character_current_area_id : option Z;
  owner_id : option string;
  character_class : string
}.

(** A row of [items]; [properties] is kept as its JSON text. *)
Record Item := {
  item_id : Z;
  item_world_id : Z;
  item_name : string;
  item_description : string;
  properties : string;
  item_current_area_id : option Z;
  held_by_character_id : option Z;
  held_location : option string
}.

(** ** Errors and the database monad *)

(** The errors the handlers throw, those of the database and the
    [TypeError] of reading a property of [null]; [message] gives the text
    of each. *)
Inductive Error :=
| CharacterNotFound (id : Z)
| ItemNotFound (id : Z)
| ItemNotInArea
| NotHoldingItem
| CharacterNotInAnyArea
| NoCharacterToClaim
| CharacterAlreadyClaimed
| UnknownTool (name : string)
| UnknownCharacterTool (name : string)
| UnknownItemTool (name : string)
| NullDereference
| NumericOverflow
| ValueTooLong (n : nat)
| CheckViolation (table constraint : string)
| NotNullViolation (table column : string)
| ForeignKeyViolation (table constraint : string).

Definition quote : string := String (ascii_of_nat 34) EmptyString.

Definition quoted (s : string) : string := quote ++ s ++ quote.

Definition message (e : Error) : string :=
  match e with
  | CharacterNotFound id => "Character not found: " ++ pretty id
  | ItemNotFound id => "Item not found: " ++ pretty id
  | ItemNotInArea => "Item is not in character's current area"
  | NotHoldingItem => "Character is not holding this item"
  | CharacterNotInAnyArea => "Character is not in any area"
  | NoCharacterToClaim => "Character not found"
  | CharacterAlreadyClaimed => "Character is already claimed by another player"
  | UnknownTool name => "Unknown tool: " ++ name
  | UnknownCharacterTool name => "Unknown character tool: " ++ name
  | UnknownItemTool name => "Unknown item tool: " ++ name
  | NullDereference => "Cannot read properties of null"
  | NumericOverflow => "numeric field overflow"
  | ValueTooLong n =>
      "value too long for type character varying(" ++ pretty (Z.of_nat n) ++ ")"
  | CheckViolation table constraint =>
      "new row for relation " ++ quoted table
      ++ " violates check constraint " ++ quoted constraint
  | NotNullViolation table column =>
      "null value in column " ++ quoted column ++ " of relation "
      ++ quoted table ++ " violates not-null constraint"
  | ForeignKeyViolation table constraint =>
      "insert or update on table " ++ quoted table
      ++ " violates foreign key constraint " ++ quoted constraint
  end.

(** The error taxonomy of the specification, and the class of each
    thrown error. *)
Inductive ErrorKind :=
| NotFound | CrossWorld | NotHere | NotHolding | NoArea | SlotOccupied
| OtherError.

Definition kind_of (e : Error) : ErrorKind :=
  match e with
  | CharacterNotFound _ | ItemNotFound _ | NoCharacterToClaim => NotFound
  | ItemNotInArea => NotHere
  | NotHoldingItem => NotHolding
  | CharacterNotInAnyArea => NoArea
  | _ => OtherError
  end.

Inductive outcome (A : Type) :=
| Returned (a : A)
| Thrown (e : Error).
Arguments Returned {A} a.
Arguments Thrown {A} e.

(** ** Areas, triggers and reactions *)

(** [condition.keywords] is either an array of strings or one string. *)
Inductive Keywords :=
| KeywordList (ks : list string)
| KeywordOne (k : string).

(** The object form of a trigger condition; every field may be absent. *)
Record ConditionObject := {
  condition_type : option string;
  condition_keywords : option Keywords;
  condition_character_id : option Z;
  condition_item_id : option Z
}.

(** A condition is any JSON value: a string, an object, an array,
    [null], or another one (a number, a boolean, or no condition at
    all). *)
Inductive Condition :=
| ConditionString (s : string)
| ConditionObj (c : ConditionObject)
| ConditionArray
| ConditionNull
| ConditionOther.

(** The item template carried by an [add_item] reaction. *)
Record ItemTemplate := {
  template_name : option string;
  template_description : option string;
  template_properties : option string
}.

(** A reaction object: its [type] and the fields the engine reads. *)
Record Reaction := {
  reaction_type : string;
  reaction_item : option ItemTemplate;
  reaction_item_id : option Z;
  direction : option string;
  target_area_id : option Z;
  new_description : option string;
  append_description : option string;
  reaction_temperature : option Q;
  temperature_delta : option Q
}.

Record Trigger := {
  condition : Condition;
  reactions : list Reaction;
  one_time : bool
}.

(** A row of [areas]; [exits] maps a direction label to an area id. *)
Record Area := {
  area_id : Z;
  area_world_id : Z;
  area_name : string;
  description : string;
  temperature : Temperature;
  exits : gmap string Z;
  triggers : list Trigger
}.

(** The data an event carries: [{character_id, item_id, text}], each
    field present or not. *)
Record EventData := {
  event_character_id : option Z;
  event_item_id : option Z;
  event_text : option string
}.

(** One run of a trigger's reactions by the engine: recorded in the store
    (next to what the sources print on the console) so that properties of
    the firing discipline can be stated. *)
Record Firing := {
  firing_area : Z;
  firing_event : string;
  firing_trigger : Trigger
}.

(** A session of [handlers/auth.js]; times are milliseconds. *)
Record Session := {
  playerId : string;
  characterId : Z;
  createdAt : Z;
  lastActivity : Z
}.

(** ** The store *)

(** The state the server works on: the tables of the database, the
    sequence of item ids, the module-level [sessions] map of
    [handlers/auth.js] (token to session) and the record of firings. *)
Record Store := {
  worlds : gset Z;
  characters : gmap Z Character;
  areas : gmap Z Area;
  items : gmap Z Item;
  items_id_seq : Z;
  sessions : gmap string Session;
  firings : list Firing
}.

Definition M (A : Type) : Type := Store -> Store * outcome A.

Definition ret {A} (a : A) : M A := fun s => (s, Returned a).

Definition throw {A} (e : Error) : M A := fun s => (s, Thrown e).

Definition bind {A B} (c : M A) (k : A -> M B) : M B :=
  fun s =>
    match c s with
    | (s', Returned a) => k a s'
    | (s', Thrown e) => (s', Thrown e)
    end.

Notation "'do' x <- c ; k" := (bind c (fun x => k))
  (at level 10, x name, c at level 100, k at level 200, only parsing).
Notation "c ;; k" := (bind c (fun _ => k))
  (at level 100, k at level 200, right associativity, only parsing).

(** Reading one component of the store. *)
Definition gets {A} (f : Store -> A) : M A := fun s => (s, Returned (f s)).

(** The store with one component replaced. *)
Definition with_characters (rows : gmap Z Character) (s : Store) : Store :=
  {| worlds := worlds s; characters := rows; areas := areas s;
     items := items s;
     items_id_seq := items_id_seq s; sessions := sessions s;
     firings := firings s |}.

Definition with_areas (rows : gmap Z Area) (s : Store) : Store :=
  {| worlds := worlds s; characters := characters s; areas := rows;
     items := items s;
     items_id_seq := items_id_seq s; sessions := sessions s;
     firings := firings s |}.

Definition with_items (rows : gmap Z Item) (s : Store) : Store :=
  {| worlds := worlds s; characters := characters s; areas := areas s;
     items := rows;
     items_id_seq := items_id_seq s; sessions := sessions s;
     firings := firings s |}.

Definition with_sessions (table : gmap string Session) (s : Store) : Store :=
  {| worlds := worlds s; characters := characters s; areas := areas s;
     items := items s;
     items_id_seq := items_id_seq s; sessions := table;
     firings := firings s |}.

Definition set_characters (f : gmap Z Character -> gmap Z Character) : M unit :=
  fun s => (with_characters (f (characters s)) s, Returned tt).

Definition set_areas (f : gmap Z Area -> gmap Z Area) : M unit :=
  fun s => (with_areas (f (areas s)) s, Returned tt).

Definition set_items (f : gmap Z Item -> gmap Z Item) : M unit :=
  fun s => (with_items (f (items s)) s, Returned tt).

Definition set_sessions (f : gmap string Session -> gmap string Session) : M unit :=
  fun s => (with_sessions (f (sessions s)) s, Returned tt).

(** [nextval] of the [items.id] sequence. *)
Definition next_item_id : M Z :=
  fun s => ({| worlds := worlds s; characters := characters s;
               areas := areas s;
               items := items s; items_id_seq := items_id_seq s + 1;
               sessions := sessions s; firings := firings s |},
            Returned (items_id_seq s + 1)).

Definition record_firing (f : Firing) : M unit :=
  fun s => ({| worlds := worlds s; characters := characters s;
               areas := areas s;
               items := items s; items_id_seq := items_id_seq s;
               sessions := sessions s; firings := (firings s ++ [f])%list |},
            Returned tt).

(** The state and the result of a run. *)
Definition state_after {A} (r : Store * outcome A) : Store := fst r.
Definition succeeded {A} (r : Store * outcome A) : Prop :=
  exists a, snd r = Returned a.
Definition failed_with {A} (r : Store * outcome A) (e : Error) : Prop :=
  snd r = Thrown e.

(** ** The constraints of the schema *)

(** The first complaint of a list of checks. *)
Fixpoint first_error (checks : list (option Error)) : option Error :=
  match checks with
  | [] => None
  | Some e :: _ => Some e
  | None :: rest => first_error rest
  end.

(** A number given to a [NUMERIC(5,2)] column overflows when, rounded,
    it has more than three digits before the point. *)
Definition overflows (q : option Q) : option Error :=
  match q with
  | Some q =>
      if (100000 <=? Z.abs (round_hundredths q))%Z then Some NumericOverflow
      else None
  | None => None
  end.

Definition too_long (n : nat) (s : option string) : option Error :=
  match s with
  | Some s =>
      match varchar n s with
      | Some _ => None
      | None => Some (ValueTooLong n)
      end
  | None => None
  end.

(** The [CHECK] of a percentage column, on the value as it is stored. *)
Definition outside_percent (constraint : string) (q : option Q)
    : option Error :=
  match q with
  | Some q =>
      match as_percent q with
      | Some _ => None
      | None => Some (CheckViolation "characters" constraint)
      end
  | None => None
  end.

(** [REFERENCES rows(id)]: a key that is given and not null has a row. *)
Definition no_row {A} (table constraint : string) (rows : gmap Z A)
    (key : option (option Z)) : option Error :=
  match key with
  | Some (Some k) =>
      match rows !! k with
      | Some _ => None
      | None => Some (ForeignKeyViolation table constraint)
      end
  | _ => None
  end.

(** ** models/Character.js *)

(** The partial object given to [Character.update], over the columns of
    [Character]: a field is [None] when it is [undefined]; a nullable
    column has a second [option], [Some None] being [null]. *)
Record CharacterData := {
  data_name : option string;
  data_nutrition : option Q;
  data_hydration : option Q;
  data_tiredness : option Q;
  data_alertness : option Q;
  data_current_area_id : option (option Z);
  data_owner_id : option (option string);
  data_character_class : option string;
  data_memory : option (list MemoryEntry);
  data_damage : option (list Injury)
}.

(** [UPDATE characters SET field = value, ...] on one row: the fields of
    [data] that are defined replace the row's, each as its column stores
    it. *)
Definition set_fields (data : CharacterData) (c : Character) : Character :=
  {| character_id := character_id c;
     character_world_id := character_world_id c;
     character_name :=
       default (character_name c) (data_name data ≫= varchar 255);
     memory := default (memory c) (data_memory data);
     nutrition := default (nutrition c) (data_nutrition data ≫= as_percent);
     hydration := default (hydration c) (data_hydration data ≫= as_percent);
     tiredness := default (tiredness c) (data_tiredness data ≫= as_percent);
     alertness := default (alertness c) (data_alertness data ≫= as_percent);
     damage := default (damage c) (data_damage data);
     character_current_area_id :=
       default (character_current_area_id c) (data_current_area_id data);
     owner_id := default (owner_id c) (data_owner_id data);
     character_class :=
       default (character_class c) (data_character_class data ≫= varchar 10) |}.

(** The values of [data] that do not fit their columns: the statement
    fails on them whether or not it finds the row. *)
Definition character_misfit (data : CharacterData) : option Error :=
  first_error
    [ too_long 255 (data_name data);
      overflows (data_nutrition data);
      overflows (data_hydration data);
      overflows (data_tiredness data);
      overflows (data_alertness data);
      too_long 10 (data_character_class data) ].

(** The constraints that the new row violates: the checks of the
    percentages and of the class, then the reference to the area. *)
Definition character_violation (data : CharacterData) (areas : gmap Z Area)
    : option Error :=
  first_error
    [ outside_percent "characters_nutrition_check" (data_nutrition data);
      outside_percent "characters_hydration_check" (data_hydration data);
      outside_percent "characters_tiredness_check" (data_tiredness data);
      outside_percent "characters_alertness_check" (data_alertness data);
      match data_character_class data with
      | Some class =>
          if String.eqb class "story" || String.eqb class "minor" then None
          else Some (CheckViolation "characters"
                       "characters_character_class_check")
      | None => None
      end;
      no_row "characters" "characters_current_area_id_fkey" areas
        (data_current_area_id data) ].

Definition Character_findById (id : Z) : M (option Character) :=
  do rows <- gets characters; ret (rows !! id).

(** [updates.length === 0]: no field of [data] is defined. *)
Definition no_character_fields (data : CharacterData) : bool :=
  match data_name data, data_nutrition data, data_hydration data,
        data_tiredness data, data_alertness data, data_current_area_id data,
        data_owner_id data, data_character_class data, data_memory data,
        data_damage data with
  | None, None, None, None, None, None, None, None, None, None => true
  | _, _, _, _, _, _, _, _, _, _ => false
  end.

(** [Character.update(id, data)]: with no defined field the row is only
    read; otherwise the updated row is returned, or [null] when no row has
    this id; the statement throws, and writes nothing, on a value that
    does not fit and on a row that violates a constraint. *)
Definition Character_update (id : Z) (data : CharacterData)
    : M (option Character) :=
  if no_character_fields data then Character_findById id
  else
    match character_misfit data with
    | Some e => throw e
    | None =>
        do rows <- gets characters;
        match rows !! id with
        | Some c =>
            do areas <- gets areas;
            match character_violation data areas with
            | Some e => throw e
            | None =>
                let c' := set_fields data c in
                set_characters (fun m => <[id := c']> m) ;; ret (Some c')
            end
        | None => ret None
        end
    end.

(** [Character.addMemory(id, memoryEntry, maxRecent)]: the entry is
    pushed and, when the memory is then longer than [maxRecent], one
    [shift()] drops the oldest entry.  [now] is the text of
    [new Date().toISOString()]; every caller among the tools passes
    [maxRecent] (its default is 5). *)
Definition Character_addMemory (id : Z) (act res : string) (maxRecent : nat)
    (now : string) : M (option Character) :=
  do character <- Character_findById id;
  match character with
  | None => ret None
  | Some character =>
      let memory1 :=
        (memory character
           ++ [{| action := act; result := res; timestamp := now |}])%list in
      let memory2 :=
        if (maxRecent <? length memory1)%nat then tail memory1 else memory1 in
      Character_update id
        {| data_name := None; data_nutrition := None; data_hydration := None;
           data_tiredness := None; data_alertness := None;
           data_current_area_id := None; data_owner_id := None;
           data_character_class := None; data_memory := Some memory2;
           data_damage := None |}
  end.

(** The cap the tools pass: [character_class === 'story' ? 5 : 3]. *)
Definition memory_cap (c : Character) : nat :=
  if String.eqb (character_class c) "story" then 5%nat else 3%nat.

(** ** models/Area.js *)

(** The partial object given to [Area.update]. *)
Record AreaData := {
  data_area_name : option string;
  data_description : option string;
  data_temperature : option Q;
  data_exits : option (gmap string Z);
  data_triggers : option (list Trigger)
}.

Definition set_area_fields (data : AreaData) (a : Area) : Area :=
  {| area_id := area_id a;
     area_world_id := area_world_id a;
     area_name := default (area_name a) (data_area_name data ≫= varchar 255);
     description := default (description a) (data_description data);
     temperature :=
       default (temperature a) (data_temperature data ≫= as_temperature);
     exits := default (exits a) (data_exits data);
     triggers := default (triggers a) (data_triggers data) |}.

Definition Area_findById (id : Z) : M (option Area) :=
  do rows <- gets areas; ret (rows !! id).

Definition no_area_fields (data : AreaData) : bool :=
  match data_area_name data, data_description data, data_temperature data,
        data_exits data, data_triggers data with
  | None, None, None, None, None => true
  | _, _, _, _, _ => false
  end.

Definition area_misfit (data : AreaData) : option Error :=
  first_error
    [ too_long 255 (data_area_name data);
      overflows (data_temperature data) ].

(** [Area.update(id, data)]; it throws on a name or a temperature that
    does not fit its column. *)
Definition Area_update (id : Z) (data : AreaData) : M (option Area) :=
  if no_area_fields data then Area_findById id
  else
    match area_misfit data with
    | Some e => throw e
    | None =>
        do rows <- gets areas;
        match rows !! id with
        | Some a =>
            let a' := set_area_fields data a in
            set_areas (fun m => <[id := a']> m) ;; ret (Some a')
        | None => ret None
        end
    end.

(** ** models/Item.js *)

(** The partial object given to [Item.update]. *)
Record ItemData := {
  data_item_name : option string;
  data_item_description : option string;
  data_item_current_area_id : option (option Z);
  data_held_by_character_id : option (option Z);
  data_held_location : option (option string);
  data_properties : option string
}.

(** What [held_location VARCHAR(50)] stores of a location, [null]
    staying [null]. *)
Definition as_location (location : option string) : option string :=
  location ≫= varchar 50.

Definition set_item_fields (data : ItemData) (i : Item) : Item :=
  {| item_id := item_id i;
     item_world_id := item_world_id i;
     item_name := default (item_name i) (data_item_name data ≫= varchar 255);
     item_description := default (item_description i) (data_item_description data);
     properties := default (properties i) (data_properties data);
     item_current_area_id :=
       default (item_current_area_id i) (data_item_current_area_id data);
     held_by_character_id :=
       default (held_by_character_id i) (data_held_by_character_id data);
     held_location :=
       default (held_location i) (as_location <$> data_held_location data) |}.

Definition item_misfit (name location : option string) : option Error :=
  first_error [ too_long 255 name; too_long 50 location ].

(** The references of an item row: to its area and to its holder. *)
Definition item_violation (area holder : option (option Z))
    (areas : gmap Z Area) (characters : gmap Z Character) : option Error :=
  first_error
    [ no_row "items" "items_current_area_id_fkey" areas area;
      no_row "items" "fk_items_character" characters holder ].

(** [Item.create]: a new row under the next id of the sequence.  A value
    that does not fit is reported before the sequence is read; a missing
    name and a broken reference are found on the new row, and the id
    drawn for it is lost. *)
Definition Item_create (world_id : Z) (name : option string)
    (descr props : string) (current_area_id held_by : option Z)
    (location : option string) : M Item :=
  match item_misfit name location with
  | Some e => throw e
  | None =>
      do id <- next_item_id;
      match name with
      | None => throw (NotNullViolation "items" "name")
      | Some name =>
          do worlds <- gets worlds;
          do areas <- gets areas;
          do characters <- gets characters;
          if negb (bool_decide (world_id ∈ worlds))
          then throw (ForeignKeyViolation "items" "items_world_id_fkey")
          else
            match item_violation (Some current_area_id) (Some held_by)
                    areas characters with
            | Some e => throw e
            | None =>
                let row :=
                  {| item_id := id; item_world_id := world_id;
                     item_name := default name (varchar 255 name);
                     item_description := descr; properties := props;
                     item_current_area_id := current_area_id;
                     held_by_character_id := held_by;
                     held_location := as_location location |} in
                set_items (fun m => <[id := row]> m) ;; ret row
            end
      end
  end.

Definition Item_findById (id : Z) : M (option Item) :=
  do rows <- gets items; ret (rows !! id).

Definition no_item_fields (data : ItemData) : bool :=
  match data_item_name data, data_item_description data,
        data_item_current_area_id data, data_held_by_character_id data,
        data_held_location data, data_properties data with
  | None, None, None, None, None, None => true
  | _, _, _, _, _, _ => false
  end.

(** [Item.update(id, data)]; it throws, and writes nothing, on a name
    or a location that does not fit and on a reference to a row that does
    not exist. *)
Definition Item_update (id : Z) (data : ItemData) : M (option Item) :=
  if no_item_fields data then Item_findById id
  else
    match item_misfit (data_item_name data) (mjoin (data_held_location data))
    with
    | Some e => throw e
    | None =>
        do rows <- gets items;
        match rows !! id with
        | Some i =>
            do areas <- gets areas;
            do characters <- gets characters;
            match item_violation (data_item_current_area_id data)
                    (data_held_by_character_id data) areas characters with
            | Some e => throw e
            | None =>
                let i' := set_item_fields data i in
                set_items (fun m => <[id := i']> m) ;; ret (Some i')
            end
        | None => ret None
        end
    end.

(** [Item.delete]: whether a row was deleted. *)
Definition Item_delete (id : Z) : M bool :=
  do rows <- gets items;
  set_items (fun m => delete id m) ;; ret (bool_decide (is_Some (rows !! id))).

Definition Item_moveToArea (id area_id : Z) : M (option Item) :=
  Item_update id
    {| data_item_name := None; data_item_description := None;
       data_item_current_area_id := Some (Some area_id);
       data_held_by_character_id := Some None;
       data_held_location := Some None;
       data_properties := None |}.

Definition Item_giveToCharacter (id character_id : Z) (location : string)
    : M (option Item) :=
  Item_update id
    {| data_item_name := None; data_item_description := None;
       data_item_current_area_id := Some None;
       data_held_by_character_id := Some (Some character_id);
       data_held_location := Some (Some location);
       data_properties := None |}.

(** ** JavaScript values: truthiness and strings *)

(** A string field is truthy when it is present and not empty, a number
    field when it is present and not zero. *)
Definition truthy_string (s : option string) : bool :=
  match s with
  | Some s => negb (String.eqb s "")
  | None => false
  end.

Definition truthy_number (n : option Z) : bool :=
  match n with
  | Some n => negb (Z.eqb n 0)
  | None => false
  end.

(** An array is truthy, also when empty. *)
Definition truthy_keywords (k : option Keywords) : bool :=
  match k with
  | Some (KeywordList _) => true
  | Some (KeywordOne k) => negb (String.eqb k "")
  | None => false
  end.

(** [a !== b] on ids, [b] possibly undefined; [text || ''] on a string
    is [default "" text], the empty string being the only falsy one. *)
Definition differs (a b : option Z) : bool := negb (bool_decide (a = b)).

(** [toLowerCase] on one code unit below 256: the letters A to Z and
    the capital letters of Latin-1 (192 to 222, but for the sign at 215)
    have their small letters 32 further. *)
Definition lower_unit (c : ascii) : ascii :=
  let n := nat_of_ascii c in
  if ((65 <=? n) && (n <=? 90)
      || (192 <=? n) && (n <=? 222) && negb (n =? 215))%nat
  then ascii_of_nat (n + 32) else c.

Fixpoint toLowerCase (s : string) : string :=
  match s with
  | EmptyString => EmptyString
  | String c s' => String (lower_unit c) (toLowerCase s')
  end.

(** [text.includes(word)]: [word] occurs in [text] as a substring. *)
Fixpoint includes (text word : string) : bool :=
  String.prefix word text ||
  match text with
  | EmptyString => false
  | String _ text' => includes text' word
  end.

Definition newline : string := String (ascii_of_nat 10) EmptyString.

(** ** handlers/triggers.js *)

(** [Array.isArray(keywords) ? keywords : [keywords]]. *)
Definition keyword_array (k : option Keywords) : list string :=
  match k with
  | Some (KeywordList ks) => ks
  | Some (KeywordOne k) => [k]
  | None => []
  end.

(** The tests of an object condition. *)
Definition object_matches (c : ConditionObject) (eventType : string)
    (eventData : EventData) : bool :=
  if truthy_string (condition_type c)
     && negb (bool_decide (condition_type c = Some eventType))
  then false
  else if String.eqb eventType "character_speech"
          && truthy_keywords (condition_keywords c)
  then
    let text := toLowerCase (default "" (event_text eventData)) in
    existsb (fun keyword => includes text (toLowerCase keyword))
            (keyword_array (condition_keywords c))
  else if truthy_number (condition_character_id c)
          && differs (condition_character_id c) (event_character_id eventData)
  then false
  else if truthy_number (condition_item_id c)
          && differs (condition_item_id c) (event_item_id eventData)
  then false
  else true.

(** No property of a condition object is read off an array. *)
Definition no_condition : ConditionObject :=
  {| condition_type := None; condition_keywords := None;
     condition_character_id := None; condition_item_id := None |}.

(** [shouldTriggerFire]: [typeof] is ['object'] of an object, of an array
    and of [null], and reading [condition.type] of [null] throws. *)
Definition shouldTriggerFire (trigger : Trigger) (eventType : string)
    (eventData : EventData) : outcome bool :=
  match condition trigger with
  | ConditionString c => Returned (String.eqb c eventType)
  | ConditionObj c => Returned (object_matches c eventType eventData)
  | ConditionArray => Returned (object_matches no_condition eventType eventData)
  | ConditionNull => Thrown NullDereference
  | ConditionOther => Returned false
  end.

(** The [updates] object that [executeReactions] accumulates. *)
Definition no_updates : AreaData :=
  {| data_area_name := None; data_description := None;
     data_temperature := None; data_exits := None; data_triggers := None |}.

Definition with_exits (u : AreaData) (e : gmap string Z) : AreaData :=
  {| data_area_name := data_area_name u; data_description := data_description u;
     data_temperature := data_temperature u; data_exits := Some e;
     data_triggers := data_triggers u |}.

Definition with_description (u : AreaData) (d : string) : AreaData :=
  {| data_area_name := data_area_name u; data_description := Some d;
     data_temperature := data_temperature u; data_exits := data_exits u;
     data_triggers := data_triggers u |}.

Definition with_temperature (u : AreaData) (t : Q) : AreaData :=
  {| data_area_name := data_area_name u; data_description := data_description u;
     data_temperature := Some t; data_exits := data_exits u;
     data_triggers := data_triggers u |}.

Definition has_updates (u : AreaData) : bool :=
  bool_decide (is_Some (data_description u))
  || bool_decide (is_Some (data_temperature u))
  || bool_decide (is_Some (data_exits u)).

(** Reading a property of [area] throws when [area] is [null]. *)
Definition deref {A} (area : option Area) (k : Area -> M A) : M A :=
  match area with
  | Some a => k a
  | None => throw NullDereference
  end.

(** One turn of the loop of [executeReactions]: the [switch] on
    [reaction.type]; [area] is the row read before the loop. *)
Definition executeReaction (areaId : Z) (area : option Area)
    (updates : AreaData) (reaction : Reaction) : M AreaData :=
  if String.eqb (reaction_type reaction) "add_item" then
    match reaction_item reaction with
    | Some item =>
        deref area (fun a =>
          Item_create (area_world_id a) (template_name item)
            (default "" (template_description item))
            (default "{}" (template_properties item))
            (Some areaId) None None ;;
          ret updates)
    | None => ret updates
    end
  else if String.eqb (reaction_type reaction) "remove_item" then
    if truthy_number (reaction_item_id reaction)
    then Item_delete (default 0 (reaction_item_id reaction)) ;; ret updates
    else ret updates
  else if String.eqb (reaction_type reaction) "add_exit" then
    if truthy_string (direction reaction)
       && truthy_number (target_area_id reaction)
    then deref area (fun a =>
           ret (with_exits updates
                  (<[default "" (direction reaction)
                     := default 0 (target_area_id reaction)]> (exits a))))
    else ret updates
  else if String.eqb (reaction_type reaction) "remove_exit" then
    if truthy_string (direction reaction)
    then deref area (fun a =>
           ret (with_exits updates
                  (delete (default "" (direction reaction)) (exits a))))
    else ret updates
  else if String.eqb (reaction_type reaction) "modify_description" then
    if truthy_string (new_description reaction)
    then ret (with_description updates (default "" (new_description reaction)))
    else if truthy_string (append_description reaction)
    then deref area (fun a =>
           ret (with_description updates
                  (description a ++ newline
                   ++ default "" (append_description reaction))))
    else ret updates
  else if String.eqb (reaction_type reaction) "modify_temperature" then
    match reaction_temperature reaction, temperature_delta reaction with
    | Some t, _ => ret (with_temperature updates t)
    | None, Some d =>
        deref area (fun a => ret (with_temperature updates (temperature a + d)%Q))
    | None, None => ret updates
    end
  else ret updates.

Fixpoint executeReactions_loop (areaId : Z) (area : option Area)
    (updates : AreaData) (reactions : list Reaction) : M AreaData :=
  match reactions with
  | [] => ret updates
  | reaction :: rest =>
      do updates' <- executeReaction areaId area updates reaction;
      executeReactions_loop areaId area updates' rest
  end.

Definition executeReactions (areaId : Z) (reactions : list Reaction)
    (eventData : EventData) : M unit :=
  match reactions with
  | [] => ret tt
  | _ =>
      do area <- Area_findById areaId;
      do updates <- executeReactions_loop areaId area no_updates reactions;
      if has_updates updates
      then Area_update areaId updates ;; ret tt
      else ret tt
  end.

(** The elements of an array with their positions: two elements of a
    parsed JSON array are never the same object, so [t !== trigger]
    compares positions. *)
Definition indexed {A} (l : list A) : list (nat * A) :=
  zip (seq 0 (length l)) l.

(** [triggers.filter(t => t !== trigger)], [trigger] being the element
    at position [i]. *)
Definition filter_out {A} (i : nat) (l : list A) : list A :=
  map snd (List.filter (fun p => negb (Nat.eqb (fst p) i)) (indexed l)).

Fixpoint for_each {A} (l : list A) (body : A -> M unit) : M unit :=
  match l with
  | [] => ret tt
  | x :: rest => body x ;; for_each rest body
  end.

(** The first loop of [executeTriggers]: the triggers that match, in
    their order; a condition that throws ends the loop. *)
Fixpoint scan (eventType : string) (eventData : EventData)
    (triggers : list (nat * Trigger)) : outcome (list (nat * Trigger)) :=
  match triggers with
  | [] => Returned []
  | p :: rest =>
      match shouldTriggerFire (snd p) eventType eventData with
      | Thrown e => Thrown e
      | Returned fires =>
          match scan eventType eventData rest with
          | Thrown e => Thrown e
          | Returned matched => Returned (if fires then p :: matched else matched)
          end
      end
  end.

(** The body of the loop over the matched triggers: [p] is a matched
    trigger with its position in [all], the list read at the start. *)
Definition fire (areaId : Z) (eventType : string) (eventData : EventData)
    (all : list Trigger) (p : nat * Trigger) : M unit :=
  let trigger := snd p in
  record_firing {| firing_area := areaId; firing_event := eventType;
                   firing_trigger := trigger |} ;;
  executeReactions areaId (reactions trigger) eventData ;;
  if one_time trigger
  then
    let updatedTriggers := filter_out (fst p) all in
    Area_update areaId
      {| data_area_name := None; data_description := None;
         data_temperature := None; data_exits := None;
         data_triggers := Some updatedTriggers |} ;;
    ret tt
  else ret tt.

Definition executeTriggers (areaId : Z) (eventType : string)
    (eventData : EventData) : M unit :=
  do area <- Area_findById areaId;
  match area with
  | None => ret tt
  | Some area =>
      match triggers area with
      | [] => ret tt
      | _ =>
          let triggers := triggers area in
          match scan eventType eventData (indexed triggers) with
          | Thrown e => throw e
          | Returned matchedTriggers =>
              for_each matchedTriggers
                (fire areaId eventType eventData triggers)
          end
      end
  end.

(** ** mcp/tools: the arguments and the response of a tool call *)

(** The [arguments] object of a [tools/call] request.  The ids and texts
    that a tool's schema requires are plain values (a tool reads only its
    own); the optional properties are options. *)
Record Args := {
  arg_character_id : Z;
  arg_item_id : Z;
  arg_world_id : Z;
  arg_area_id : option Z;
  arg_text : string;
  arg_action_type : string;
  arg_nutrition : option Q;
  arg_hydration : option Q;
  arg_tiredness : option Q;
  arg_alertness : option Q;
  arg_damage : option (list Injury);
  arg_action : string;
  arg_result : string;
  arg_location : string;
  arg_name : string;
  arg_description : option string;
  arg_properties : option string
}.

(** The content of a response: a text, or the [JSON.stringify] of rows
    read from the database (the serialisation itself is not modelled). *)
Inductive Content :=
| Text (s : string)
| JsonCharacter (c : Character) (inventory : list Item)
| JsonCharacters (cs : list Character)
| JsonItem (i : Item)
| JsonItems (li : list Item).

Record Response := {
  content : Content;
  isError : bool
}.

Definition reply (s : string) : M Response :=
  ret {| content := Text s; isError := false |}.

(** An id in a template literal; [null] prints as such. *)
Definition show_id (id : option Z) : string :=
  match id with
  | Some id => pretty id
  | None => "null"
  end.

(** [SELECT * FROM items WHERE held_by_character_id = $1]. *)
Definition Character_getInventory (id : Z) : M (list Item) :=
  do rows <- gets items;
  ret (map snd (map_to_list
         (filter (fun p => held_by_character_id (snd p) = Some id) rows))).

(** [SELECT * FROM characters WHERE world_id = $1 AND alertness >= 20];
    the order of the rows is not modelled. *)
Definition Character_findAwake (world_id : Z) : M (list Character) :=
  do rows <- gets characters;
  ret (map snd (map_to_list
         (filter (fun p => character_world_id (snd p) = world_id
                           /\ Qle_bool 20 (alertness (snd p)) = true)
                 rows))).

(** ** mcp/tools/character.js *)

Definition character_get (args : Args) : M Response :=
  do character <- Character_findById (arg_character_id args);
  match character with
  | None => throw (CharacterNotFound (arg_character_id args))
  | Some character =>
      do inventory <- Character_getInventory (arg_character_id args);
      ret {| content := JsonCharacter character inventory; isError := false |}
  end.

Definition character_list_awake (args : Args) : M Response :=
  do characters <- Character_findAwake (arg_world_id args);
  ret {| content := JsonCharacters characters; isError := false |}.

Definition character_move (args : Args) : M Response :=
  do character <- Character_findById (arg_character_id args);
  match character with
  | None => throw (CharacterNotFound (arg_character_id args))
  | Some character =>
      let oldAreaId := character_current_area_id character in
      Character_update (arg_character_id args)
        {| data_name := None; data_nutrition := None; data_hydration := None;
           data_tiredness := None; data_alertness := None;
           data_current_area_id := Some <$> arg_area_id args;
           data_owner_id := None; data_character_class := None;
           data_memory := None; data_damage := None |} ;;
      match arg_area_id args with
      | Some area_id =>
          executeTriggers area_id "character_enters"
            {| event_character_id := Some (arg_character_id args);
               event_item_id := None; event_text := None |}
      | None => ret tt
      end ;;
      reply (character_name character ++ " moved from area "
             ++ show_id oldAreaId ++ " to area "
             ++ match arg_area_id args with
                | Some a => pretty a
                | None => "undefined"
                end)
  end.

Definition character_speak (args : Args) (now : string) : M Response :=
  do character <- Character_findById (arg_character_id args);
  match character with
  | None => throw (CharacterNotFound (arg_character_id args))
  | Some character =>
      Character_addMemory (arg_character_id args)
        (arg_action_type args ++ ": " ++ arg_text args) "communicated"
        (memory_cap character) now ;;
      (if String.eqb (arg_action_type args) "speech"
          && truthy_number (character_current_area_id character)
       then executeTriggers (default 0 (character_current_area_id character))
              "character_speech"
              {| event_character_id := Some (arg_character_id args);
                 event_item_id := None; event_text := Some (arg_text args) |}
       else ret tt) ;;
      reply (character_name character ++ " (" ++ arg_action_type args ++ "): "
             ++ arg_text args)
  end.

Definition character_update_state (args : Args) : M Response :=
  let updates :=
    {| data_name := None;
       data_nutrition := arg_nutrition args;
       data_hydration := arg_hydration args;
       data_tiredness := arg_tiredness args;
       data_alertness := arg_alertness args;
       data_current_area_id := None; data_owner_id := None;
       data_character_class := None; data_memory := None;
       data_damage := arg_damage args |} in
  do character <- Character_update (arg_character_id args) updates;
  match character with
  | None => throw (CharacterNotFound (arg_character_id args))
  | Some character => reply ("Updated " ++ character_name character ++ "'s state")
  end.

Definition character_get_inventory (args : Args) : M Response :=
  do inventory <- Character_getInventory (arg_character_id args);
  ret {| content := JsonItems inventory; isError := false |}.

Definition character_add_memory (args : Args) (now : string) : M Response :=
  do character <- Character_findById (arg_character_id args);
  match character with
  | None => throw (CharacterNotFound (arg_character_id args))
  | Some character =>
      Character_addMemory (arg_character_id args)
        (arg_action args) (arg_result args) (memory_cap character) now ;;
      reply ("Added memory to " ++ character_name character)
  end.

Definition handleCharacterTool (name : string) (args : Args) (now : string)
    : M Response :=
  if String.eqb name "character_get" then character_get args
  else if String.eqb name "character_list_awake" then character_list_awake args
  else if String.eqb name "character_move" then character_move args
  else if String.eqb name "character_speak" then character_speak args now
  else if String.eqb name "character_update_state" then character_update_state args
  else if String.eqb name "character_get_inventory" then character_get_inventory args
  else if String.eqb name "character_add_memory" then character_add_memory args now
  else throw (UnknownCharacterTool name).

(** ** mcp/tools/item.js *)

Definition item_get (args : Args) : M Response :=
  do item <- Item_findById (arg_item_id args);
  match item with
  | None => throw (ItemNotFound (arg_item_id args))
  | Some item => ret {| content := JsonItem item; isError := false |}
  end.

Definition item_pickup (args : Args) (now : string) : M Response :=
  do character <- Character_findById (arg_character_id args);
  match character with
  | None => throw (CharacterNotFound (arg_character_id args))
  | Some character =>
      do item <- Item_findById (arg_item_id args);
      match item with
      | None => throw (ItemNotFound (arg_item_id args))
      | Some item =>
          if differs (item_current_area_id item)
                     (character_current_area_id character)
          then throw ItemNotInArea
          else
            Item_giveToCharacter (arg_item_id args) (arg_character_id args)
              (arg_location args) ;;
            (if truthy_number (character_current_area_id character)
             then executeTriggers
                    (default 0 (character_current_area_id character))
                    "item_picked_up"
                    {| event_character_id := Some (arg_character_id args);
                       event_item_id := Some (arg_item_id args);
                       event_text := None |}
             else ret tt) ;;
            Character_addMemory (arg_character_id args)
              ("picked up " ++ item_name item)
              ("now holding in " ++ arg_location args)
              (memory_cap character) now ;;
            reply (character_name character ++ " picked up " ++ item_name item
                   ++ " in " ++ arg_location args)
      end
  end.

Definition item_drop (args : Args) (now : string) : M Response :=
  do character <- Character_findById (arg_character_id args);
  match character with
  | None => throw (CharacterNotFound (arg_character_id args))
  | Some character =>
      do item <- Item_findById (arg_item_id args);
      match item with
      | None => throw (ItemNotFound (arg_item_id args))
      | Some item =>
          if differs (held_by_character_id item) (Some (arg_character_id args))
          then throw NotHoldingItem
          else if negb (truthy_number (character_current_area_id character))
          then throw CharacterNotInAnyArea
          else
            let area_id := default 0 (character_current_area_id character) in
            Item_moveToArea (arg_item_id args) area_id ;;
            executeTriggers area_id "item_dropped"
              {| event_character_id := Some (arg_character_id args);
                 event_item_id := Some (arg_item_id args);
                 event_text := None |} ;;
            Character_addMemory (arg_character_id args)
              ("dropped " ++ item_name item) "item left in area"
              (memory_cap character) now ;;
            reply (character_name character ++ " dropped " ++ item_name item)
      end
  end.

Definition item_create (args : Args) : M Response :=
  do item <-
    Item_create (arg_world_id args) (Some (arg_name args))
      (default "" (arg_description args))
      (default "{}" (arg_properties args))
      (if truthy_number (arg_area_id args) then arg_area_id args else None)
      None None;
  reply ("Created item: " ++ item_name item ++ " (ID: "
         ++ pretty (item_id item) ++ ")").

Definition handleItemTool (name : string) (args : Args) (now : string)
    : M Response :=
  if String.eqb name "item_get" then item_get args
  else if String.eqb name "item_pickup" then item_pickup args now
  else if String.eqb name "item_drop" then item_drop args now
  else if String.eqb name "item_create" then item_create args
  else throw (UnknownItemTool name).

(** ** handlers/auth.js *)

(** [MAX_AGE = 24 * 60 * 60 * 1000]. *)
Definition MAX_AGE : Z := 24 * 60 * 60 * 1000.

(** [session_${Date.now()}_${Math.random().toString(36).substring(2, 15)}];
    [random] is the text drawn from the random source. *)
Definition generateSessionToken (now : Z) (random : string) : string :=
  "session_" ++ pretty now ++ "_" ++ random.

Definition createSession (player : string) (character : Z) (now : Z)
    (random : string) : M string :=
  let sessionToken := generateSessionToken now random in
  set_sessions (fun m =>
    <[sessionToken := {| playerId := player; characterId := character;
                         createdAt := now; lastActivity := now |}]> m) ;;
  ret sessionToken.

Definition validateSession (token : string) (now : Z) : M (option Session) :=
  do table <- gets sessions;
  match table !! token with
  | None => ret None
  | Some session =>
      let session' :=
        {| playerId := playerId session; characterId := characterId session;
           createdAt := createdAt session; lastActivity := now |} in
      set_sessions (fun m => <[token := session']> m) ;;
      let age := now - createdAt session' in
      if Z.ltb MAX_AGE age
      then set_sessions (fun m => delete token m) ;; ret None
      else ret (Some session')
  end.

Definition endSession (token : string) : M unit :=
  set_sessions (fun m => delete token m).

Definition claimCharacter (player : string) (character : Z) (now : Z)
    (random : string) : M string :=
  do row <- Character_findById character;
  match row with
  | None => throw NoCharacterToClaim
  | Some row =>
      if truthy_string (owner_id row)
         && negb (bool_decide (owner_id row = Some player))
      then throw (CharacterAlreadyClaimed)
      else
        Character_update character
          {| data_name := None; data_nutrition := None; data_hydration := None;
             data_tiredness := None; data_alertness := None;
             data_current_area_id := None; data_owner_id := Some (Some player);
             data_character_class := None; data_memory := None;
             data_damage := None |} ;;
        createSession player character now random
  end.

Definition releaseCharacter (character : Z) : M unit :=
  Character_update character
    {| data_name := None; data_nutrition := None; data_hydration := None;
       data_tiredness := None; data_alertness := None;
       data_current_area_id := None; data_owner_id := Some None;
       data_character_class := None; data_memory := None;
       data_damage := None |} ;;
  set_sessions (fun m =>
    filter (fun p => characterId (snd p) <> character) m).

Definition canControlCharacter (player : string) (character : Z) : M bool :=
  do row <- Character_findById character;
  match row with
  | None => ret false
  | Some row => ret (bool_decide (owner_id row = Some player))
  end.

Definition cleanupSessions (now : Z) : M unit :=
  set_sessions (fun m =>
    filter (fun p => ~ (MAX_AGE < now - createdAt (snd p))) m).

(** ** mcp/server.js *)

(** A parsed message of the WebSocket transport.  [request_token] stands
    for a session token sent along with the request: the message may
    carry any property, and the message callback reads [id], [method],
    [params.name] and [params.arguments] only. *)
Record Request := {
  request_id : Z;
  method : string;
  params_name : string;
  params_arguments : Args;
  request_token : option string
}.

(** The data received on the socket: text that [JSON.parse] rejects, or
    a message. *)
Inductive Incoming :=
| Malformed
| Message (r : Request).

Inductive Result :=
| ToolList
| ToolResult (r : Response)
| Initialized.

(** What the server sends back: [{id, result}] or [{id, error}]. *)
Inductive Outgoing :=
| SendResult (id : Z) (r : Result)
| SendError (id : option Z) (code : Z) (msg : string).

Section Server.

(** The handlers of [tools/world.js] and [tools/area.js]. *)
Variable handleWorldTool handleAreaTool : string -> Args -> M Response.

Definition startsWith (s prefix : string) : bool := String.prefix prefix s.

(** The [tools/call] handler of [createMCPServer]: the route by the
    prefix of the name, inside [try ... catch].  The transport reaches it
    as [server.requestHandlers['tools/call']], taken to be the handler
    that [setRequestHandler] registered. *)
Definition tools_call (name : string) (args : Args) (now : string)
    : M Response :=
  fun s =>
    let routed :=
      if startsWith name "world_" then handleWorldTool name args
      else if startsWith name "area_" then handleAreaTool name args
      else if startsWith name "character_" then handleCharacterTool name args now
      else if startsWith name "item_" then handleItemTool name args now
      else throw (UnknownTool name) in
    match routed s with
    | (s', Returned response) => (s', Returned response)
    | (s', Thrown error) =>
        (s', Returned {| content := Text ("Error: " ++ message error);
                         isError := true |})
    end.


(** A socket of the [ws] package, as far as the server uses it: the
    listeners registered for ['message'], in the order of their
    registration. *)
Record WebSocket := {
  message_listeners : list (Incoming -> string -> M Outgoing)
}.


(** The transport object of a connection: [start] registers the message
    callback on the socket. *)
Record Transport := {
  transport_start : WebSocket -> WebSocket
}.





End Server.

(** ** More of the models: the queries by area and by owner *)

(** [Area.getItems]: [SELECT * FROM items WHERE current_area_id = $1];
    the statement fixes no order of the rows. *)
Definition Area_getItems (area : Z) : M (list Item) :=
  do rows <- gets items;
  ret (map snd (map_to_list
         (filter (fun p => item_current_area_id (snd p) = Some area) rows))).

(** [Area.getCharacters]:
    [SELECT * FROM characters WHERE current_area_id = $1]. *)
Definition Area_getCharacters (area : Z) : M (list Character) :=
  do rows <- gets characters;
  ret (map snd (map_to_list
         (filter (fun p => character_current_area_id (snd p) = Some area) rows))).

(** [ORDER BY character_class DESC, id ASC]: the story characters (the
    greater class name) come first, then the smaller id. *)
Definition scheduled_before (a b : Character) : Prop :=
  (if String.eqb (character_class a) (character_class b)
   then Z.leb (character_id a) (character_id b)
   else String.ltb (character_class b) (character_class a)) = true.

#[global] Instance scheduled_before_dec (a b : Character) :
  Decision (scheduled_before a b) := bool_eq_dec _ true.

(** [Character.findAIControllable]: the rows of the world with
    [owner_id IS NULL AND alertness >= 20], in the order above. *)
Definition Character_findAIControllable (world_id : Z) : M (list Character) :=
  do rows <- gets characters;
  ret (merge_sort scheduled_before
         (map snd (map_to_list
            (filter (fun p => character_world_id (snd p) = world_id
                              /\ owner_id (snd p) = None
                              /\ Qle_bool 20 (alertness (snd p)) = true)
                    rows)))).

(** ** agent/actions.js *)

(** An action parsed from the answer of the language model:
    [{action, direction?, text?, item?}]. *)
Record Action := {
  action_name : string;
  action_direction : option string;
  action_text : option string;
  action_item : option string
}.

(** The result object of an action: one shape per action that succeeds,
    and [{success: false, error}]. *)
Inductive ActionResult :=
| Moved (direction : string) (from : option Z) (to : Z) (description : string)
| Spoke (text description : string)
| PickedUp (item location description : string)
| Dropped (item description : string)
| Waited (description : string)
| Slept (description : string)
| Failed (error : string).

(** The argument object an action hands to a tool, the properties it does
    not set left empty. *)
Definition arguments_of (character item : Z) (area : option Z)
    (location text action_type : string) (alert : option Q) : Args :=
  {| arg_character_id := character; arg_item_id := item; arg_world_id := 0;
     arg_area_id := area; arg_text := text; arg_action_type := action_type;
     arg_nutrition := None; arg_hydration := None; arg_tiredness := None;
     arg_alertness := alert; arg_damage := None;
     arg_action := ""; arg_result := ""; arg_location := location;
     arg_name := ""; arg_description := None; arg_properties := None |}.

Definition executeMoveAction (character : Character) (action : Action)
    : M ActionResult :=
  if negb (truthy_string (action_direction action))
  then ret (Failed "Move action requires direction")
  else if negb (truthy_number (character_current_area_id character))
  then ret (Failed "Character is not in any area")
  else
    let direction := default "" (action_direction action) in
    do currentArea <-
      Area_findById (default 0 (character_current_area_id character));
    match currentArea with
    | None => ret (Failed "Current area not found")
    | Some currentArea =>
        let targetAreaId := exits currentArea !! toLowerCase direction in
        if negb (truthy_number targetAreaId)
        then ret (Failed ("No exit in direction: " ++ direction))
        else
          handleCharacterTool "character_move"
            (arguments_of (character_id character) 0 targetAreaId "" "" "" None)
            "" ;;
          ret (Moved direction (character_current_area_id character)
                 (default 0 targetAreaId)
                 (character_name character ++ " moved " ++ direction))
    end.

Definition executeSpeakAction (character : Character) (action : Action)
    (now : string) : M ActionResult :=
  if negb (truthy_string (action_text action))
  then ret (Failed "Speak action requires text")
  else
    let text := default "" (action_text action) in
    handleCharacterTool "character_speak"
      (arguments_of (character_id character) 0 None "" text "speech" None)
      now ;;
    ret (Spoke text (character_name character ++ " says: " ++ quoted text)).

(** [i.name.toLowerCase().includes(action.item.toLowerCase())]. *)
Definition name_matches (wanted : string) (i : Item) : bool :=
  includes (toLowerCase (item_name i)) (toLowerCase wanted).

(** [inventory.find(i => i.held_location === hand)] is defined. *)
Definition hand_taken (hand : string) (inventory : list Item) : bool :=
  existsb (fun i => bool_decide (held_location i = Some hand)) inventory.

Definition executePickupAction (character : Character) (action : Action)
    (now : string) : M ActionResult :=
  if negb (truthy_string (action_item action))
  then ret (Failed "Pickup action requires item name")
  else if negb (truthy_number (character_current_area_id character))
  then ret (Failed "Character is not in any area")
  else
    let wanted := default "" (action_item action) in
    do items <- Area_getItems (default 0 (character_current_area_id character));
    match List.find (name_matches wanted) items with
    | None => ret (Failed ("Item not found: " ++ wanted))
    | Some item =>
        do inventory <- Character_getInventory (character_id character);
        let location :=
          if negb (hand_taken "right hand" inventory) then Some "right hand"
          else if negb (hand_taken "left hand" inventory) then Some "left hand"
          else None in
        match location with
        | None => ret (Failed "Both hands are full")
        | Some location =>
            handleItemTool "item_pickup"
              (arguments_of (character_id character) (item_id item) None
                 location "" "" None)
              now ;;
            ret (PickedUp (item_name item) location
                   (character_name character ++ " picked up " ++ item_name item
                    ++ " in " ++ location))
        end
    end.

Definition executeDropAction (character : Character) (action : Action)
    (now : string) : M ActionResult :=
  if negb (truthy_string (action_item action))
  then ret (Failed "Drop action requires item name")
  else
    let wanted := default "" (action_item action) in
    do inventory <- Character_getInventory (character_id character);
    match List.find (name_matches wanted) inventory with
    | None => ret (Failed ("Not holding item: " ++ wanted))
    | Some item =>
        handleItemTool "item_drop"
          (arguments_of (character_id character) (item_id item) None
             "" "" "" None)
          now ;;
        ret (Dropped (item_name item)
               (character_name character ++ " dropped " ++ item_name item))
    end.

Definition executeWaitAction (character : Character) (action : Action)
    (now : string) : M ActionResult :=
  Character_addMemory (character_id character) "waited" "time passed"
    (memory_cap character) now ;;
  ret (Waited (character_name character ++ " waits")).

Definition executeSleepAction (character : Character) (action : Action)
    : M ActionResult :=
  handleCharacterTool "character_update_state"
    (arguments_of (character_id character) 0 None "" "" "" (Some 0%Q)) "" ;;
  ret (Slept (character_name character ++ " goes to sleep")).

(** [executeAction]: the character is looked up outside the [try]; an
    error thrown by an action is caught and becomes a failed result. *)
Definition executeAction (characterId : Z) (action : Action) (now : string)
    : M ActionResult :=
  do character <- Character_findById characterId;
  match character with
  | None => throw (CharacterNotFound characterId)
  | Some character =>
      fun s =>
        let run :=
          if String.eqb (action_name action) "move"
          then executeMoveAction character action
          else if String.eqb (action_name action) "speak"
          then executeSpeakAction character action now
          else if String.eqb (action_name action) "pickup"
          then executePickupAction character action now
          else if String.eqb (action_name action) "drop"
          then executeDropAction character action now
          else if String.eqb (action_name action) "wait"
          then executeWaitAction character action now
          else if String.eqb (action_name action) "sleep"
          then executeSleepAction character action
          else ret (Failed ("Unknown action: " ++ action_name action)) in
        match run s with
        | (s', Returned r) => (s', Returned r)
        | (s', Thrown error) => (s', Returned (Failed (message error)))
        end
  end.

(** [a < b] on numbers. *)
Definition less (a b : Q) : bool := negb (Qle_bool b a).

(** One injury after [seconds]: its severity lowered by
    [(seconds / 3600) * 0.5], not below 0. *)
Definition heal (seconds : Q) (injury : Injury) : Injury :=
  {| part := part injury; injury_type := injury_type injury;
     severity := Qmax 0 (severity injury - (seconds / 3600) * (1 # 2)) |}.

(** [updatePhysicalState(characterId, secondsPassed)]; the numbers are
    exact rationals here. *)
Definition updatePhysicalState (characterId : Z) (secondsPassed : Q) : M unit :=
  do character <- Character_findById characterId;
  match character with
  | None => ret tt
  | Some character =>
      let nutritionLoss := ((secondsPassed / 900) * 1)%Q in
      let hydrationLoss := ((secondsPassed / 600) * 1)%Q in
      let asleep := less (alertness character) 20 in
      let tiredness' :=
        if asleep
        then Qmax 0 (tiredness character - (secondsPassed / 60) * 5)
        else Qmin 100 (tiredness character + (secondsPassed / 600) * 1) in
      let alertness' :=
        if asleep
        then Some (Qmin 100 (alertness character + (secondsPassed / 60) * 5))
        else if Qle_bool 100 tiredness' then Some 0%Q else None in
      let damage' :=
        match damage character with
        | [] => None
        | _ =>
            Some (List.filter (fun d => less 0 (severity d))
                    (map (heal secondsPassed) (damage character)))
        end in
      Character_update characterId
        {| data_name := None;
           data_nutrition := Some (Qmax 0 (nutrition character - nutritionLoss));
           data_hydration := Some (Qmax 0 (hydration character - hydrationLoss));
           data_tiredness := Some tiredness';
           data_alertness := alertness';
           data_current_area_id := None; data_owner_id := None;
           data_character_class := None; data_memory := None;
           data_damage := damage' |} ;;
      ret tt
  end.


(** ** agent/context.js *)

(** [memory.slice(-limit)], [limit] being 3 or 5. *)
Definition buildMemoryContext (character : Character) : list MemoryEntry :=
  let limit := memory_cap character in
  drop (length (memory character) - limit) (memory character).

(** The notes that [buildPhysicalStateContext] derives from the state;
    the text of [Injured] lists the injuries. *)
Inductive Note :=
| VeryHungry | SomewhatHungry
| VeryThirsty | SomewhatThirsty
| ExtremelyTired | Tired
| Asleep | Drowsy
| Injured (injuries : list Injury).

Definition physical_notes (character : Character) : list Note :=
  ((if less (nutrition character) 30 then [VeryHungry]
    else if less (nutrition character) 60 then [SomewhatHungry] else [])
   ++ (if less (hydration character) 30 then [VeryThirsty]
       else if less (hydration character) 60 then [SomewhatThirsty] else [])
   ++ (if less 80 (tiredness character) then [ExtremelyTired]
       else if less 60 (tiredness character) then [Tired] else [])
   ++ (if less (alertness character) 20 then [Asleep]
       else if less (alertness character) 50 then [Drowsy] else [])
   ++ (match damage character with
       | [] => []
       | injuries => [Injured injuries]
       end))%list.

(** The inventory section: what each hand shows and the pockets. *)
Record InventoryContext := {
  right_hand : option (string * string);
  left_hand : option (string * string);
  pockets : list (option string * string * string)
}.

(** One turn of the loop of [buildInventoryContext]. *)
Definition place_item (inventory : InventoryContext) (item : Item)
    : InventoryContext :=
  if bool_decide (held_location item = Some "right hand") then
    {| right_hand := Some (item_name item, item_description item);
       left_hand := left_hand inventory; pockets := pockets inventory |}
  else if bool_decide (held_location item = Some "left hand") then
    {| right_hand := right_hand inventory;
       left_hand := Some (item_name item, item_description item);
       pockets := pockets inventory |}
  else
    {| right_hand := right_hand inventory; left_hand := left_hand inventory;
       pockets := (pockets inventory
                   ++ [(held_location item, item_name item,
                        item_description item)])%list |}.

Definition buildInventoryContext (items : list Item) : InventoryContext :=
  fold_left place_item items
    {| right_hand := None; left_hand := None; pockets := [] |}.

(** The area section, over the columns that are modelled. *)
Record AreaContext := {
  context_name : string;
  context_description : string;
  context_temperature : Q;
  context_exits : gmap string Z;
  context_characters : list string;
  context_items : list (string * string)
}.

Definition buildAreaContext (areaId excludeCharacterId : Z)
    : M (option AreaContext) :=
  do area <- Area_findById areaId;
  match area with
  | None => ret None
  | Some area =>
      do characters <- Area_getCharacters areaId;
      let otherCharacters :=
        map character_name
          (List.filter
             (fun c => negb (Z.eqb (character_id c) excludeCharacterId))
             characters) in
      do items <- Area_getItems areaId;
      let visibleItems := map (fun i => (item_name i, item_description i)) items in
      ret (Some {| context_name := area_name area;
                   context_description := description area;
                   context_temperature := temperature area;
                   context_exits := exits area;
                   context_characters := otherCharacters;
                   context_items := visibleItems |})
  end.


(** The context window, over the sections that are modelled. *)
Record ContextWindow := {
  window_notes : list Note;
  window_inventory : InventoryContext;
  window_location : option AreaContext;
  window_memory : list MemoryEntry
}.

Definition buildContextWindow (characterId : Z) : M ContextWindow :=
  do character <- Character_findById characterId;
  match character with
  | None => throw (CharacterNotFound characterId)
  | Some character =>
      do areaContext <-
        (if truthy_number (character_current_area_id character)
         then buildAreaContext
                (default 0 (character_current_area_id character)) characterId
         else ret None);
      do inventory <- Character_getInventory characterId;
      ret {| window_notes := physical_notes character;
             window_inventory := buildInventoryContext inventory;
             window_location := areaContext;
             window_memory := buildMemoryContext character |}
  end.

(** ** agent/controller.js *)

(** The counters of the controller; the average cycle time, which is
    read off the clock, is left out. *)
Record Stats := {
  totalActions : nat;
  successfulActions : nat;
  failedActions : nat;
  charactersProcessed : nat
}.

Record Controller := {
  cycleCount : nat;
  lastCycleTime : Z;
  stats : Stats
}.

(** [this.stats.failedActions++]. *)
Definition failed_one (st : Stats) : Stats :=
  {| totalActions := totalActions st;
     successfulActions := successfulActions st;
     failedActions := S (failedActions st);
     charactersProcessed := charactersProcessed st |}.

(** The counting of a result: [successfulActions++] or
    [failedActions++], then [totalActions++]. *)
Definition counted (r : ActionResult) (st : Stats) : Stats :=
  match r with
  | Failed _ =>
      {| totalActions := S (totalActions st);
         successfulActions := successfulActions st;
         failedActions := S (failedActions st);
         charactersProcessed := charactersProcessed st |}
  | _ =>
      {| totalActions := S (totalActions st);
         successfulActions := S (successfulActions st);
         failedActions := failedActions st;
         charactersProcessed := charactersProcessed st |}
  end.

(** [this.stats.charactersProcessed++]. *)
Definition processed_one (st : Stats) : Stats :=
  {| totalActions := totalActions st;
     successfulActions := successfulActions st;
     failedActions := failedActions st;
     charactersProcessed := S (charactersProcessed st) |}.

Section Agent.

(** The world of the controller, [WORLD_ID]. *)
Variable WORLD_ID : Z.

(** The answer of the language model to the prompt of a character's
    context, as [parseAction] reads it: [None] when the generation throws
    or the answer holds no action. *)
Variable decide : Character -> ContextWindow -> option Action.

(** The time text that the tools read while a character acts. *)
Variable clock : Z -> string.

(** [processCharacter]: the body of the [try] and the [catch]. *)
Definition processCharacter (character : Character) (secondsPassed : Q)
    (st : Stats) : M Stats :=
  fun s =>
    let attempt :=
      updatePhysicalState (character_id character) secondsPassed ;;
      do context <- buildContextWindow (character_id character);
      match decide character context with
      | None => ret (failed_one st)
      | Some action =>
          do result <-
            executeAction (character_id character) action
              (clock (character_id character));
          ret (counted result st)
      end in
    match attempt s with
    | (s', Returned st') => (s', Returned st')
    | (s', Thrown _) => (s', Returned (failed_one st))
    end.

(** The loop of [runCycle] over the selected characters. *)
Fixpoint process_all (selected : list Character) (secondsPassed : Q)
    (st : Stats) : M Stats :=
  match selected with
  | [] => ret st
  | character :: rest =>
      do st' <- processCharacter character secondsPassed st;
      process_all rest secondsPassed (processed_one st')
  end.

(** [runCycle]; [now] is the [Date.now()] from which the seconds passed
    are computed. *)
Definition runCycle (controller : Controller) (now : Z) : M Controller :=
  let count := S (cycleCount controller) in
  do selected <- Character_findAIControllable WORLD_ID;
  match selected with
  | [] =>
      ret {| cycleCount := count;
             lastCycleTime := lastCycleTime controller;
             stats := stats controller |}
  | _ =>
      let secondsPassed :=
        (inject_Z (now - lastCycleTime controller) / 1000)%Q in
      do st <- process_all selected secondsPassed (stats controller);
      ret {| cycleCount := count; lastCycleTime := now; stats := st |}
  end.

End Agent.


(** * Notions of the statements *)

(** ** Percentages *)

(** A percentage lies in [0, 100]. *)
Definition percentage (q : Q) : Prop := (0 <= q /\ q <= 100)%Q.

Definition percentages (c : Character) : Prop :=
  percentage (nutrition c) /\ percentage (hydration c)
  /\ percentage (tiredness c) /\ percentage (alertness c).

(** [clamp] of the specification: a percentage brought into [0, 100]. *)
Definition clamp (q : Q) : Q :=
  if Qle_bool q 0 then 0%Q else if Qle_bool 100 q then 100%Q else q.

(** Whether a percentage column accepts what is given for it: a number
    that, rounded to hundredths, lies in [0, 100], or nothing. *)
Definition accepted (o : option Q) : bool :=
  match o with
  | Some q => if as_percent q is Some _ then true else false
  | None => true
  end.

(** What a percentage column holds after an update: the number given,
    rounded to hundredths, or the value it held. *)
Definition stored (old : Percent) (o : option Q) : Percent :=
  default old (o ≫= as_percent).

(** The row of a character after [character_update_state]: the fields
    that are given are set, every other field is as it was. *)
Definition state_set (args : Args) (c : Character) : Character :=
  {| character_id := character_id c;
     character_world_id := character_world_id c;
     character_name := character_name c;
     memory := memory c;
     nutrition := stored (nutrition c) (arg_nutrition args);
     hydration := stored (hydration c) (arg_hydration args);
     tiredness := stored (tiredness c) (arg_tiredness args);
     alertness := stored (alertness c) (arg_alertness args);
     damage := default (damage c) (arg_damage args);
     character_current_area_id := character_current_area_id c;
     owner_id := owner_id c;
     character_class := character_class c |}.


(** ** What the trigger engine leaves as it is *)

(** What a reaction leaves as it is: the characters, the areas, the
    sessions and the record of firings. *)
Definition reaction_frame (s s' : Store) : Prop :=
  characters s' = characters s /\ areas s' = areas s
  /\ sessions s' = sessions s /\ firings s' = firings s.

(** What a run of reactions, and a firing, leave as they are: the
    characters and the sessions; the area that fires stays in place. *)
Definition engine_frame (areaId : Z) (s s' : Store) : Prop :=
  characters s' = characters s /\ sessions s' = sessions s
  /\ (is_Some (areas s !! areaId) -> is_Some (areas s' !! areaId)).

(** The firings a matched trigger list adds to the record. *)
Definition firings_of (areaId : Z) (eventType : string)
    (matched : list (nat * Trigger)) : list Firing :=
  map (fun p => {| firing_area := areaId; firing_event := eventType;
                   firing_trigger := snd p |}) matched.

(** The triggers of an area that match an event, with their positions:
    what the first loop of [executeTriggers] collects; nothing when a
    condition throws. *)
Definition matching (s : Store) (areaId : Z) (eventType : string)
    (eventData : EventData) : list (nat * Trigger) :=
  match areas s !! areaId with
  | Some area =>
      match scan eventType eventData (indexed (triggers area)) with
      | Returned matched => matched
      | Thrown _ => []
      end
  | None => []
  end.

(** The position of the last one-time trigger among the matched ones. *)
Fixpoint last_one_time (matched : list (nat * Trigger)) : option nat :=
  match matched with
  | [] => None
  | p :: rest =>
      match last_one_time rest with
      | Some j => Some j
      | None => if one_time (snd p) then Some (fst p) else None
      end
  end.

(** ** Relations that a computation keeps *)

(** A computation under which the store after stands in the relation [R]
    to the store before, however the computation ends. *)
Definition keeps (R : Store -> Store -> Prop) {A} (c : M A) : Prop :=
  forall s, R s (fst (c s)).

(** What a run of reactions leaves as it is: what the engine leaves, and
    the record of firings. *)
Definition steady (areaId : Z) (s s' : Store) : Prop :=
  engine_frame areaId s s' /\ firings s' = firings s.

(** Whether a trigger fires on an event, a condition that throws
    counting as one that does not. *)
Definition fires (eventType : string) (eventData : EventData)
    (t : Trigger) : bool :=
  match shouldTriggerFire t eventType eventData with
  | Returned b => b
  | Thrown _ => false
  end.

(** The firing of a trigger of an area on an event. *)
Definition firing_of (areaId : Z) (eventType : string) (t : Trigger)
    : Firing :=
  {| firing_area := areaId; firing_event := eventType; firing_trigger := t |}.

(** No trigger of the area answers the event, and no condition throws:
    the event passes in silence.  So does an event of no area. *)
Definition silent (s : Store) (areaId : Z) (eventType : string)
    (eventData : EventData) : Prop :=
  match areas s !! areaId with
  | Some area =>
      scan eventType eventData (indexed (triggers area)) = Returned []
  | None => True
  end.

(** A reaction that the database cannot refuse: it creates no item and
    sets no temperature. *)
Definition harmless (r : Reaction) : bool :=
  negb (String.eqb (reaction_type r) "add_item")
  && negb (String.eqb (reaction_type r) "modify_temperature").


(** ** The session layer as a transition system *)

(** The sessions of a character. *)
Definition sessions_of (character : Z) (s : Store) : gmap string Session :=
  filter (fun p => characterId (snd p) = character) (sessions s).





(** ** The transport and the session layer *)

(** A computation that neither reads nor writes the session table: run
    with another table, it does the same to the rest of the store,
    returns the same and leaves that table as it is. *)
Definition oblivious {A} (c : M A) : Prop :=
  forall (table : gmap string Session) (s : Store),
    c (with_sessions table s) = (with_sessions table (fst (c s)), snd (c s)).



(** ** Results of the queries *)

(** The rows a query returned. *)
Definition rows_of {A} (r : Store * outcome (list A)) : list A :=
  match snd r with
  | Returned rows => rows
  | Thrown _ => []
  end.

(** The release of a character's owner. *)
Definition released (row : Character) : Character :=
  set_fields
    {| data_name := None; data_nutrition := None; data_hydration := None;
       data_tiredness := None; data_alertness := None;
       data_current_area_id := None; data_owner_id := Some None;
       data_character_class := None; data_memory := None;
       data_damage := None |} row.

(** A row with its owner set. *)
Definition owned_by (player : string) (row : Character) : Character :=
  set_fields
    {| data_name := None; data_nutrition := None; data_hydration := None;
       data_tiredness := None; data_alertness := None;
       data_current_area_id := None; data_owner_id := Some (Some player);
       data_character_class := None; data_memory := None;
       data_damage := None |} row.


(** A row with its area set. *)
Definition placed (area : Z) (row : Character) : Character :=
  set_fields
    {| data_name := None; data_nutrition := None; data_hydration := None;
       data_tiredness := None; data_alertness := None;
       data_current_area_id := Some (Some area); data_owner_id := None;
       data_character_class := None; data_memory := None;
       data_damage := None |} row.

(** The rejection of a character row whose area does not exist. *)
Definition no_such_area : Error :=
  ForeignKeyViolation "characters" "characters_current_area_id_fkey".


(** The item after [Item.giveToCharacter] and after [Item.moveToArea]. *)
Definition given_to (holder : Z) (location : string) (i : Item) : Item :=
  set_item_fields
    {| data_item_name := None; data_item_description := None;
       data_item_current_area_id := Some None;
       data_held_by_character_id := Some (Some holder);
       data_held_location := Some (Some location);
       data_properties := None |} i.

Definition moved_to (area : Z) (i : Item) : Item :=
  set_item_fields
    {| data_item_name := None; data_item_description := None;
       data_item_current_area_id := Some (Some area);
       data_held_by_character_id := Some None;
       data_held_location := Some None;
       data_properties := None |} i.

(** The event data of a pickup or a drop. *)
Definition item_event (character item : Z) : EventData :=
  {| event_character_id := Some character; event_item_id := Some item;
     event_text := None |}.

(** The store after the item is handed to a character. *)
Definition handed_over (holder item : Z) (location : string) (i : Item)
    (s : Store) : Store :=
  with_items (<[item := given_to holder location i]> (items s)) s.

(** The run of the triggers of a pickup: none when the character is in
    no area. *)
Definition pickup_triggers (c : Character) (holder item : Z)
    : M unit :=
  if truthy_number (character_current_area_id c)
  then executeTriggers (default 0 (character_current_area_id c))
         "item_picked_up" (item_event holder item)
  else ret tt.


(** The store after the item is laid down in an area. *)
Definition laid_down (item area : Z) (i : Item) (s : Store) : Store :=
  with_items (<[item := moved_to area i]> (items s)) s.

(** The rejection of an item row whose area does not exist. *)
Definition no_area_for_item : Error :=
  ForeignKeyViolation "items" "items_current_area_id_fkey".

(** The event data of a speech. *)
Definition speech_event (speaker : Z) (text : string) : EventData :=
  {| event_character_id := Some speaker; event_item_id := None;
     event_text := Some text |}.


(** The location invariant of an item: in an area and in no hand, or in a
    hand, at a location, and in no area. *)
Definition located (i : Item) : Prop :=
  (is_Some (item_current_area_id i) /\ held_by_character_id i = None
   /\ held_location i = None)
  \/ (item_current_area_id i = None /\ is_Some (held_by_character_id i)
      /\ is_Some (held_location i)).


(** A reaction that writes the exits: an [add_exit] with a direction and
    a target, or a [remove_exit] with a direction. *)
Definition touches_exits (r : Reaction) : bool :=
  (String.eqb (reaction_type r) "add_exit"
   && truthy_string (direction r) && truthy_number (target_area_id r))
  || (String.eqb (reaction_type r) "remove_exit" && truthy_string (direction r)).

(** What such a reaction makes of a map of exits. *)
Definition exits_by (r : Reaction) (e : gmap string Z) : gmap string Z :=
  if String.eqb (reaction_type r) "add_exit"
  then <[default "" (direction r) := default 0 (target_area_id r)]> e
  else delete (default "" (direction r)) e.

(** An [add_exit] reaction. *)
Definition add_exit (dir : string) (target : Z) : Reaction :=
  {| reaction_type := "add_exit"; reaction_item := None;
     reaction_item_id := None; direction := Some dir;
     target_area_id := Some target; new_description := None;
     append_description := None; reaction_temperature := None;
     temperature_delta := None |}.


(** The item is held at [hand]. *)
Definition in_hand (hand : string) (i : Item) : bool :=
  bool_decide (held_location i = Some hand).

(** What the context shows of an item in a hand, and of one elsewhere. *)
Definition shown (i : Item) : string * string :=
  (item_name i, item_description i).

Definition pocketed (i : Item) : option string * string * string :=
  (held_location i, item_name i, item_description i).


(** The character went along an exit: the direction names, in lower
    case, an exit of the area it stood in, and it is stored in the
    target of that exit. *)
Definition went (s s' : Store) (c : Character) (action : Action)
    (dir : string) (to : Z) : Prop :=
  exists here area,
    character_current_area_id c = Some here
    /\ areas s !! here = Some area
    /\ action_direction action = Some dir
    /\ exits area !! toLowerCase dir = Some to
    /\ (character_current_area_id <$> characters s' !! character_id c)
       = Some (Some to).


(** ** How a computation ends *)

(** A computation that returns and leaves the store as it is, and one
    that returns. *)
Definition reads {A} (c : M A) : Prop :=
  forall s, exists a, c s = (s, Returned a).

Definition returns {A} (c : M A) : Prop :=
  forall s, exists s' a, c s = (s', Returned a).

(** A computation that throws no error of the taxonomy of the
    specification: what it throws comes from the database or from a
    trigger. *)
Definition foreign {A} (c : M A) : Prop :=
  forall s s' e, c s = (s', Thrown e) -> kind_of e = OtherError.

(** A computation that has changed nothing when it throws an error of
    the taxonomy. *)
Definition graceful {A} (c : M A) : Prop :=
  forall s s' e, c s = (s', Thrown e) -> kind_of e = OtherError \/ s' = s.

(** An action that has changed nothing when it fails by one of its
    tests or throws an error of the taxonomy. *)
Definition mild (c : M ActionResult) : Prop :=
  forall s,
    match snd (c s) with
    | Returned (Failed _) => fst (c s) = s
    | Returned _ => True
    | Thrown e => kind_of e = OtherError \/ fst (c s) = s
    end.


(** ** The rows of the characters *)

(** Every character is stored under its own id. *)
Definition keyed (s : Store) : Prop :=
  forall k c, characters s !! k = Some c -> character_id c = k.

(** The store [s'] differs from [s], among the characters, at most in
    the row of [id], which keeps its id. *)
Definition only_row (id : Z) (s s' : Store) : Prop :=
  (forall k, k <> id -> characters s' !! k = characters s !! k)
  /\ (character_id <$> characters s' !! id)
     = (character_id <$> characters s !! id).

(** A computation that leaves the characters as they are, and one that
    writes at most the row of [id]. *)
Definition spares {A} (c : M A) : Prop :=
  forall s, characters (fst (c s)) = characters s.

Definition confined (id : Z) {A} (c : M A) : Prop :=
  forall s, only_row id s (fst (c s)).

(** The character is one the scheduler selects in world [world]. *)
Definition schedulable (world : Z) (c : Character) : Prop :=
  character_world_id c = world /\ owner_id c = None
  /\ (20 <= alertness c)%Q.

(** The counters agree: no more successes than actions, and no more
    actions than successes and failures. *)
Definition consistent (st : Stats) : Prop :=
  (successfulActions st <= totalActions st)%nat
  /\ (totalActions st <= successfulActions st + failedActions st)%nat.


(** Every processed character counts once, as a success or a failure. *)
Definition counted_once (st st' : Stats) : Prop :=
  (successfulActions st' + failedActions st'
   = S (successfulActions st + failedActions st))%nat
  /\ charactersProcessed st' = charactersProcessed st
  /\ (consistent st -> consistent st').


(** A tool whose responses, when it returns, are not marked as errors. *)
Definition plain (c : M Response) : Prop :=
  forall s s' r, c s = (s', Returned r) -> isError r = false.



(** * Sample data *)

(** Arguments of a call, the properties it does not use left empty. *)
Definition call_args (character item : Z) (area : option Z)
    (location text action_type act res : string) : Args :=
  {| arg_character_id := character; arg_item_id := item; arg_world_id := 1;
     arg_area_id := area; arg_text := text; arg_action_type := action_type;
     arg_nutrition := None; arg_hydration := None; arg_tiredness := None;
     arg_alertness := None; arg_damage := None;
     arg_action := act; arg_result := res; arg_location := location;
     arg_name := ""; arg_description := None; arg_properties := None |}.

Definition state_args (character : Z) (n h t a : option Q) : Args :=
  {| arg_character_id := character; arg_item_id := 0; arg_world_id := 1;
     arg_area_id := None; arg_text := ""; arg_action_type := "";
     arg_nutrition := n; arg_hydration := h; arg_tiredness := t;
     arg_alertness := a; arg_damage := None;
     arg_action := ""; arg_result := ""; arg_location := "";
     arg_name := ""; arg_description := None; arg_properties := None |}.

Definition entry (what : string) : MemoryEntry :=
  {| action := what; result := "done"; timestamp := "2025-10-26T12:00:00.000Z" |}.

(** The percentage and the temperature that a column holds of a number
    it accepts (0 stands in for one it refuses; the samples give none). *)
Definition percent (q : Q) : Percent :=
  default (Build_Fixed 0 10000 0 I) (as_percent q).

Definition degrees (q : Q) : Temperature :=
  default (Build_Fixed (-99999) 99999 0 I) (as_temperature q).

(** Character 20 of world 1, with the given class, memory, area and owner. *)
Definition sample_character (class : string) (mem : list MemoryEntry)
    (area : option Z) (owner : option string) : Character :=
  {| character_id := 20; character_world_id := 1; character_name := "Mira";
     memory := mem; nutrition := percent 50; hydration := percent 50;
     tiredness := percent 10; alertness := percent 80; damage := [];
     character_current_area_id := area;
     owner_id := owner; character_class := class |}.

Definition sample_area (id world : Z) (ts : list Trigger) : Area :=
  {| area_id := id; area_world_id := world; area_name := "Hall";
     description := "A bare hall."; temperature := degrees 20; exits := ∅;
     triggers := ts |}.

Definition sample_item (id : Z) (name : string) (area holder : option Z)
    (location : option string) : Item :=
  {| item_id := id; item_world_id := 1; item_name := name;
     item_description := ""; properties := "{}";
     item_current_area_id := area; held_by_character_id := holder;
     held_location := location |}.

Definition sample_store (cs : gmap Z Character) (ars : gmap Z Area)
    (its : gmap Z Item) : Store :=
  {| worlds := {[ 1; 2 ]}; characters := cs; areas := ars; items := its;
     items_id_seq := 100; sessions := ∅; firings := [] |}.

(** A minor character whose stored memory holds five entries. *)
Definition store_over_cap : Store :=
  sample_store
    {[ 20 := sample_character "minor"
               [entry "1"; entry "2"; entry "3"; entry "4"; entry "5"]
               (Some 10) None ]}
    {[ 10 := sample_area 10 1 [] ]} ∅.

(** A speech condition with a keyword and a character id. *)
Definition keyword_and_speaker : Trigger :=
  {| condition :=
       ConditionObj
         {| condition_type := Some "character_speech";
            condition_keywords := Some (KeywordList ["open sesame"]);
            condition_character_id := Some 20;
            condition_item_id := None |};
     reactions := []; one_time := false |}.

Definition speech_of (speaker : Z) (text : string) : EventData :=
  {| event_character_id := Some speaker; event_item_id := None;
     event_text := Some text |}.

(** Two one-time triggers on [character_enters]. *)
Definition warm_once : Trigger :=
  {| condition := ConditionString "character_enters";
     reactions :=
       [ {| reaction_type := "modify_temperature"; reaction_item := None;
            reaction_item_id := None; direction := None;
            target_area_id := None; new_description := None;
            append_description := None; reaction_temperature := None;
            temperature_delta := Some 5%Q |} ];
     one_time := true |}.

Definition door_once : Trigger :=
  {| condition := ConditionString "character_enters";
     reactions :=
       [ {| reaction_type := "add_exit"; reaction_item := None;
            reaction_item_id := None; direction := Some "secret";
            target_area_id := Some 42; new_description := None;
            append_description := None; reaction_temperature := None;
            temperature_delta := None |} ];
     one_time := true |}.

Definition store_two_one_time : Store :=
  sample_store
    {[ 20 := sample_character "minor" [] None None ]}
    {[ 10 := sample_area 10 1 [warm_once; door_once] ]} ∅.

Definition enters (who : Z) : EventData :=
  {| event_character_id := Some who; event_item_id := None;
     event_text := None |}.

(** Characters 20 and 21 in no area, and an item held by character 21. *)
Definition store_no_area : Store :=
  sample_store
    {[ 20 := sample_character "minor" [] None None;
       21 := {| character_id := 21; character_world_id := 1;
                character_name := "Odo"; memory := [];
                nutrition := percent 40; hydration := percent 40;
                tiredness := percent 90; alertness := percent 5;
                damage := []; character_current_area_id := None;
                owner_id := None; character_class := "story" |} ]}
    {[ 10 := sample_area 10 1 [] ]}
    {[ 30 := sample_item 30 "Torch" None (Some 21) (Some "left hand") ]}.

(** Character 20 of world 1 stands in area 10 of world 1; area 11 belongs
    to world 2. *)
Definition store_two_worlds : Store :=
  sample_store
    {[ 20 := sample_character "minor" [] (Some 10) None ]}
    {[ 10 := sample_area 10 1 []; 11 := sample_area 11 2 [] ]} ∅.

(** Character 20 stands in area 10 and holds a lamp in the right hand;
    a torch lies in area 10. *)
Definition store_hand_full : Store :=
  sample_store
    {[ 20 := sample_character "minor" [] (Some 10) None ]}
    {[ 10 := sample_area 10 1 [] ]}
    {[ 30 := sample_item 30 "Torch" (Some 10) None None;
       31 := sample_item 31 "Lamp" None (Some 20) (Some "right hand") ]}.

(** Character 20 is in no area; a torch lies in area 10. *)
Definition store_adrift : Store :=
  sample_store
    {[ 20 := sample_character "minor" [] None None ]}
    {[ 10 := sample_area 10 1 [] ]}
    {[ 30 := sample_item 30 "Torch" (Some 10) None None ]}.

(** Sample calls. *)
Definition move_to_11 : Args := call_args 20 0 (Some 11) "" "" "" "" "".

Definition move_to_99 : Args := call_args 20 0 (Some 99) "" "" "" "" "".

Definition pickup_torch : Args := call_args 20 30 None "right hand" "" "" "" "".

Definition tire_out : Args := state_args 20 None None (Some 100%Q) None.

Definition overfeed : Args := state_args 20 (Some 150%Q) None None None.

(** Two claims of character 20 by the same player. *)
Definition first_claim : Store * outcome string :=
  claimCharacter "alice" 20 1761480000000 "k3j9xq2mzt" store_two_worlds.


(** A stand-in for the handlers of the world and area tools where no
    world or area tool is called. *)
Definition no_such_tool (name : string) (args : Args) : M Response :=
  throw (UnknownTool name).

(** Character 20 is owned by the player "alice"; nobody holds a session. *)
Definition store_owned : Store :=
  sample_store
    {[ 20 := sample_character "story" [] (Some 10) (Some "alice") ]}
    {[ 10 := sample_area 10 1 []; 11 := sample_area 11 1 [] ]} ∅.


(** The token of the first claim, and the session it creates. *)
Definition first_token : string :=
  generateSessionToken 1761480000000 "k3j9xq2mzt".

Definition first_session : Session :=
  {| playerId := "alice"; characterId := 20; createdAt := 1761480000000;
     lastActivity := 1761480000000 |}.

(** Two days after the first claim. *)
Definition two_days_later : Z := 1761480000000 + 2 * MAX_AGE.


(** A character sleeps when its alertness is below 20. *)
Definition awake (c : Character) : Prop := (20 <= alertness c)%Q.

(** A tired character, awake, for the physiology tick. *)
Definition tired_mira : Character :=
  {| character_id := 20; character_world_id := 1;
     character_name := "Mira"; memory := [];
     nutrition := percent 50; hydration := percent 50;
     tiredness := percent (199 # 2); alertness := percent 80;
     damage := [ {| part := "left arm"; injury_type := "cut";
                    severity := 30 |} ];
     character_current_area_id := Some 10; owner_id := None;
     character_class := "minor" |}.

Definition store_tired : Store :=
  sample_store {[ 20 := tired_mira ]} {[ 10 := sample_area 10 1 [] ]} ∅.




(** Character 20 stands in area 10, where a torch lies; the area has a
    trigger on [character_enters] only. *)
Definition store_adrift_ashore : Store :=
  sample_store
    {[ 20 := sample_character "minor" [] (Some 10) None ]}
    {[ 10 := sample_area 10 1 [warm_once] ]}
    {[ 30 := sample_item 30 "Torch" (Some 10) None None ]}.

(** Character 20 stands in area 10, whose one trigger opens a door
    once. *)
Definition store_with_door : Store :=
  sample_store
    {[ 20 := sample_character "minor" [] (Some 10) None ]}
    {[ 10 := sample_area 10 1 [door_once] ]} ∅.

(** A hall with an exit to the north, and the action of going there. *)
Definition store_with_exit : Store :=
  sample_store
    {[ 20 := sample_character "minor" [] (Some 10) None ]}
    {[ 10 := {| area_id := 10; area_world_id := 1; area_name := "Hall";
                description := "A bare hall."; temperature := degrees 20;
                exits := {[ "north" := 11 ]}; triggers := [] |};
       11 := sample_area 11 1 [] ]} ∅.

Definition go_north : Action :=
  {| action_name := "move"; action_direction := Some "North";
     action_text := None; action_item := None |}.

(** The actions of taking the torch and of going to sleep. *)
Definition take_torch : Action :=
  {| action_name := "pickup"; action_direction := None;
     action_text := None; action_item := Some "torch" |}.

Definition go_to_sleep : Action :=
  {| action_name := "sleep"; action_direction := None;
     action_text := None; action_item := None |}.

(** Character 20 holds a lamp and a rope, one in each hand; a torch lies
    in its area. *)
Definition store_hands_full : Store :=
  sample_store
    {[ 20 := sample_character "minor" [] (Some 10) None ]}
    {[ 10 := sample_area 10 1 [] ]}
    {[ 30 := sample_item 30 "Torch" (Some 10) None None;
       31 := sample_item 31 "Lamp" None (Some 20) (Some "right hand");
       32 := sample_item 32 "Rope" None (Some 20) (Some "left hand") ]}.


(** Mira, awake, and Odo, asleep, in one hall; a language model that
    always answers with a wait, and a clock that stands still. *)
Definition odo_asleep : Character :=
  {| character_id := 21; character_world_id := 1; character_name := "Odo";
     memory := []; nutrition := percent 40; hydration := percent 40;
     tiredness := percent 90; alertness := percent 5; damage := [];
     character_current_area_id := Some 10;
     owner_id := None; character_class := "story" |}.

Definition store_company : Store :=
  sample_store
    {[ 20 := sample_character "minor" [] (Some 10) None; 21 := odo_asleep ]}
    {[ 10 := sample_area 10 1 [] ]} ∅.

Definition always_wait (character : Character) (context : ContextWindow)
    : option Action :=
  Some {| action_name := "wait"; action_direction := None;
          action_text := None; action_item := None |}.

Definition still_clock (id : Z) : string := "2025-10-26T12:00:00.000Z".

Definition fresh_controller : Controller :=
  {| cycleCount := 0; lastCycleTime := 1761480000000;
     stats := {| totalActions := 0; successfulActions := 0;
                 failedActions := 0; charactersProcessed := 0 |} |}.


(** A [tools/call] of [character_get] for a character that is not stored. *)
Definition get_nobody : Request :=
  {| request_id := 8; method := "tools/call";
     params_name := "character_get";
     params_arguments := call_args 99 0 None "" "" "" "" "";
     request_token := None |}.


(** * Properties *)

(** ** The columns *)

Lemma Fixed_bounds {lo hi : Z} (x : Fixed lo hi) :
  lo <= hundredths x <= hi.
Proof.
  destruct x as [h Hh]; simpl.
  apply Is_true_true, andb_true_iff in Hh as [H1 H2]. lia.
Qed.

Lemma Fixed_eq {lo hi : Z} (x y : Fixed lo hi) :
  hundredths x = hundredths y -> x = y.
Proof.
  destruct x as [h Hh], y as [k Hk]; simpl. intros <-. f_equal.
  destruct ((lo <=? h)%Z && (h <=? hi)%Z); simpl in *; [by destruct Hh, Hk | done].
Qed.

Lemma check_spec (b : bool) :
  match check b with
  | Some _ => b = true
  | None => b = false
  end.
Proof. by destruct b. Qed.

Lemma fixed_spec (lo hi h : Z) :
  match fixed lo hi h with
  | Some x => hundredths x = h
  | None => ~ (lo <= h <= hi)
  end.
Proof.
  unfold fixed. pose proof (check_spec ((lo <=? h)%Z && (h <=? hi)%Z)) as Hb.
  destruct (check _) as [p|]; simpl; [done|].
  apply andb_false_iff in Hb as [Hb|Hb]; lia.
Qed.

Lemma fixed_in (lo hi h : Z) :
  lo <= h <= hi -> exists x, fixed lo hi h = Some x /\ hundredths x = h.
Proof.
  intros Hh. pose proof (fixed_spec lo hi h) as Hs.
  destruct (fixed lo hi h) as [x|]; [eauto | done].
Qed.

Lemma fixed_hundredths {lo hi : Z} (x : Fixed lo hi) :
  fixed lo hi (hundredths x) = Some x.
Proof.
  destruct (fixed_in lo hi (hundredths x) (Fixed_bounds x)) as (y & -> & Hy).
  f_equal. by apply Fixed_eq.
Qed.

Lemma fixed_Q_hundredths {lo hi : Z} (x : Fixed lo hi) :
  (x == hundredths x # 100)%Q.
Proof. apply Qred_correct. Qed.


Lemma fixed_Q_lt {lo hi lo' hi' : Z} (x : Fixed lo hi) (y : Fixed lo' hi') :
  (x < y)%Q <-> hundredths x < hundredths y.
Proof.
  rewrite !fixed_Q_hundredths. unfold Qlt; simpl. lia.
Qed.

Lemma fixed_Q_inj {lo hi : Z} (x y : Fixed lo hi) :
  (x : Q) = y -> x = y.
Proof.
  intros Heq. apply Fixed_eq.
  assert ((x : Q) == y)%Q as H by (by rewrite Heq).
  rewrite !fixed_Q_hundredths in H. unfold Qeq in H; simpl in H. lia.
Qed.

Lemma percent_bounds (p : Percent) : (0 <= p /\ p <= 100)%Q.
Proof.
  pose proof (Fixed_bounds p) as Hb.
  rewrite !fixed_Q_hundredths. unfold Qle; simpl. lia.
Qed.

Lemma round_hundredths_nonneg (q : Q) :
  (0 <= q)%Q -> round_hundredths q = Qfloor (q * 100 + (1 # 2)).
Proof.
  intros Hq. unfold round_hundredths.
  by destruct (Qle_bool 0 q) eqn:Hb; [|apply Qle_bool_iff in Hq; congruence].
Qed.

Lemma round_hundredths_neg (q : Q) :
  (q < 0)%Q -> round_hundredths q = - Qfloor (- q * 100 + (1 # 2)).
Proof.
  intros Hq. unfold round_hundredths.
  destruct (Qle_bool 0 q) eqn:Hb; [|done].
  apply Qle_bool_iff in Hb. lra.
Qed.

Lemma Qfloor_bounds (q : Q) (k : Z) :
  (inject_Z k <= q)%Q -> (q < inject_Z k + 1)%Q -> Qfloor q = k.
Proof.
  intros Hlo Hhi. apply Z.le_antisymm.
  - apply Z.lt_succ_r. rewrite Zlt_Qlt.
    eapply Qle_lt_trans; [apply Qfloor_le|].
    rewrite <- Z.add_1_r, inject_Z_plus. done.
  - rewrite <- (Qfloor_Z k). by apply Qfloor_resp_le.
Qed.

Lemma round_hundredths_grid (q : Q) (h : Z) :
  (q == h # 100)%Q -> round_hundredths q = h.
Proof.
  intros Hq.
  assert (q * 100 == inject_Z h)%Q as H100.
  { rewrite Hq. unfold Qeq, inject_Z; simpl. lia. }
  destruct (Qlt_le_dec q 0) as [Hneg|Hpos].
  - rewrite round_hundredths_neg by done.
    assert (Qfloor (- q * 100 + (1 # 2)) = - h) as ->; [|lia].
    apply Qfloor_bounds.
    + rewrite inject_Z_opp. lra.
    + rewrite inject_Z_opp. lra.
  - rewrite round_hundredths_nonneg by done.
    apply Qfloor_bounds; lra.
Qed.

Lemma round_hundredths_Fixed {lo hi : Z} (x : Fixed lo hi) :
  round_hundredths x = hundredths x.
Proof. apply round_hundredths_grid, fixed_Q_hundredths. Qed.

Lemma round_hundredths_mono (q r : Q) :
  (q <= r)%Q -> round_hundredths q <= round_hundredths r.
Proof.
  intros Hle.
  destruct (Qlt_le_dec q 0) as [Hq|Hq], (Qlt_le_dec r 0) as [Hr|Hr].
  - rewrite !round_hundredths_neg by done.
    apply Z.opp_le_mono. rewrite !Z.opp_involutive.
    apply Qfloor_resp_le. lra.
  - rewrite round_hundredths_neg, round_hundredths_nonneg by done.
    assert (0 <= Qfloor (- q * 100 + (1 # 2))).
    { change (Qfloor 0 <= Qfloor (- q * 100 + (1 # 2))).
      apply Qfloor_resp_le. lra. }
    assert (0 <= Qfloor (r * 100 + (1 # 2))).
    { change (Qfloor 0 <= Qfloor (r * 100 + (1 # 2))).
      apply Qfloor_resp_le. lra. }
    lia.
  - lra.
  - rewrite !round_hundredths_nonneg by done. apply Qfloor_resp_le. lra.
Qed.

Lemma as_percent_Fixed (p : Percent) : as_percent p = Some p.
Proof.
  unfold as_percent. rewrite round_hundredths_Fixed. apply fixed_hundredths.
Qed.

(** A number of [0, 100] is accepted by a percentage column. *)
Lemma as_percent_in (q : Q) :
  (0 <= q)%Q -> (q <= 100)%Q ->
  exists p, as_percent q = Some p /\ hundredths p = round_hundredths q.
Proof.
  intros H0 H100. apply fixed_in.
  split.
  - rewrite <- (round_hundredths_grid 0 0) by done.
    by apply round_hundredths_mono.
  - rewrite <- (round_hundredths_grid 100 10000) by done.
    by apply round_hundredths_mono.
Qed.

(** The rounded hundredths are within a half of the number's. *)
Lemma round_hundredths_near (q : Q) :
  (inject_Z (round_hundredths q) - (1 # 2) <= q * 100
   /\ q * 100 <= inject_Z (round_hundredths q) + (1 # 2))%Q.
Proof.
  destruct (Qlt_le_dec q 0) as [Hq|Hq].
  - rewrite round_hundredths_neg by done. rewrite inject_Z_opp.
    pose proof (Qfloor_le (- q * 100 + (1 # 2))) as H1.
    pose proof (Qlt_floor (- q * 100 + (1 # 2))) as H2.
    rewrite inject_Z_plus in H2. change (inject_Z 1) with 1%Q in H2.
    split; lra.
  - rewrite round_hundredths_nonneg by done.
    pose proof (Qfloor_le (q * 100 + (1 # 2))) as H1.
    pose proof (Qlt_floor (q * 100 + (1 # 2))) as H2.
    rewrite inject_Z_plus in H2. change (inject_Z 1) with 1%Q in H2.
    split; lra.
Qed.

(** ** Runs of the model operations *)

Lemma bind_returned {A B} (c : M A) (k : A -> M B) (s s1 : Store) (a : A) :
  c s = (s1, Returned a) -> bind c k s = k a s1.
Proof. unfold bind. by intros ->. Qed.

Lemma bind_thrown {A B} (c : M A) (k : A -> M B) (s s1 : Store) (e : Error) :
  c s = (s1, Thrown e) -> bind c k s = (s1, Thrown e).
Proof. unfold bind. by intros ->. Qed.

Lemma Character_findById_run (id : Z) (s : Store) :
  Character_findById id s = (s, Returned (characters s !! id)).
Proof. done. Qed.

Lemma Item_findById_run (id : Z) (s : Store) :
  Item_findById id s = (s, Returned (items s !! id)).
Proof. done. Qed.

Lemma Area_findById_run (id : Z) (s : Store) :
  Area_findById id s = (s, Returned (areas s !! id)).
Proof. done. Qed.

(** The ways [Character.update] ends. *)
Lemma Character_update_eq (id : Z) (data : CharacterData) (s : Store) :
  Character_update id data s
  = if no_character_fields data then (s, Returned (characters s !! id))
    else
      match character_misfit data with
      | Some e => (s, Thrown e)
      | None =>
          match characters s !! id with
          | Some c =>
              match character_violation data (areas s) with
              | Some e => (s, Thrown e)
              | None =>
                  (with_characters (<[id := set_fields data c]> (characters s)) s,
                   Returned (Some (set_fields data c)))
              end
          | None => (s, Returned None)
          end
      end.
Proof.
  unfold Character_update. destruct (no_character_fields data); [done|].
  destruct (character_misfit data); [done|].
  unfold bind, gets, ret, throw, set_characters; simpl.
  destruct (characters s !! id); [|done].
  by destruct (character_violation data (areas s)).
Qed.

Lemma Character_update_run (id : Z) (data : CharacterData) (s : Store) :
  no_character_fields data = false ->
  character_misfit data = None ->
  character_violation data (areas s) = None ->
  Character_update id data s
  = match characters s !! id with
    | Some c =>
        (with_characters (<[id := set_fields data c]> (characters s)) s,
         Returned (Some (set_fields data c)))
    | None => (s, Returned None)
    end.
Proof. intros Hdata Hfit Hok. by rewrite Character_update_eq, Hdata, Hfit, Hok. Qed.

Lemma Character_update_nothing (id : Z) (data : CharacterData) (s : Store) :
  no_character_fields data = true ->
  Character_update id data s = (s, Returned (characters s !! id)).
Proof. intros Hdata. by rewrite Character_update_eq, Hdata. Qed.

(** The ways [Item.update] ends. *)
Lemma Item_update_eq (id : Z) (data : ItemData) (s : Store) :
  Item_update id data s
  = if no_item_fields data then (s, Returned (items s !! id))
    else
      match item_misfit (data_item_name data) (mjoin (data_held_location data))
      with
      | Some e => (s, Thrown e)
      | None =>
          match items s !! id with
          | Some i =>
              match item_violation (data_item_current_area_id data)
                      (data_held_by_character_id data) (areas s)
                      (characters s) with
              | Some e => (s, Thrown e)
              | None =>
                  (with_items (<[id := set_item_fields data i]> (items s)) s,
                   Returned (Some (set_item_fields data i)))
              end
          | None => (s, Returned None)
          end
      end.
Proof.
  unfold Item_update. destruct (no_item_fields data); [done|].
  destruct (item_misfit _ _); [done|].
  unfold bind, gets, ret, throw, set_items; simpl.
  destruct (items s !! id); [|done].
  by destruct (item_violation _ _ _ _).
Qed.

(** The ways [Area.update] ends. *)
Lemma Area_update_eq (id : Z) (data : AreaData) (s : Store) :
  Area_update id data s
  = if no_area_fields data then (s, Returned (areas s !! id))
    else
      match area_misfit data with
      | Some e => (s, Thrown e)
      | None =>
          match areas s !! id with
          | Some a =>
              (with_areas (<[id := set_area_fields data a]> (areas s)) s,
               Returned (Some (set_area_fields data a)))
          | None => (s, Returned None)
          end
      end.
Proof.
  unfold Area_update. destruct (no_area_fields data); [done|].
  destruct (area_misfit data); [done|].
  unfold bind, gets, ret, set_areas; simpl.
  by destruct (areas s !! id).
Qed.

(** An append to the memory returns, and touches the characters only. *)
Lemma Character_addMemory_run (id : Z) (act res now : string) (cap : nat)
    (s : Store) :
  exists rows o,
    Character_addMemory id act res cap now s
    = (with_characters rows s, Returned o)
    /\ (characters s !! id = None -> rows = characters s).
Proof.
  unfold Character_addMemory.
  rewrite (bind_returned _ _ _ _ _ (Character_findById_run id s)).
  destruct (characters s !! id) as [c|] eqn:Hc.
  - rewrite Character_update_eq, Hc. simpl. eexists _, _. split; done.
  - exists (characters s), None. split; [|done]. by destruct s.
Qed.

(** ** Memory *)

(** Within the cap, an append keeps the memory within the cap: it holds
    the newest [maxRecent] entries of the old memory and the new one. *)
Lemma Character_addMemory_within_cap (s : Store) (id : Z) (c : Character)
    (act res now : string) (maxRecent : nat) :
  characters s !! id = Some c ->
  (0 < maxRecent)%nat ->
  (length (memory c) <= maxRecent)%nat ->
  exists c',
    characters (state_after (Character_addMemory id act res maxRecent now s)) !! id
      = Some c'
    /\ (length (memory c') <= maxRecent)%nat
    /\ memory c'
       = drop (length (memory c) + 1 - maxRecent)
              (memory c ++ [{| action := act; result := res; timestamp := now |}])%list.
Proof.
  intros Hc Hpos Hlen. unfold Character_addMemory.
  rewrite (bind_returned _ _ _ _ _ (Character_findById_run id s)), Hc.
  rewrite Character_update_eq, Hc. simpl.
  unfold state_after; simpl.
  eexists; split; [apply lookup_insert_eq|]; simpl.
  rewrite length_app; simpl.
  destruct (Nat.ltb_spec maxRecent (length (memory c) + 1)) as [Hlt|Hge].
  - assert (length (memory c) = maxRecent) as Heq by lia.
    replace (length (memory c) + 1 - maxRecent)%nat with 1%nat by lia.
    split; [|by destruct (memory c)].
    destruct (memory c) as [|e l]; simpl in *; [lia|].
    rewrite length_app; simpl; lia.
  - replace (length (memory c) + 1 - maxRecent)%nat with 0%nat by lia.
    split; [rewrite length_app; simpl; lia | done].
Qed.

(** Above the cap, an append leaves the memory as long as it was. *)
Lemma Character_addMemory_above_cap (s : Store) (id : Z) (c : Character)
    (act res now : string) (maxRecent : nat) :
  characters s !! id = Some c ->
  (maxRecent < length (memory c))%nat ->
  exists c',
    characters (state_after (Character_addMemory id act res maxRecent now s)) !! id
      = Some c'
    /\ length (memory c') = length (memory c).
Proof.
  intros Hc Hlen. unfold Character_addMemory.
  rewrite (bind_returned _ _ _ _ _ (Character_findById_run id s)), Hc.
  rewrite Character_update_eq, Hc. simpl.
  unfold state_after; simpl.
  eexists; split; [apply lookup_insert_eq|]; simpl.
  rewrite length_app; simpl.
  destruct (Nat.ltb_spec maxRecent (length (memory c) + 1)) as [Hlt|Hge]; [|lia].
  destruct (memory c) as [|e l]; simpl in *; [lia|].
  rewrite length_app; simpl; lia.
Qed.

(** C5: a minor character whose memory holds five entries still holds five
    after [character_add_memory], two more than its cap of three: the
    append drops one entry, not the excess. *)
Theorem addMemory_leaves_excess :
  let r := character_add_memory
             (call_args 20 0 None "" "" "" "looked around" "saw nothing")
             "2025-10-26T12:05:00.000Z" store_over_cap in
  succeeded r
  /\ exists c, characters (state_after r) !! 20 = Some c
       /\ character_class c = "minor"
       /\ memory_cap c = 3%nat
       /\ length (memory c) = 5%nat.
Proof.
  split; [by eexists | eexists; split; [by vm_compute|]].
  by vm_compute.
Qed.

(** ** Trigger conditions *)

(** Without keywords the object form is the conjunction of its tests. *)
Lemma shouldTriggerFire_no_keywords (c : ConditionObject) (rs : list Reaction)
    (once : bool) (eventType : string) (eventData : EventData) :
  condition_keywords c = None ->
  shouldTriggerFire {| condition := ConditionObj c; reactions := rs;
                       one_time := once |} eventType eventData
  = Returned
      (negb (truthy_string (condition_type c)
             && negb (bool_decide (condition_type c = Some eventType)))
       && negb (truthy_number (condition_character_id c)
                && differs (condition_character_id c)
                     (event_character_id eventData))
       && negb (truthy_number (condition_item_id c)
                && differs (condition_item_id c) (event_item_id eventData))).
Proof.
  intros Hk. unfold shouldTriggerFire, object_matches; simpl. rewrite Hk; simpl.
  rewrite andb_false_r. f_equal.
  destruct (truthy_string _ && _); [done|].
  destruct (truthy_number (condition_character_id c) && _); [done|].
  by destruct (truthy_number (condition_item_id c) && _).
Qed.

(** With keywords, on a speech, the keyword test alone answers. *)
Lemma shouldTriggerFire_keywords (c : ConditionObject) (rs : list Reaction)
    (once : bool) (eventData : EventData) :
  condition_type c = Some "character_speech" ->
  truthy_keywords (condition_keywords c) = true ->
  shouldTriggerFire {| condition := ConditionObj c; reactions := rs;
                       one_time := once |} "character_speech" eventData
  = Returned
      (existsb (fun keyword =>
                  includes (toLowerCase (default "" (event_text eventData)))
                           (toLowerCase keyword))
               (keyword_array (condition_keywords c))).
Proof.
  intros Ht Hk. unfold shouldTriggerFire, object_matches; simpl.
  by rewrite Ht, Hk.
Qed.

(** C7: a speech condition with the keyword "open sesame" and character
    id 20 fires on a speech of character 21 that holds the keyword: the
    keyword test answers, and the character id is not compared. *)
Theorem shouldTriggerFire_skips_speaker :
  condition keyword_and_speaker
  = ConditionObj {| condition_type := Some "character_speech";
                    condition_keywords := Some (KeywordList ["open sesame"]);
                    condition_character_id := Some 20;
                    condition_item_id := None |}
  /\ event_character_id (speech_of 21 "Open Sesame!") = Some 21
  /\ shouldTriggerFire keyword_and_speaker "character_speech"
       (speech_of 21 "Open Sesame!") = Returned true.
Proof. by vm_compute. Qed.

(** ** Relations that the computations keep *)

Lemma keeps_ret (R : Store -> Store -> Prop) `{!Reflexive R} {A} (a : A) :
  keeps R (ret a).
Proof. intros s. simpl. reflexivity. Qed.

Lemma keeps_throw (R : Store -> Store -> Prop) `{!Reflexive R} {A} (e : Error) :
  keeps R (@throw A e).
Proof. intros s. simpl. reflexivity. Qed.

Lemma keeps_gets (R : Store -> Store -> Prop) `{!Reflexive R} {A}
    (f : Store -> A) :
  keeps R (gets f).
Proof. intros s. simpl. reflexivity. Qed.

Lemma keeps_bind (R : Store -> Store -> Prop) `{!Transitive R} {A B}
    (c : M A) (k : A -> M B) :
  keeps R c -> (forall a, keeps R (k a)) -> keeps R (bind c k).
Proof.
  intros Hc Hk s. unfold bind. specialize (Hc s).
  destruct (c s) as [s1 [a|e]]; simpl in *; [|done].
  transitivity s1; [done | apply Hk].
Qed.

Lemma keeps_weaken (R R' : Store -> Store -> Prop) {A} (c : M A) :
  (forall s s', R s s' -> R' s s') -> keeps R c -> keeps R' c.
Proof. intros Hsub Hc s. apply Hsub, Hc. Qed.

Create HintDb frames.

Ltac keeps_tac :=
  repeat first
    [ solve [eauto with frames]
    | solve [apply keeps_ret; apply _]
    | solve [apply keeps_throw; apply _]
    | solve [apply keeps_gets; apply _]
    | apply keeps_bind; [apply _ | | intros ?]
    | match goal with
      | |- keeps _ (match ?x with _ => _ end) => destruct x
      | |- keeps _ (if ?x then _ else _) => destruct x
      end ].

(** ** The trigger engine runs one layer of reactions *)

#[local] Instance reaction_frame_refl : Reflexive reaction_frame.
Proof. by intros s. Qed.

#[local] Instance reaction_frame_trans : Transitive reaction_frame.
Proof.
  unfold reaction_frame.
  intros s1 s2 s3 (? & ? & ? & ?) (? & ? & ? & ?). repeat split; congruence.
Qed.

#[local] Instance engine_frame_refl (areaId : Z) : Reflexive (engine_frame areaId).
Proof. by intros s. Qed.

#[local] Instance engine_frame_trans (areaId : Z) :
  Transitive (engine_frame areaId).
Proof.
  unfold engine_frame. intros s1 s2 s3 (? & ? & H12) (? & ? & H23).
  repeat split; [congruence | congruence | eauto].
Qed.

#[local] Instance steady_refl (areaId : Z) : Reflexive (steady areaId).
Proof. by intros s. Qed.

#[local] Instance steady_trans (areaId : Z) : Transitive (steady areaId).
Proof.
  intros s1 s2 s3 [H12 F12] [H23 F23].
  split; [by transitivity s2 | congruence].
Qed.

Lemma reaction_frame_steady (areaId : Z) (s s' : Store) :
  reaction_frame s s' -> steady areaId s s'.
Proof.
  intros (Hc & Ha & Hs & Hf). repeat split; try done. by rewrite Ha.
Qed.

Lemma keeps_set_items (f : gmap Z Item -> gmap Z Item) :
  keeps reaction_frame (set_items f).
Proof. by intros s. Qed.

Lemma keeps_next_item_id : keeps reaction_frame next_item_id.
Proof. by intros s. Qed.

#[local] Hint Resolve keeps_set_items keeps_next_item_id : frames.

Lemma keeps_Item_create (world : Z) (name : option string)
    (descr props : string) (area holder : option Z)
    (location : option string) :
  keeps reaction_frame (Item_create world name descr props area holder location).
Proof. unfold Item_create. keeps_tac. Qed.

Lemma keeps_Item_delete (id : Z) : keeps reaction_frame (Item_delete id).
Proof. unfold Item_delete. keeps_tac. Qed.

#[local] Hint Resolve keeps_Item_create keeps_Item_delete : frames.

Lemma executeReaction_frame (areaId : Z) (area : option Area) (u : AreaData)
    (reaction : Reaction) :
  keeps reaction_frame (executeReaction areaId area u reaction).
Proof. unfold executeReaction, deref. keeps_tac. Qed.

Lemma executeReactions_loop_frame (areaId : Z) (area : option Area)
    (reactions : list Reaction) :
  forall u : AreaData,
    keeps reaction_frame (executeReactions_loop areaId area u reactions).
Proof.
  induction reactions as [|reaction rest IH]; intros u; simpl.
  - keeps_tac.
  - apply keeps_bind; [apply _ | apply executeReaction_frame|].
    intros u'. apply IH.
Qed.

Lemma Area_update_frame (areaId : Z) (data : AreaData) :
  keeps (steady areaId) (Area_update areaId data).
Proof.
  intros s. rewrite Area_update_eq.
  destruct (no_area_fields data); [reflexivity|].
  destruct (area_misfit data); [reflexivity|].
  destruct (areas s !! areaId) as [a|] eqn:Ha; [|reflexivity].
  repeat split. intros _. simpl. rewrite lookup_insert_eq. eauto.
Qed.

Lemma Area_findById_frame (R : Store -> Store -> Prop) `{!Reflexive R}
    (areaId : Z) :
  keeps R (Area_findById areaId).
Proof. intros s. simpl. reflexivity. Qed.

#[local] Hint Resolve Area_update_frame : frames.

Lemma executeReactions_frame (areaId : Z) (reactions : list Reaction)
    (eventData : EventData) :
  keeps (steady areaId) (executeReactions areaId reactions eventData).
Proof.
  unfold executeReactions. destruct reactions as [|reaction rest]; [keeps_tac|].
  apply keeps_bind; [apply _ | apply Area_findById_frame; apply _|].
  intros area.
  apply keeps_bind; [apply _ | | intros u; keeps_tac].
  apply (keeps_weaken reaction_frame); [apply reaction_frame_steady|].
  apply executeReactions_loop_frame.
Qed.

#[local] Hint Resolve executeReactions_frame : frames.

(** A firing is recorded before the reactions run, whatever they do then. *)
Lemma fire_frame (areaId : Z) (eventType : string) (eventData : EventData)
    (all : list Trigger) (p : nat * Trigger) (s : Store) :
  exists s1 o,
    fire areaId eventType eventData all p s = (s1, o)
    /\ engine_frame areaId s s1
    /\ firings s1 = (firings s ++ firings_of areaId eventType [p])%list.
Proof.
  unfold fire. cbv zeta.
  match goal with
  | |- context [bind (record_firing ?f) ?k s] =>
      assert (keeps (steady areaId) (k tt)) as Hrest by keeps_tac;
      change (bind (record_firing f) k s)
        with (k tt (fst (record_firing f s)));
      specialize (Hrest (fst (record_firing f s)));
      destruct (k tt (fst (record_firing f s))) as [s1 o]
  end.
  exists s1, o. split; [done|]. destruct Hrest as [Hfr Hfi]. simpl in *.
  split; [|by rewrite Hfi].
  destruct Hfr as (Hc & Hs & Ha). by repeat split.
Qed.

Lemma for_each_fire_frame (areaId : Z) (eventType : string)
    (eventData : EventData) (all : list Trigger)
    (matched : list (nat * Trigger)) :
  forall s : Store,
    exists s1 o n,
      for_each matched (fire areaId eventType eventData all) s = (s1, o)
      /\ engine_frame areaId s s1
      /\ firings s1
         = (firings s ++ firings_of areaId eventType (take n matched))%list
      /\ (o = Returned tt -> n = length matched).
Proof.
  induction matched as [|p rest IH]; intros s.
  - exists s, (Returned tt), 0%nat. split; [done|].
    split; [reflexivity|]. simpl. by rewrite app_nil_r.
  - destruct (fire_frame areaId eventType eventData all p s)
      as (s1 & o & Hrun & Hfr & Hfi).
    destruct o as [[]|e].
    + destruct (IH s1) as (s2 & o2 & n & Hrun' & Hfr' & Hfi' & Hall).
      exists s2, o2, (S n). split.
      { simpl. by rewrite (bind_returned _ _ _ _ _ Hrun). }
      split; [by transitivity s1|].
      split; [|intros Ho; by rewrite (Hall Ho)].
      rewrite Hfi', Hfi. simpl. by rewrite <- app_assoc.
    + exists s1, (Thrown e), 1%nat. split.
      { simpl. by rewrite (bind_thrown _ _ _ _ _ Hrun). }
      split; [done|]. split; [|done]. by rewrite Hfi.
Qed.

Lemma executeTriggers_unfold (areaId : Z) (eventType : string)
    (eventData : EventData) (s : Store) (area : Area)
    (matched : list (nat * Trigger)) :
  areas s !! areaId = Some area ->
  scan eventType eventData (indexed (triggers area)) = Returned matched ->
  executeTriggers areaId eventType eventData s
  = for_each matched (fire areaId eventType eventData (triggers area)) s.
Proof.
  intros Ha Hscan. unfold executeTriggers.
  rewrite (bind_returned _ _ _ _ _ (Area_findById_run areaId s)), Ha.
  destruct (triggers area) as [|t ts] eqn:Ht.
  - simpl in Hscan. by injection Hscan as <-.
  - by rewrite Hscan.
Qed.

Lemma executeTriggers_scan_throws (areaId : Z) (eventType : string)
    (eventData : EventData) (s : Store) (area : Area) (e : Error) :
  areas s !! areaId = Some area ->
  scan eventType eventData (indexed (triggers area)) = Thrown e ->
  executeTriggers areaId eventType eventData s = (s, Thrown e).
Proof.
  intros Ha Hscan. unfold executeTriggers.
  rewrite (bind_returned _ _ _ _ _ (Area_findById_run areaId s)), Ha.
  destruct (triggers area); [done|]. by rewrite Hscan.
Qed.

(** A run of the engine: it leaves the characters and the sessions as
    they are, and it records the firings of the matching triggers in
    their order, all of them when it returns. *)
Lemma executeTriggers_frame (areaId : Z) (eventType : string)
    (eventData : EventData) (s : Store) :
  exists s1 o n,
    executeTriggers areaId eventType eventData s = (s1, o)
    /\ engine_frame areaId s s1
    /\ firings s1
       = (firings s
          ++ firings_of areaId eventType
               (take n (matching s areaId eventType eventData)))%list
    /\ (o = Returned tt
        -> n = length (matching s areaId eventType eventData)).
Proof.
  unfold matching.
  destruct (areas s !! areaId) as [area|] eqn:Ha.
  - destruct (scan eventType eventData (indexed (triggers area)))
      as [matched|e] eqn:Hscan.
    + rewrite (executeTriggers_unfold _ _ _ _ _ _ Ha Hscan).
      apply for_each_fire_frame.
    + exists s, (Thrown e), 0%nat.
      split; [by apply (executeTriggers_scan_throws _ _ _ _ area)|].
      split; [reflexivity|]. simpl. by rewrite app_nil_r.
  - exists s, (Returned tt), 0%nat. unfold executeTriggers.
    rewrite (bind_returned _ _ _ _ _ (Area_findById_run areaId s)), Ha.
    split; [done|]. split; [reflexivity|].
    simpl. by rewrite app_nil_r.
Qed.

(** An event that passes in silence changes nothing. *)
Lemma executeTriggers_silent (areaId : Z) (eventType : string)
    (eventData : EventData) (s : Store) :
  silent s areaId eventType eventData ->
  executeTriggers areaId eventType eventData s = (s, Returned tt).
Proof.
  unfold silent, executeTriggers.
  rewrite (bind_returned _ _ _ _ _ (Area_findById_run areaId s)).
  destruct (areas s !! areaId) as [area|]; [|done].
  intros Hscan. destruct (triggers area); [done|]. by rewrite Hscan.
Qed.

(** The first loop collects the triggers that fire, in their order. *)
Lemma scan_fires (eventType : string) (eventData : EventData)
    (l matched : list (nat * Trigger)) :
  scan eventType eventData l = Returned matched ->
  matched = List.filter (fun p => fires eventType eventData (snd p)) l.
Proof.
  revert matched. induction l as [|p rest IH]; intros matched; simpl.
  - by intros [= <-].
  - unfold fires at 1.
    destruct (shouldTriggerFire (snd p) eventType eventData) as [b|e]; [|done].
    destruct (scan eventType eventData rest) as [m|e]; [|done].
    intros [= <-]. rewrite (IH m eq_refl). by destruct b.
Qed.

Lemma filter_indexed {A} (f : A -> bool) (l : list A) (n : nat) :
  map snd (List.filter (fun p => f (snd p)) (zip (seq n (length l)) l))
  = List.filter f l.
Proof.
  revert n. induction l as [|t ts IH]; intros n; [done|].
  simpl. destruct (f t); simpl; by rewrite IH.
Qed.

Lemma firings_of_map (areaId : Z) (eventType : string)
    (matched : list (nat * Trigger)) :
  firings_of areaId eventType matched
  = map (firing_of areaId eventType) (map snd matched).
Proof. unfold firings_of. by rewrite map_map. Qed.

(** C8: a run of reactions fires no trigger, however it ends.  So a
    call of [executeTriggers] runs reactions of the triggers that the
    area stored at the call and that fire on the event of the call, once
    each and in their order, and of no other trigger: the firings it
    records are those of the first [n] of them, and of all of them when
    the call returns.  No firing comes from what a reaction did. *)
Theorem executeTriggers_single_layer (areaId : Z) (eventType : string)
    (eventData : EventData) (s : Store) :
  let r := executeTriggers areaId eventType eventData s in
  let stored :=
    match areas s !! areaId with
    | Some area => triggers area
    | None => []
    end in
  let fired := List.filter (fires eventType eventData) stored in
  (forall reactions : list Reaction,
     firings (state_after (executeReactions areaId reactions eventData s))
     = firings s)
  /\ exists n : nat,
       firings (state_after r)
       = (firings s ++ map (firing_of areaId eventType) (take n fired))%list
       /\ match snd r with
          | Returned _ => take n fired = fired
          | Thrown _ => True
          end.
Proof.
  cbv zeta. split.
  { intros reactions.
    by destruct (executeReactions_frame areaId reactions eventData s). }
  destruct (areas s !! areaId) as [area|] eqn:Ha.
  - destruct (scan eventType eventData (indexed (triggers area)))
      as [matched|e] eqn:Hscan.
    + destruct (executeTriggers_frame areaId eventType eventData s)
        as (s1 & o & n & Hrun & _ & Hfi & Hall).
      rewrite Hrun. unfold state_after; simpl.
      unfold matching in *. rewrite Ha, Hscan in *.
      pose proof (scan_fires _ _ _ _ Hscan) as Hm.
      assert (map snd matched
              = List.filter (fires eventType eventData) (triggers area))
        as Hsnd.
      { rewrite Hm. apply filter_indexed. }
      exists n. split.
      { by rewrite Hfi, firings_of_map, <- firstn_map, Hsnd. }
      destruct o as [[]|e]; [|done].
      rewrite (Hall eq_refl), <- Hsnd, <- (length_map snd). apply firstn_all.
    + rewrite (executeTriggers_scan_throws _ _ _ _ _ _ Ha Hscan).
      exists 0%nat. unfold state_after; simpl.
      by rewrite app_nil_r.
  - exists 0%nat. rewrite executeTriggers_silent by (unfold silent; by rewrite Ha).
    unfold state_after; simpl. by rewrite app_nil_r.
Qed.

(** ** One-time triggers *)

Lemma executeReaction_keeps_triggers (areaId : Z) (area : option Area)
    (u u1 : AreaData) (reaction : Reaction) (s s1 : Store) :
  executeReaction areaId area u reaction s = (s1, Returned u1) ->
  data_triggers u1 = data_triggers u.
Proof.
  unfold executeReaction, deref.
  repeat match goal with
         | |- context [if ?b then _ else _] => destruct b
         | |- context [match ?x with _ => _ end] => destruct x
         end;
    unfold bind, ret, throw;
    repeat match goal with
           | |- context [match ?c s with _ => _ end] =>
               destruct (c s) as [? [?|?]]
           end;
    intros [= <- <-]; done.
Qed.

Lemma executeReactions_loop_keeps_triggers (areaId : Z) (area : option Area)
    (reactions : list Reaction) :
  forall (u u1 : AreaData) (s s1 : Store),
    executeReactions_loop areaId area u reactions s = (s1, Returned u1) ->
    data_triggers u1 = data_triggers u.
Proof.
  induction reactions as [|reaction rest IH]; intros u u1 s s1; simpl.
  - by intros [= <- <-].
  - unfold bind.
    destruct (executeReaction areaId area u reaction s) as [s0 [u0|e]] eqn:Hone;
      [|done].
    intros Hrest. rewrite (IH _ _ _ _ Hrest).
    by apply (executeReaction_keeps_triggers _ _ _ _ _ _ _ Hone).
Qed.

(** C6: with two one-time triggers matching [character_enters], both run
    and the stored list keeps the first: the second removal is computed
    from the list read at the start and writes the first trigger back. *)
Theorem executeTriggers_restores_one_time :
  let r := executeTriggers 10 "character_enters" (enters 20) store_two_one_time in
  succeeded r
  /\ map firing_trigger (firings (state_after r)) = [warm_once; door_once]
  /\ one_time warm_once = true
  /\ shouldTriggerFire warm_once "character_enters" (enters 20) = Returned true
  /\ (triggers <$> areas (state_after r) !! 10) = Some [warm_once].
Proof.
  split; [by eexists|]. by vm_compute.
Qed.

(** ** Moving a character *)

(** The [UPDATE] of the area of a character. *)
Lemma Character_update_area (id a : Z) (s : Store) :
  Character_update id
    {| data_name := None; data_nutrition := None; data_hydration := None;
       data_tiredness := None; data_alertness := None;
       data_current_area_id := Some (Some a); data_owner_id := None;
       data_character_class := None; data_memory := None;
       data_damage := None |} s
  = match characters s !! id with
    | Some c =>
        match areas s !! a with
        | Some _ =>
            (with_characters (<[id := placed a c]> (characters s)) s,
             Returned (Some (placed a c)))
        | None => (s, Thrown no_such_area)
        end
    | None => (s, Returned None)
    end.
Proof.
  rewrite Character_update_eq. simpl.
  destruct (characters s !! id) as [c|]; [|done].
  unfold character_violation, no_row; simpl.
  by destruct (areas s !! a).
Qed.

(** The row that [character_move] writes stays when the triggers of the
    target throw; the call ends as the run of the triggers ends. *)
Lemma character_move_run (s : Store) (args : Args) (c : Character) (a : Z)
    (area : Area) :
  characters s !! arg_character_id args = Some c ->
  arg_area_id args = Some a ->
  areas s !! a = Some area ->
  let s1 :=
    with_characters
      (<[arg_character_id args := placed a c]> (characters s)) s in
  let run :=
    executeTriggers a "character_enters" (enters (arg_character_id args)) s1 in
  characters (state_after (character_move args s))
  = <[arg_character_id args := placed a c]> (characters s)
  /\ state_after (character_move args s) = state_after run
  /\ match snd run with
     | Returned _ => succeeded (character_move args s)
     | Thrown e => failed_with (character_move args s) e
     end.
Proof.
  intros Hc Ha Harea. cbv zeta. unfold character_move.
  rewrite (bind_returned _ _ _ _ _ (Character_findById_run _ s)), Hc, Ha.
  simpl fmap.
  pose proof (Character_update_area (arg_character_id args) a s) as Hup.
  rewrite Hc, Harea in Hup.
  rewrite (bind_returned _ _ _ _ _ Hup).
  fold (enters (arg_character_id args)).
  destruct (executeTriggers_frame a "character_enters"
              (enters (arg_character_id args))
              (with_characters
                 (<[arg_character_id args := placed a c]> (characters s)) s))
    as (s2 & o & n & Hrun & (Hcs & _) & _).
  rewrite Hrun. destruct o as [[]|e].
  - rewrite (bind_returned _ _ _ _ _ Hrun).
    unfold reply, ret, succeeded, failed_with, state_after; simpl. eauto.
  - rewrite (bind_thrown _ _ _ _ _ Hrun).
    unfold succeeded, failed_with, state_after; simpl. eauto.
Qed.

(** C3, as the code has it: [character_move] fails with "Character not
    found", and changes nothing, when the character id does not resolve.
    When the target area does not exist the [UPDATE] violates the foreign
    key of [current_area_id]: the call fails with the error of the
    database, which is no "not found", and changes nothing.  When both
    exist, in the same world or not, the character's [current_area_id]
    becomes the target, every other field and every other row staying
    as they were; the triggers of the target then run for
    [character_enters], and the call returns when they do and fails with
    their error, the character moved, when they throw; the call leaves
    the store as that run leaves it.  No world id is read. *)
Theorem character_move_checks_character_only (s : Store) (args : Args)
    (a : Z) :
  arg_area_id args = Some a ->
  let r := character_move args s in
  match characters s !! arg_character_id args with
  | None =>
      failed_with r (CharacterNotFound (arg_character_id args))
      /\ state_after r = s
  | Some c =>
      match areas s !! a with
      | None =>
          failed_with r no_such_area /\ kind_of no_such_area = OtherError
          /\ state_after r = s
      | Some area =>
          let run :=
            executeTriggers a "character_enters"
              (enters (arg_character_id args))
              (with_characters
                 (<[arg_character_id args := placed a c]> (characters s)) s) in
          characters (state_after r)
          = <[arg_character_id args := placed a c]> (characters s)
          /\ state_after r = state_after run
          /\ match snd run with
             | Returned _ => succeeded r
             | Thrown e => failed_with r e
             end
      end
  end.
Proof.
  intros Ha. cbv zeta.
  destruct (characters s !! arg_character_id args) as [c|] eqn:Hc.
  - destruct (areas s !! a) as [area|] eqn:Harea.
    + by destruct (character_move_run s args c a area Hc Ha Harea)
        as (Hrow & Hstate & Hend).
    + unfold character_move.
      rewrite (bind_returned _ _ _ _ _ (Character_findById_run _ s)), Hc, Ha.
      simpl fmap.
      pose proof (Character_update_area (arg_character_id args) a s) as Hup.
      rewrite Hc, Harea in Hup.
      by rewrite (bind_thrown _ _ _ _ _ Hup).
  - unfold character_move.
    by rewrite (bind_returned _ _ _ _ _ (Character_findById_run _ s)), Hc.
Qed.

(** C3 fails as stated: character 20 of world 1 is moved to area 11 of
    world 2, the call succeeds and the character stands in area 11; and
    a move to area 99, which does not exist, fails with the
    foreign-key error of the database, not with "not found". *)
Lemma character_move_across_worlds :
  (character_world_id <$> characters store_two_worlds !! 20) = Some 1
  /\ (area_world_id <$> areas store_two_worlds !! 11) = Some 2
  /\ succeeded (character_move move_to_11 store_two_worlds)
  /\ (character_current_area_id
        <$> characters (state_after (character_move move_to_11 store_two_worlds))
            !! 20)
     = Some (Some 11)
  /\ areas store_two_worlds !! 99 = None
  /\ failed_with (character_move move_to_99 store_two_worlds) no_such_area
  /\ kind_of no_such_area <> NotFound.
Proof.
  split; [done|]. split; [done|]. split; [by eexists|].
  split; [by vm_compute|]. split; [done|]. split; [by vm_compute | done].
Qed.

Lemma character_move_checks_character_only_witness :
  arg_area_id move_to_11 = Some 11
  /\ characters (state_after (character_move move_to_11 store_two_worlds))
     = <[20 := placed 11 (sample_character "minor" [] (Some 10) None)]>
         (characters store_two_worlds)
  /\ succeeded (character_move move_to_11 store_two_worlds).
Proof.
  pose proof (character_move_checks_character_only store_two_worlds
                move_to_11 11 eq_refl) as H.
  cbv zeta in H.
  change (characters store_two_worlds !! arg_character_id move_to_11)
    with (Some (sample_character "minor" [] (Some 10) None)) in H.
  change (areas store_two_worlds !! 11)
    with (Some (sample_area 11 2 [])) in H.
  cbv beta iota zeta in H. destruct H as (Hrow & _ & Hend).
  split; [reflexivity|]. split; [exact Hrow|].
  exact Hend.
Defined.

(** ** Picking an item up *)

(** [Item.giveToCharacter], the item and the new holder being there:
    the location has to fit its column. *)
Lemma Item_giveToCharacter_run (id holder : Z) (location : string)
    (s : Store) (i : Item) (c : Character) :
  items s !! id = Some i ->
  characters s !! holder = Some c ->
  Item_giveToCharacter id holder location s
  = match varchar 50 location with
    | Some _ =>
        (handed_over holder id location i s,
         Returned (Some (given_to holder location i)))
    | None => (s, Thrown (ValueTooLong 50))
    end.
Proof.
  intros Hi Hc. unfold Item_giveToCharacter. rewrite Item_update_eq, Hi.
  unfold item_misfit, item_violation, no_row; simpl. rewrite Hc.
  by destruct (varchar 50 location).
Qed.

(** [Item.moveToArea], the item being there: the area has to exist. *)
Lemma Item_moveToArea_run (id area : Z) (s : Store) (i : Item) :
  items s !! id = Some i ->
  Item_moveToArea id area s
  = match areas s !! area with
    | Some _ =>
        (with_items (<[id := moved_to area i]> (items s)) s,
         Returned (Some (moved_to area i)))
    | None =>
        (s, Thrown (ForeignKeyViolation "items" "items_current_area_id_fkey"))
    end.
Proof.
  intros Hi. unfold Item_moveToArea. rewrite Item_update_eq, Hi.
  unfold item_misfit, item_violation, no_row; simpl.
  by destruct (areas s !! area).
Qed.

(** What a location that fits leaves in the column. *)
Lemma given_to_location (holder : Z) (location stored : string) (i : Item) :
  varchar 50 location = Some stored ->
  held_by_character_id (given_to holder location i) = Some holder
  /\ held_location (given_to holder location i) = Some stored
  /\ item_current_area_id (given_to holder location i) = None.
Proof. intros Hfit. unfold given_to; simpl. by rewrite Hfit. Qed.

Lemma varchar_short (n : nat) (s : string) :
  (String.length s <= n)%nat -> varchar n s = Some s.
Proof.
  intros Hlen. unfold varchar.
  by destruct (Nat.leb_spec (String.length s) n); [|lia].
Qed.

(** The pickup once its tests have passed: the item is handed over, then
    the triggers run, and the memory is written when they return. *)
Lemma item_pickup_run (s : Store) (args : Args) (now : string)
    (c : Character) (i : Item) (stored : string) :
  characters s !! arg_character_id args = Some c ->
  items s !! arg_item_id args = Some i ->
  differs (item_current_area_id i) (character_current_area_id c) = false ->
  varchar 50 (arg_location args) = Some stored ->
  let s1 :=
    handed_over (arg_character_id args) (arg_item_id args)
      (arg_location args) i s in
  let run :=
    pickup_triggers c (arg_character_id args) (arg_item_id args) s1 in
  match snd run with
  | Returned _ =>
      succeeded (item_pickup args now s)
      /\ state_after (item_pickup args now s)
         = state_after
             (Character_addMemory (arg_character_id args)
                ("picked up " ++ item_name i)
                ("now holding in " ++ arg_location args)
                (memory_cap c) now (fst run))
  | Thrown e =>
      failed_with (item_pickup args now s) e
      /\ state_after (item_pickup args now s) = fst run
  end.
Proof.
  intros Hc Hi Hsame Hfit. cbv zeta. unfold item_pickup.
  rewrite (bind_returned _ _ _ _ _ (Character_findById_run _ s)), Hc.
  rewrite (bind_returned _ _ _ _ _ (Item_findById_run _ s)), Hi, Hsame.
  pose proof (Item_giveToCharacter_run _ _ (arg_location args) s i c Hi Hc)
    as Hgive.
  rewrite Hfit in Hgive. rewrite (bind_returned _ _ _ _ _ Hgive).
  fold (item_event (arg_character_id args) (arg_item_id args)).
  fold (pickup_triggers c (arg_character_id args) (arg_item_id args)).
  destruct (pickup_triggers c (arg_character_id args) (arg_item_id args)
              (handed_over (arg_character_id args) (arg_item_id args)
                 (arg_location args) i s))
    as [s2 [[]|e]] eqn:Hrun; simpl.
  - rewrite (bind_returned _ _ _ _ _ Hrun).
    destruct (Character_addMemory_run (arg_character_id args)
                ("picked up " ++ item_name i)
                ("now holding in " ++ arg_location args) now
                (memory_cap c) s2)
      as (rows & o & Hmem & _).
    rewrite (bind_returned _ _ _ _ _ Hmem), Hmem.
    unfold reply, ret, succeeded, state_after; simpl. eauto.
  - by rewrite (bind_thrown _ _ _ _ _ Hrun).
Qed.

(** C4, as the code has it: [item_pickup] fails with "not found" when the
    character or the item does not resolve and with "not in the
    character's current area" when the two area ids differ, which is the
    failure of a character in no area before an item that lies in an
    area; a location of more than 50 characters is refused by its column;
    these failures change nothing.  Otherwise the item is handed to the
    character at the location, whatever the character holds there: no
    slot is checked.  The triggers of the area then run for
    [item_picked_up]; the call succeeds when they return, and fails with
    their error, the item handed over, when they throw. *)
Theorem item_pickup_checks_areas_only (s : Store) (args : Args) (now : string) :
  let r := item_pickup args now s in
  match characters s !! arg_character_id args, items s !! arg_item_id args with
  | None, _ =>
      failed_with r (CharacterNotFound (arg_character_id args))
      /\ state_after r = s
  | Some _, None =>
      failed_with r (ItemNotFound (arg_item_id args)) /\ state_after r = s
  | Some c, Some i =>
      if differs (item_current_area_id i) (character_current_area_id c)
      then failed_with r ItemNotInArea /\ state_after r = s
      else
        match varchar 50 (arg_location args) with
        | None => failed_with r (ValueTooLong 50) /\ state_after r = s
        | Some stored =>
            let s1 :=
              handed_over (arg_character_id args) (arg_item_id args)
                (arg_location args) i s in
            (held_by_character_id <$> items s1 !! arg_item_id args)
            = Some (Some (arg_character_id args))
            /\ (held_location <$> items s1 !! arg_item_id args)
               = Some (Some stored)
            /\ match
                 snd (pickup_triggers c (arg_character_id args)
                        (arg_item_id args) s1)
               with
               | Returned _ =>
                   succeeded r
                   /\ items (state_after r)
                      = items (fst (pickup_triggers c (arg_character_id args)
                                      (arg_item_id args) s1))
               | Thrown e =>
                   failed_with r e
                   /\ state_after r
                      = fst (pickup_triggers c (arg_character_id args)
                               (arg_item_id args) s1)
               end
        end
  end.
Proof.
  cbv zeta.
  destruct (characters s !! arg_character_id args) as [c|] eqn:Hc;
    [|unfold item_pickup;
      by rewrite (bind_returned _ _ _ _ _ (Character_findById_run _ s)), Hc].
  destruct (items s !! arg_item_id args) as [i|] eqn:Hi;
    [|unfold item_pickup;
      rewrite (bind_returned _ _ _ _ _ (Character_findById_run _ s)), Hc;
      by rewrite (bind_returned _ _ _ _ _ (Item_findById_run _ s)), Hi].
  destruct (differs _ _) eqn:Hsame.
  { unfold item_pickup.
    rewrite (bind_returned _ _ _ _ _ (Character_findById_run _ s)), Hc.
    by rewrite (bind_returned _ _ _ _ _ (Item_findById_run _ s)), Hi, Hsame. }
  destruct (varchar 50 (arg_location args)) as [stored|] eqn:Hfit.
  - pose proof (item_pickup_run s args now c i stored Hc Hi Hsame Hfit) as Hrun.
    cbv zeta in Hrun.
    pose proof (given_to_location (arg_character_id args) _ _ i Hfit)
      as (Hby & Hat & _).
    assert (items (handed_over (arg_character_id args) (arg_item_id args)
                     (arg_location args) i s) !! arg_item_id args
            = Some (given_to (arg_character_id args) (arg_location args) i))
      as Hrow by apply lookup_insert_eq.
    rewrite Hrow. cbn [fmap option_fmap option_map].
    rewrite Hby, Hat. split; [done|]. split; [done|].
    destruct (snd (pickup_triggers _ _ _ _)); [|done].
    destruct Hrun as [Hok ->]. split; [done|].
    match goal with
    | |- context [Character_addMemory ?id ?a ?r ?cap ?now ?s2] =>
        destruct (Character_addMemory_run id a r now cap s2)
          as (rows & o & -> & _)
    end.
    done.
  - unfold item_pickup.
    rewrite (bind_returned _ _ _ _ _ (Character_findById_run _ s)), Hc.
    rewrite (bind_returned _ _ _ _ _ (Item_findById_run _ s)), Hi, Hsame.
    pose proof (Item_giveToCharacter_run _ _ (arg_location args) s i c Hi Hc)
      as Hgive.
    rewrite Hfit in Hgive. by rewrite (bind_thrown _ _ _ _ _ Hgive).
Qed.

(** C4 fails as stated: character 20 holds a lamp in the right hand and
    picks the torch up into the right hand, and then holds both there;
    and a character in no area fails before a torch lying in area 10 with
    "not in the character's current area", not with "in no area". *)
Lemma item_pickup_into_full_hand :
  (held_location <$> items store_hand_full !! 31) = Some (Some "right hand")
  /\ (held_by_character_id <$> items store_hand_full !! 31) = Some (Some 20)
  /\ arg_location pickup_torch = "right hand"
  /\ succeeded (item_pickup pickup_torch "2025-10-26T12:05:00.000Z" store_hand_full)
  /\ (held_location
        <$> items (state_after (item_pickup pickup_torch
                                  "2025-10-26T12:05:00.000Z" store_hand_full))
            !! 30)
     = Some (Some "right hand")
  /\ (held_by_character_id
        <$> items (state_after (item_pickup pickup_torch
                                  "2025-10-26T12:05:00.000Z" store_hand_full))
            !! 30)
     = Some (Some 20)
  /\ (held_location
        <$> items (state_after (item_pickup pickup_torch
                                  "2025-10-26T12:05:00.000Z" store_hand_full))
            !! 31)
     = Some (Some "right hand")
  /\ failed_with (item_pickup pickup_torch "2025-10-26T12:05:00.000Z" store_adrift)
       ItemNotInArea
  /\ kind_of ItemNotInArea = NotHere.
Proof.
  split; [done|]. split; [done|]. split; [done|]. split; [by eexists|].
  by vm_compute.
Qed.

(** C10: a character in no area picks up an item that lies in no area
    and is held by another character.  The area test passes, [null]
    being equal to [null]; with a location that fits its column the call
    succeeds: the item passes from its holder to the calling character,
    at the location, and stays in no area; no trigger runs, and nothing
    else of the items, and no area, changes. *)
Theorem item_pickup_null_area_succeeds (s : Store) (args : Args)
    (now : string) (c : Character) (i : Item) (holder : Z) (stored : string) :
  characters s !! arg_character_id args = Some c ->
  character_current_area_id c = None ->
  items s !! arg_item_id args = Some i ->
  item_current_area_id i = None ->
  held_by_character_id i = Some holder ->
  holder <> arg_character_id args ->
  varchar 50 (arg_location args) = Some stored ->
  let r := item_pickup args now s in
  succeeded r
  /\ (exists i',
        items (state_after r) !! arg_item_id args = Some i'
        /\ held_by_character_id i' = Some (arg_character_id args)
        /\ held_by_character_id i' <> held_by_character_id i
        /\ held_location i' = Some stored
        /\ item_current_area_id i' = None
        /\ item_id i' = item_id i /\ item_name i' = item_name i)
  /\ (forall other, other <> arg_item_id args ->
        items (state_after r) !! other = items s !! other)
  /\ areas (state_after r) = areas s
  /\ firings (state_after r) = firings s.
Proof.
  intros Hc Hnowhere Hi Hloose Hheld Hother Hfit. cbv zeta.
  assert (differs (item_current_area_id i) (character_current_area_id c)
          = false) as Hsame.
  { rewrite Hloose, Hnowhere. unfold differs.
    by rewrite bool_decide_eq_true_2. }
  pose proof (item_pickup_run s args now c i stored Hc Hi Hsame Hfit) as Hrun.
  cbv zeta in Hrun. unfold pickup_triggers in Hrun.
  rewrite Hnowhere in Hrun. simpl in Hrun. destruct Hrun as [Hok ->].
  match goal with
  | |- context [Character_addMemory ?id ?a ?r ?cap ?now ?s2] =>
      destruct (Character_addMemory_run id a r now cap s2)
        as (rows & o & -> & _)
  end.
  unfold state_after; simpl. split; [done|]. split.
  - exists (given_to (arg_character_id args) (arg_location args) i).
    split; [apply lookup_insert_eq|].
    destruct (given_to_location (arg_character_id args) _ _ i Hfit)
      as (Hby & Hat & Hnone).
    split; [done|]. split; [rewrite Hby, Hheld; congruence|]. by repeat split.
  - split; [|done]. intros other Hne. by rewrite lookup_insert_ne.
Qed.

Lemma item_pickup_null_area_succeeds_witness :
  (character_current_area_id <$> characters store_no_area !! 20) = Some None
  /\ (item_current_area_id <$> items store_no_area !! 30) = Some None
  /\ (held_by_character_id <$> items store_no_area !! 30) = Some (Some 21)
  /\ (held_location <$> items store_no_area !! 30) = Some (Some "left hand")
  /\ is_Some (characters store_no_area !! 21)
  /\ succeeded
       (item_pickup (call_args 20 30 None "right hand" "" "" "" "")
          "2025-10-26T12:05:00.000Z" store_no_area)
  /\ (exists i',
        items (state_after
                 (item_pickup (call_args 20 30 None "right hand" "" "" "" "")
                    "2025-10-26T12:05:00.000Z" store_no_area)) !! 30
        = Some i'
        /\ held_by_character_id i' = Some 20
        /\ held_location i' = Some "right hand"
        /\ item_current_area_id i' = None)
  /\ firings (state_after
                (item_pickup (call_args 20 30 None "right hand" "" "" "" "")
                   "2025-10-26T12:05:00.000Z" store_no_area))
     = firings store_no_area.
Proof.
  split; [reflexivity|]. split; [reflexivity|]. split; [reflexivity|].
  split; [reflexivity|]. split; [eexists; reflexivity|].
  destruct (item_pickup_null_area_succeeds store_no_area
              (call_args 20 30 None "right hand" "" "" "" "")
              "2025-10-26T12:05:00.000Z"
              (sample_character "minor" [] None None)
              (sample_item 30 "Torch" None (Some 21) (Some "left hand"))
              21 "right hand")
    as (Hok & (i' & Hrow & Hby & _ & Hat & Hnone & _) & _ & _ & Hfirings).
  - reflexivity.
  - reflexivity.
  - reflexivity.
  - reflexivity.
  - reflexivity.
  - simpl. lia.
  - reflexivity.
  - split; [exact Hok|]. split; [|exact Hfirings].
    exists i'. split; [exact Hrow|]. split; [exact Hby|].
    split; [exact Hat | exact Hnone].
Defined.

(** ** Updating the physical state *)


Lemma first_error_None (checks : list (option Error)) :
  first_error checks = None <-> Forall (fun o => o = None) checks.
Proof.
  induction checks as [|[e|] rest IH]; simpl.
  - split; [constructor | done].
  - split; [done | by intros [[=] _]%Forall_cons].
  - rewrite IH. split; [by constructor | by intros [_ ?]%Forall_cons].
Qed.

Lemma first_error_kind (checks : list (option Error)) (e : Error) :
  Forall (fun o => forall e, o = Some e -> kind_of e = OtherError) checks ->
  first_error checks = Some e -> kind_of e = OtherError.
Proof.
  induction checks as [|[e'|] rest IH]; simpl; [done| |].
  - intros [He _]%Forall_cons [= <-]. by apply He.
  - intros [_ Hrest]%Forall_cons. by apply IH.
Qed.

Lemma overflows_kind (o : option Q) (e : Error) :
  overflows o = Some e -> kind_of e = OtherError.
Proof. unfold overflows. repeat case_match; by intros [= <-]. Qed.

Lemma too_long_kind (n : nat) (o : option string) (e : Error) :
  too_long n o = Some e -> kind_of e = OtherError.
Proof. unfold too_long. repeat case_match; by intros [= <-]. Qed.

Lemma outside_percent_kind (constraint : string) (o : option Q) (e : Error) :
  outside_percent constraint o = Some e -> kind_of e = OtherError.
Proof. unfold outside_percent. repeat case_match; by intros [= <-]. Qed.

Lemma no_row_kind {A} (table constraint : string) (rows : gmap Z A)
    (key : option (option Z)) (e : Error) :
  no_row table constraint rows key = Some e -> kind_of e = OtherError.
Proof. unfold no_row. repeat case_match; by intros [= <-]. Qed.

(** The database refuses with errors of its own. *)
Lemma character_misfit_kind (data : CharacterData) (e : Error) :
  character_misfit data = Some e -> kind_of e = OtherError.
Proof.
  apply first_error_kind.
  repeat constructor; eauto using overflows_kind, too_long_kind.
Qed.

Lemma character_violation_kind (data : CharacterData) (areas : gmap Z Area)
    (e : Error) :
  character_violation data areas = Some e -> kind_of e = OtherError.
Proof.
  apply first_error_kind.
  repeat constructor; eauto using outside_percent_kind, no_row_kind.
  intros e'. repeat case_match; by intros [= <-].
Qed.

Lemma accepted_fits (constraint : string) (o : option Q) :
  accepted o = true ->
  overflows o = None /\ outside_percent constraint o = None.
Proof.
  destruct o as [q|]; [|done]. unfold accepted, overflows, outside_percent.
  unfold as_percent. pose proof (fixed_spec 0 10000 (round_hundredths q)) as Hs.
  destruct (fixed 0 10000 (round_hundredths q)) as [p|]; [|done].
  intros _. pose proof (Fixed_bounds p) as Hb. rewrite Hs in Hb.
  split; [|done]. by destruct (Z.leb_spec 100000 (Z.abs (round_hundredths q))); [lia|].
Qed.

Lemma accepted_not (constraint : string) (o : option Q) :
  accepted o = false ->
  is_Some o /\ is_Some (outside_percent constraint o).
Proof.
  destruct o as [q|]; [|done]. unfold accepted, outside_percent.
  destruct (as_percent q); [done|]. eauto.
Qed.

(** The ways [character_update_state] ends on a character that is
    there. *)
Lemma character_update_state_run (s : Store) (args : Args) (c : Character) :
  characters s !! arg_character_id args = Some c ->
  let r := character_update_state args s in
  if accepted (arg_nutrition args) && accepted (arg_hydration args)
     && accepted (arg_tiredness args) && accepted (arg_alertness args)
  then
    succeeded r
    /\ state_after r
       = with_characters
           (<[arg_character_id args := state_set args c]> (characters s)) s
  else
    (exists e, failed_with r e /\ kind_of e = OtherError)
    /\ state_after r = s.
Proof.
  intros Hc. cbv zeta. unfold character_update_state. cbv zeta.
  match goal with
  | |- context [bind (Character_update ?id ?data) _ s] =>
      pose proof (Character_update_eq id data s) as Hup;
      pose proof (character_misfit_kind data) as Hfitk;
      pose proof (character_violation_kind data (areas s)) as Hviok;
      destruct (character_misfit data) as [e1|] eqn:Hfit;
      [|destruct (character_violation data (areas s)) as [e2|] eqn:Hvio]
  end.
  - (* a value overflows *)
    assert (accepted (arg_nutrition args) && accepted (arg_hydration args)
            && accepted (arg_tiredness args) && accepted (arg_alertness args)
            = false) as ->.
    { apply not_true_is_false. intros Hall.
      apply andb_true_iff in Hall as [Hall Ha].
      apply andb_true_iff in Hall as [Hall Ht].
      apply andb_true_iff in Hall as [Hn Hh].
      apply (accepted_fits "") in Hn as [Hn _], Hh as [Hh _],
        Ht as [Ht _], Ha as [Ha _].
      unfold character_misfit in Hfit. simpl in Hfit.
      by rewrite Hn, Hh, Ht, Ha in Hfit. }
    assert (no_character_fields
              {| data_name := None; data_nutrition := arg_nutrition args;
                 data_hydration := arg_hydration args;
                 data_tiredness := arg_tiredness args;
                 data_alertness := arg_alertness args;
                 data_current_area_id := None; data_owner_id := None;
                 data_character_class := None; data_memory := None;
                 data_damage := arg_damage args |} = false) as Hsome.
    { unfold character_misfit, overflows in Hfit. simpl in Hfit.
      unfold no_character_fields; simpl.
      by destruct (arg_nutrition args), (arg_hydration args),
        (arg_tiredness args), (arg_alertness args). }
    rewrite Hsome in Hup. rewrite (bind_thrown _ _ _ _ _ Hup).
    split; [|done]. exists e1. split; [done | by apply Hfitk].
  - (* a check fails *)
    assert (accepted (arg_nutrition args) && accepted (arg_hydration args)
            && accepted (arg_tiredness args) && accepted (arg_alertness args)
            = false) as ->.
    { apply not_true_is_false. intros Hall.
      apply andb_true_iff in Hall as [Hall Ha].
      apply andb_true_iff in Hall as [Hall Ht].
      apply andb_true_iff in Hall as [Hn Hh].
      apply (accepted_fits "characters_nutrition_check") in Hn as [_ Hn].
      apply (accepted_fits "characters_hydration_check") in Hh as [_ Hh].
      apply (accepted_fits "characters_tiredness_check") in Ht as [_ Ht].
      apply (accepted_fits "characters_alertness_check") in Ha as [_ Ha].
      unfold character_violation in Hvio. simpl in Hvio.
      by rewrite Hn, Hh, Ht, Ha in Hvio. }
    assert (no_character_fields
              {| data_name := None; data_nutrition := arg_nutrition args;
                 data_hydration := arg_hydration args;
                 data_tiredness := arg_tiredness args;
                 data_alertness := arg_alertness args;
                 data_current_area_id := None; data_owner_id := None;
                 data_character_class := None; data_memory := None;
                 data_damage := arg_damage args |} = false) as Hsome.
    { unfold character_violation, outside_percent in Hvio. simpl in Hvio.
      unfold no_character_fields; simpl.
      by destruct (arg_nutrition args), (arg_hydration args),
        (arg_tiredness args), (arg_alertness args). }
    rewrite Hsome, Hc in Hup. rewrite (bind_thrown _ _ _ _ _ Hup).
    split; [|done]. exists e2. split; [done | by apply Hviok].
  - (* the row is written, or only read when nothing is given *)
    assert (accepted (arg_nutrition args) && accepted (arg_hydration args)
            && accepted (arg_tiredness args) && accepted (arg_alertness args)
            = true) as ->.
    { apply first_error_None in Hvio.
      apply Forall_cons in Hvio as [Hn Hvio].
      apply Forall_cons in Hvio as [Hh Hvio].
      apply Forall_cons in Hvio as [Ht Hvio].
      apply Forall_cons in Hvio as [Ha _]. simpl in Hn, Hh, Ht, Ha.
      repeat (apply andb_true_iff; split); apply not_false_iff_true;
        intros Hno;
        [ apply (accepted_not "characters_nutrition_check") in Hno as [_ [? Hno]]
        | apply (accepted_not "characters_hydration_check") in Hno as [_ [? Hno]]
        | apply (accepted_not "characters_tiredness_check") in Hno as [_ [? Hno]]
        | apply (accepted_not "characters_alertness_check") in Hno as [_ [? Hno]] ];
        congruence. }
    rewrite Hc in Hup.
    destruct (no_character_fields _) eqn:Hno.
    + rewrite (bind_returned _ _ _ _ _ Hup).
      unfold reply, ret, succeeded, state_after; simpl. split; [eauto|].
      assert (state_set args c = c) as ->.
      { unfold no_character_fields in Hno. simpl in Hno.
        unfold state_set, stored.
        destruct (arg_nutrition args), (arg_hydration args),
          (arg_tiredness args), (arg_alertness args), (arg_damage args);
          try done.
        by destruct c. }
      rewrite insert_id by done. by destruct s.
    + rewrite (bind_returned _ _ _ _ _ Hup).
      unfold reply, ret, succeeded, state_after; simpl. eauto.
Qed.

(** C2, as the code has it: on an existing character,
    [character_update_state] hands what is given to the [UPDATE].  When
    every percentage given, rounded to hundredths, lies in [0, 100], the
    call succeeds: each field given is stored, a percentage rounded to
    hundredths, and every other field of the row and the other rows stay
    as they were; [alertness] changes only when it is given, also when
    [tiredness] becomes 100.  When a percentage given lies outside, the
    database refuses the row: the call fails and changes nothing; no
    value is clamped. *)
Theorem character_update_state_stores_as_given (s : Store) (args : Args)
    (c : Character) :
  characters s !! arg_character_id args = Some c ->
  let r := character_update_state args s in
  if accepted (arg_nutrition args) && accepted (arg_hydration args)
     && accepted (arg_tiredness args) && accepted (arg_alertness args)
  then
    succeeded r
    /\ state_after r
       = with_characters
           (<[arg_character_id args := state_set args c]> (characters s)) s
    /\ match arg_nutrition args with
       | Some q => hundredths (nutrition (state_set args c)) = round_hundredths q
       | None => nutrition (state_set args c) = nutrition c
       end
    /\ match arg_hydration args with
       | Some q => hundredths (hydration (state_set args c)) = round_hundredths q
       | None => hydration (state_set args c) = hydration c
       end
    /\ match arg_tiredness args with
       | Some q => hundredths (tiredness (state_set args c)) = round_hundredths q
       | None => tiredness (state_set args c) = tiredness c
       end
    /\ match arg_alertness args with
       | Some q => hundredths (alertness (state_set args c)) = round_hundredths q
       | None => alertness (state_set args c) = alertness c
       end
    /\ percentages (state_set args c)
  else
    (exists e, failed_with r e /\ kind_of e = OtherError)
    /\ state_after r = s.
Proof.
  intros Hc. cbv zeta.
  pose proof (character_update_state_run s args c Hc) as Hrun.
  cbv zeta in Hrun.
  destruct (accepted (arg_nutrition args) && accepted (arg_hydration args)
            && accepted (arg_tiredness args) && accepted (arg_alertness args))
    eqn:Hall; [|done].
  destruct Hrun as [Hok Hstate]. split; [done|]. split; [done|].
  apply andb_true_iff in Hall as [Hall Ha].
  apply andb_true_iff in Hall as [Hall Ht].
  apply andb_true_iff in Hall as [Hn Hh].
  assert (forall (old : Percent) (o : option Q),
            accepted o = true ->
            match o with
            | Some q => hundredths (stored old o) = round_hundredths q
            | None => stored old o = old
            end) as Hstored.
  { intros old [q|] Hacc; [|done]. unfold stored, accepted in *; simpl.
    unfold as_percent in *.
    pose proof (fixed_spec 0 10000 (round_hundredths q)) as Hs.
    by destruct (fixed 0 10000 (round_hundredths q)). }
  repeat split; try (by apply Hstored); apply percent_bounds.
Qed.

(** C2 fails as stated: setting [tiredness] to 100 leaves [alertness] at
    80; a [nutrition] of 150 is refused, and the stored 50 stays, where
    the clamped value would be 100; and a [nutrition] of 33.337 is stored
    as 33.34. *)
Lemma character_update_state_no_forced_sleep :
  succeeded (character_update_state tire_out store_two_worlds)
  /\ (tiredness
        <$> characters (state_after (character_update_state tire_out store_two_worlds))
            !! 20) = Some (percent 100)
  /\ (alertness
        <$> characters (state_after (character_update_state tire_out store_two_worlds))
            !! 20) = Some (percent 80)
  /\ clamp 150 = 100%Q
  /\ failed_with (character_update_state overfeed store_two_worlds)
       (CheckViolation "characters" "characters_nutrition_check")
  /\ (nutrition
        <$> characters (state_after (character_update_state overfeed store_two_worlds))
            !! 20) = Some (percent 50)
  /\ (nutrition
        <$> characters
              (state_after
                 (character_update_state
                    (state_args 20 (Some (33337 # 1000)) None None None)
                    store_two_worlds))
            !! 20) = Some (percent (3334 # 100)).
Proof.
  split; [by eexists|]. split; [by vm_compute|]. split; [by vm_compute|].
  split; [by vm_compute|]. split; [by vm_compute|].
  split; by vm_compute.
Qed.

Lemma character_update_state_stores_as_given_witness :
  succeeded (character_update_state tire_out store_two_worlds)
  /\ hundredths
       (tiredness (state_set tire_out (sample_character "minor" [] (Some 10) None)))
     = 10000
  /\ alertness (state_set tire_out (sample_character "minor" [] (Some 10) None))
     = alertness (sample_character "minor" [] (Some 10) None).
Proof.
  pose proof (character_update_state_stores_as_given store_two_worlds tire_out
                (sample_character "minor" [] (Some 10) None) eq_refl) as H.
  cbv zeta in H.
  change (accepted (arg_nutrition tire_out) && accepted (arg_hydration tire_out)
          && accepted (arg_tiredness tire_out) && accepted (arg_alertness tire_out))
    with true in H.
  cbv beta iota in H.
  destruct H as (Hok & _ & _ & _ & Ht & Ha & _).
  split; [exact Hok|]. split; [exact Ht | exact Ha].
Defined.

(** ** Sessions and ownership *)

Lemma claimCharacter_run (player : string) (character now : Z)
    (random : string) (s : Store) :
  claimCharacter player character now random s
  = match characters s !! character with
    | None => (s, Thrown NoCharacterToClaim)
    | Some row =>
        if truthy_string (owner_id row)
           && negb (bool_decide (owner_id row = Some player))
        then (s, Thrown CharacterAlreadyClaimed)
        else
          (with_sessions
             (<[generateSessionToken now random
                := {| playerId := player; characterId := character;
                      createdAt := now; lastActivity := now |}]> (sessions s))
             (with_characters
                (<[character
                   := set_fields
                        {| data_name := None; data_nutrition := None;
                           data_hydration := None; data_tiredness := None;
                           data_alertness := None;
                           data_current_area_id := None;
                           data_owner_id := Some (Some player);
                           data_character_class := None;
                           data_memory := None; data_damage := None |} row]>
                   (characters s)) s),
           Returned (generateSessionToken now random))
    end.
Proof.
  unfold claimCharacter.
  rewrite (bind_returned _ _ _ _ _ (Character_findById_run _ s)).
  destruct (characters s !! character) as [row|] eqn:Hrow; [|done].
  destruct (truthy_string _ && _); [done|].
  match goal with
  | |- context [bind (Character_update ?id ?data) _ ?s0] =>
      pose proof (Character_update_run id data s0 eq_refl eq_refl eq_refl) as Hup
  end.
  rewrite Hrow in Hup. by rewrite (bind_returned _ _ _ _ _ Hup).
Qed.

Lemma truthy_string_owner (p : string) : p <> "" -> truthy_string (Some p) = true.
Proof.
  intros Hp. simpl. destruct (String.eqb_spec p ""); [done | done].
Qed.










(** ** The transport consults no session *)

Lemma oblivious_ret {A} (a : A) : oblivious (ret a).
Proof. by intros table s. Qed.

Lemma oblivious_throw {A} (e : Error) : oblivious (@throw A e).
Proof. by intros table s. Qed.

Lemma oblivious_bind {A B} (c : M A) (k : A -> M B) :
  oblivious c -> (forall a, oblivious (k a)) -> oblivious (bind c k).
Proof.
  intros Hc Hk table s. unfold bind. rewrite Hc.
  destruct (c s) as [s1 [a|e]]; simpl; [apply Hk | done].
Qed.

Lemma oblivious_gets {A} (f : Store -> A) :
  (forall table s, f (with_sessions table s) = f s) -> oblivious (gets f).
Proof. intros Hf table s. unfold gets; simpl. by rewrite Hf. Qed.

Lemma oblivious_set_characters (f : gmap Z Character -> gmap Z Character) :
  oblivious (set_characters f).
Proof. by intros table s. Qed.

Lemma oblivious_set_areas (f : gmap Z Area -> gmap Z Area) :
  oblivious (set_areas f).
Proof. by intros table s. Qed.

Lemma oblivious_set_items (f : gmap Z Item -> gmap Z Item) :
  oblivious (set_items f).
Proof. by intros table s. Qed.

Lemma oblivious_next_item_id : oblivious next_item_id.
Proof. by intros table s. Qed.

Lemma oblivious_record_firing (f : Firing) : oblivious (record_firing f).
Proof. by intros table s. Qed.

Create HintDb oblivious.

#[local] Hint Resolve oblivious_ret oblivious_throw oblivious_set_characters
  oblivious_set_areas oblivious_set_items oblivious_next_item_id
  oblivious_record_firing : oblivious.

(** Splits a computation along its binds, its matches and its tests. *)
Ltac oblivious_step :=
  first
    [ solve [eauto with oblivious]
    | apply oblivious_gets; reflexivity
    | apply oblivious_bind; [|intros ?]
    | match goal with
      | |- oblivious (match ?x with _ => _ end) => destruct x
      | |- oblivious (if ?x then _ else _) => destruct x
      | |- oblivious (deref ?x _) => destruct x; simpl
      end ].

Ltac oblivious_tac := repeat oblivious_step.

Lemma oblivious_Character_findById (id : Z) : oblivious (Character_findById id).
Proof. unfold Character_findById. oblivious_tac. Qed.

Lemma oblivious_Character_update (id : Z) (data : CharacterData) :
  oblivious (Character_update id data).
Proof. unfold Character_update. oblivious_tac. Qed.

Lemma oblivious_Character_addMemory (id : Z) (act res : string) (cap : nat)
    (now : string) :
  oblivious (Character_addMemory id act res cap now).
Proof.
  unfold Character_addMemory.
  apply oblivious_bind; [apply oblivious_Character_findById|].
  intros [c|]; [apply oblivious_Character_update | apply oblivious_ret].
Qed.

Lemma oblivious_Area_findById (id : Z) : oblivious (Area_findById id).
Proof. unfold Area_findById. oblivious_tac. Qed.

Lemma oblivious_Area_update (id : Z) (data : AreaData) :
  oblivious (Area_update id data).
Proof. unfold Area_update. oblivious_tac. Qed.

Lemma oblivious_Item_findById (id : Z) : oblivious (Item_findById id).
Proof. unfold Item_findById. oblivious_tac. Qed.

Lemma oblivious_Item_update (id : Z) (data : ItemData) :
  oblivious (Item_update id data).
Proof. unfold Item_update. oblivious_tac. Qed.

Lemma oblivious_Item_create (world : Z) (name : option string)
    (descr props : string) (area holder : option Z)
    (location : option string) :
  oblivious (Item_create world name descr props area holder location).
Proof. unfold Item_create. oblivious_tac. Qed.

Lemma oblivious_Item_delete (id : Z) : oblivious (Item_delete id).
Proof. unfold Item_delete. oblivious_tac. Qed.

Lemma oblivious_Character_getInventory (id : Z) :
  oblivious (Character_getInventory id).
Proof. unfold Character_getInventory. oblivious_tac. Qed.

Lemma oblivious_Character_findAwake (world : Z) :
  oblivious (Character_findAwake world).
Proof. unfold Character_findAwake. oblivious_tac. Qed.

#[local] Hint Resolve oblivious_Character_findById oblivious_Character_update
  oblivious_Character_addMemory oblivious_Area_findById oblivious_Area_update
  oblivious_Item_findById oblivious_Item_update oblivious_Item_create
  oblivious_Item_delete oblivious_Character_getInventory
  oblivious_Character_findAwake : oblivious.

Lemma oblivious_executeReaction (areaId : Z) (area : option Area)
    (u : AreaData) (reaction : Reaction) :
  oblivious (executeReaction areaId area u reaction).
Proof. unfold executeReaction. oblivious_tac. Qed.

Lemma oblivious_executeReactions_loop (areaId : Z) (area : option Area)
    (reactions : list Reaction) :
  forall u, oblivious (executeReactions_loop areaId area u reactions).
Proof.
  induction reactions as [|reaction rest IH]; intros u; simpl.
  - apply oblivious_ret.
  - apply oblivious_bind; [apply oblivious_executeReaction | apply IH].
Qed.

Lemma oblivious_executeReactions (areaId : Z) (reactions : list Reaction)
    (eventData : EventData) :
  oblivious (executeReactions areaId reactions eventData).
Proof.
  unfold executeReactions. destruct reactions; [apply oblivious_ret|].
  apply oblivious_bind; [apply oblivious_Area_findById|]. intros area.
  apply oblivious_bind; [apply oblivious_executeReactions_loop|]. intros u.
  oblivious_tac.
Qed.

Lemma oblivious_fire (areaId : Z) (eventType : string) (eventData : EventData)
    (all : list Trigger) (p : nat * Trigger) :
  oblivious (fire areaId eventType eventData all p).
Proof.
  unfold fire.
  apply oblivious_bind; [apply oblivious_record_firing|]. intros _.
  apply oblivious_bind; [apply oblivious_executeReactions|]. intros _.
  oblivious_tac.
Qed.

Lemma oblivious_for_each {A} (l : list A) (body : A -> M unit) :
  (forall x, oblivious (body x)) -> oblivious (for_each l body).
Proof.
  intros Hbody. induction l as [|x rest IH]; simpl.
  - apply oblivious_ret.
  - apply oblivious_bind; [apply Hbody | intros _; apply IH].
Qed.

Lemma oblivious_executeTriggers (areaId : Z) (eventType : string)
    (eventData : EventData) :
  oblivious (executeTriggers areaId eventType eventData).
Proof.
  unfold executeTriggers.
  apply oblivious_bind; [apply oblivious_Area_findById|].
  intros [area|]; [|apply oblivious_ret].
  destruct (triggers area); [apply oblivious_ret|].
  destruct (scan _ _ _); [|apply oblivious_throw].
  apply oblivious_for_each. intros p. apply oblivious_fire.
Qed.

#[local] Hint Resolve oblivious_executeTriggers : oblivious.








(** * Further properties of the session layer *)

Lemma validateSession_run (token : string) (now : Z) (s : Store) :
  validateSession token now s
  = match sessions s !! token with
    | None => (s, Returned None)
    | Some session =>
        let session' :=
          {| playerId := playerId session; characterId := characterId session;
             createdAt := createdAt session; lastActivity := now |} in
        if Z.ltb MAX_AGE (now - createdAt session)
        then (with_sessions (delete token (sessions s)) s, Returned None)
        else (with_sessions (<[token := session']> (sessions s)) s,
              Returned (Some session'))
    end.
Proof.
  unfold validateSession, bind, gets, ret, set_sessions; simpl.
  destruct (sessions s !! token) as [session|]; [|done]. simpl.
  destruct (Z.ltb MAX_AGE (now - createdAt session)); [|done].
  unfold with_sessions; simpl. by rewrite delete_insert_eq.
Qed.

Lemma releaseCharacter_run (character : Z) (s : Store) :
  releaseCharacter character s
  = (with_sessions
       (filter (fun p => characterId (snd p) <> character) (sessions s))
       match characters s !! character with
       | Some row =>
           with_characters (<[character := released row]> (characters s)) s
       | None => s
       end,
     Returned tt).
Proof.
  unfold releaseCharacter.
  match goal with
  | |- context [bind (Character_update ?id ?data) _ ?s0] =>
      pose proof (Character_update_run id data s0 eq_refl eq_refl eq_refl) as Hup
  end.
  by destruct (characters s !! character) as [row|];
    rewrite (bind_returned _ _ _ _ _ Hup).
Qed.

Lemma canControlCharacter_run (player : string) (character : Z) (s : Store) :
  canControlCharacter player character s
  = (s, Returned match characters s !! character with
                 | Some row => bool_decide (owner_id row = Some player)
                 | None => false
                 end).
Proof.
  unfold canControlCharacter.
  rewrite (bind_returned _ _ _ _ _ (Character_findById_run _ s)).
  by destruct (characters s !! character).
Qed.

(** X1: a session ends 24 hours after it was created, whatever its
    activity: once [now - createdAt] exceeds [MAX_AGE], a validation
    answers [null] and deletes the token, also right after an earlier
    validation has refreshed [lastActivity]. *)
Theorem session_expires_by_creation (s : Store) (token : string)
    (session : Session) (earlier now : Z) :
  sessions s !! token = Some session ->
  MAX_AGE < now - createdAt session ->
  let s1 := state_after (validateSession token earlier s) in
  let r := validateSession token now s1 in
  snd r = Returned None
  /\ sessions (state_after r) !! token = None
  /\ characters (state_after r) = characters s.
Proof.
  intros Hs Hage s1 r. subst r s1. rewrite (validateSession_run token earlier).
  rewrite Hs. cbv zeta.
  destruct (Z.ltb MAX_AGE (earlier - createdAt session)); unfold state_after;
    simpl; rewrite validateSession_run; simpl.
  - rewrite lookup_delete_eq. simpl. split; [done|].
    by rewrite lookup_delete_eq.
  - rewrite lookup_insert_eq. simpl.
    destruct (Z.ltb_spec MAX_AGE (now - createdAt session)); [|lia].
    simpl. split; [done|]. by rewrite lookup_delete_eq.
Qed.

(** X2: the token a successful claim returns validates to the session of
    the claiming player and the claimed character for 24 hours from the
    claim, and to nothing afterwards. *)
Theorem claimed_session_validates (s : Store) (player : string)
    (character created now : Z) (random token : string) :
  snd (claimCharacter player character created random s) = Returned token ->
  snd (validateSession token now
         (state_after (claimCharacter player character created random s)))
  = Returned
      (if Z.ltb MAX_AGE (now - created) then None
       else Some {| playerId := player; characterId := character;
                    createdAt := created; lastActivity := now |}).
Proof.
  rewrite claimCharacter_run.
  destruct (characters s !! character) as [row|]; [|done].
  destruct (truthy_string (owner_id row) && _); [done|].
  unfold state_after; simpl. intros [= <-].
  rewrite validateSession_run. simpl. rewrite lookup_insert_eq. simpl.
  by destruct (Z.ltb MAX_AGE (now - created)).
Qed.


(** X3: [releaseCharacter] leaves the character without owner and
    without session, and keeps the sessions of the other characters. *)
Theorem releaseCharacter_clears (s : Store) (character : Z) :
  let s1 := state_after (releaseCharacter character s) in
  succeeded (releaseCharacter character s)
  /\ (characters s1 !! character = released <$> characters s !! character)
  /\ (forall row, characters s1 !! character = Some row -> owner_id row = None)
  /\ sessions_of character s1 = ∅
  /\ (forall token session,
        sessions s !! token = Some session ->
        characterId session <> character ->
        sessions s1 !! token = Some session).
Proof.
  simpl. rewrite releaseCharacter_run. unfold state_after, succeeded; simpl.
  assert (forall s0 : Store,
            sessions_of character
              (with_sessions
                 (filter (fun p => characterId (snd p) <> character) (sessions s))
                 s0) = ∅) as Hnone.
  { intros s0. unfold sessions_of; simpl. apply map_eq. intros token.
    rewrite lookup_empty. apply map_lookup_filter_None. right.
    intros session Hs. apply map_lookup_filter_Some in Hs as [_ Hne].
    simpl in *. done. }
  split; [eauto|].
  assert ((match characters s !! character with
           | Some row =>
               with_characters (<[character := released row]> (characters s)) s
           | None => s
           end).(characters) !! character
          = released <$> characters s !! character) as Hrow.
  { destruct (characters s !! character) as [row|] eqn:Hc; simpl.
    - by rewrite lookup_insert_eq.
    - by rewrite Hc. }
  split; [exact Hrow|]. split.
  - intros row. rewrite Hrow.
    destruct (characters s !! character) as [row0|]; [|done].
    by intros [= <-].
  - split; [apply Hnone|].
    intros token session Hs Hne. by apply map_lookup_filter_Some.
Qed.

Lemma session_expires_by_creation_witness :
  snd (validateSession first_token two_days_later
         (state_after (validateSession first_token (1761480000000 + MAX_AGE)
                         (state_after first_claim))))
  = Returned None.
Proof.
  apply (session_expires_by_creation (state_after first_claim) first_token
           first_session (1761480000000 + MAX_AGE) two_days_later).
  - reflexivity.
  - reflexivity.
Defined.

Lemma claimed_session_validates_witness :
  snd (validateSession first_token (1761480000000 + 1000) (state_after first_claim))
  = Returned (Some {| playerId := "alice"; characterId := 20;
                      createdAt := 1761480000000;
                      lastActivity := 1761480000000 + 1000 |}).
Proof.
  apply (claimed_session_validates store_two_worlds "alice" 20 1761480000000
           (1761480000000 + 1000) "k3j9xq2mzt" first_token).
  reflexivity.
Defined.

Lemma releaseCharacter_clears_witness :
  owner_id (released (owned_by "alice" (sample_character "minor" [] (Some 10) None)))
  = None
  /\ sessions_of 20 (state_after (releaseCharacter 20 (state_after first_claim))) = ∅.
Proof.
  destruct (releaseCharacter_clears (state_after first_claim) 20)
    as (_ & _ & Hrow & Hnone & _).
  split; [|exact Hnone].
  apply (Hrow (released (owned_by "alice"
                           (sample_character "minor" [] (Some 10) None)))).
  reflexivity.
Defined.



(** X5: losing a session does not free the character.  After the sweep
    of the expired sessions, after [endSession] and after a validation
    (which deletes an expired session), the owner still controls the
    character and the claim of another player still fails: only
    [releaseCharacter] clears [owner_id]. *)
Theorem lost_session_keeps_owner (s : Store) (owner other : string)
    (character now : Z) (random token : string) (row : Character) :
  characters s !! character = Some row ->
  owner_id row = Some owner ->
  owner <> "" ->
  other <> owner ->
  forall s1 : Store,
    s1 = state_after (cleanupSessions now s)
    \/ s1 = state_after (endSession token s)
    \/ s1 = state_after (validateSession token now s) ->
    snd (canControlCharacter owner character s1) = Returned true
    /\ claimCharacter other character now random s1
       = (s1, Thrown CharacterAlreadyClaimed).
Proof.
  intros Hrow Howner Hnamed Hother s1 Hs1.
  assert (characters s1 = characters s) as Hc.
  { destruct Hs1 as [->|[->| ->]]; [done | done |].
    rewrite validateSession_run.
    destruct (sessions s !! token) as [session|]; [|done]. cbv zeta.
    by destruct (Z.ltb MAX_AGE (now - createdAt session)). }
  split.
  - rewrite canControlCharacter_run, Hc, Hrow. simpl.
    by rewrite bool_decide_eq_true_2.
  - rewrite claimCharacter_run, Hc, Hrow, Howner.
    rewrite (truthy_string_owner _ Hnamed).
    by rewrite bool_decide_eq_false_2 by congruence.
Qed.

Lemma lost_session_keeps_owner_witness :
  snd (canControlCharacter "alice" 20
         (state_after (cleanupSessions two_days_later (state_after first_claim))))
  = Returned true
  /\ sessions (state_after (cleanupSessions two_days_later (state_after first_claim)))
     = ∅.
Proof.
  split; [|by vm_compute].
  apply (lost_session_keeps_owner (state_after first_claim) "alice" "bob" 20
           two_days_later "p0q8zr4ncv" first_token
           (owned_by "alice" (sample_character "minor" [] (Some 10) None))).
  - reflexivity.
  - reflexivity.
  - intros Heq; discriminate Heq.
  - intros Heq; discriminate Heq.
  - left. reflexivity.
Defined.



(** * The physiology tick *)

Lemma quotient_nonneg (s d : Q) : (0 <= s -> 0 < d -> 0 <= s / d)%Q.
Proof. intros Hs Hd. apply Qle_shift_div_l; [done|]. lra. Qed.

Lemma less_spec (a b : Q) : less a b = true <-> (a < b)%Q.
Proof.
  unfold less. rewrite negb_true_iff. split.
  - intros Hle. apply Qnot_le_lt. intros Hba.
    apply Qle_bool_iff in Hba. congruence.
  - intros Hlt. destruct (Qle_bool b a) eqn:Hle; [|done].
    apply Qle_bool_iff in Hle. by apply Qlt_not_le in Hlt.
Qed.

Lemma less_false (a b : Q) : less a b = false <-> (b <= a)%Q.
Proof.
  unfold less. rewrite negb_false_iff. apply Qle_bool_iff.
Qed.

(** What a percentage column holds of what it accepts. *)
Lemma stored_accepted (old : Percent) (o : option Q) :
  accepted o = true ->
  match o with
  | Some q => hundredths (stored old o) = round_hundredths q
  | None => stored old o = old
  end.
Proof.
  destruct o as [q|]; [|done]. unfold stored, accepted; simpl.
  unfold as_percent.
  pose proof (fixed_spec 0 10000 (round_hundredths q)) as Hs.
  by destruct (fixed 0 10000 (round_hundredths q)).
Qed.

Lemma accepted_percentage (q : Q) :
  (0 <= q)%Q -> (q <= 100)%Q -> accepted (Some q) = true.
Proof.
  intros H0 H100. unfold accepted.
  by destruct (as_percent_in q H0 H100) as (p & -> & _).
Qed.

(** An [UPDATE] of the state of a character with percentages that the
    columns accept writes the row. *)
Lemma Character_update_accepted (id : Z) (data : CharacterData) (s : Store)
    (c : Character) :
  characters s !! id = Some c ->
  no_character_fields data = false ->
  data_name data = None ->
  data_character_class data = None ->
  data_current_area_id data = None ->
  accepted (data_nutrition data) = true ->
  accepted (data_hydration data) = true ->
  accepted (data_tiredness data) = true ->
  accepted (data_alertness data) = true ->
  Character_update id data s
  = (with_characters (<[id := set_fields data c]> (characters s)) s,
     Returned (Some (set_fields data c))).
Proof.
  intros Hc Hsome Hname Hclass Harea Hn Hh Ht Ha.
  rewrite Character_update_eq, Hsome, Hc.
  unfold character_misfit, character_violation.
  rewrite Hname, Hclass, Harea. simpl.
  destruct (accepted_fits "characters_nutrition_check" _ Hn) as [-> ->].
  destruct (accepted_fits "characters_hydration_check" _ Hh) as [-> ->].
  destruct (accepted_fits "characters_tiredness_check" _ Ht) as [-> ->].
  by destruct (accepted_fits "characters_alertness_check" _ Ha) as [-> ->].
Qed.

Lemma Qmin_100_l (q : Q) : (100 <= q)%Q -> Qmin 100 q = 100%Q.
Proof.
  intros Hq. unfold Qmin, GenericMinMax.gmin.
  destruct (100 ?= q)%Q eqn:Hcmp; first [done | apply Qgt_alt in Hcmp; lra].
Qed.

Lemma Qmin_100_r (q : Q) : (q < 100)%Q -> Qmin 100 q = q.
Proof.
  intros Hq. unfold Qmin, GenericMinMax.gmin.
  destruct (100 ?= q)%Q eqn:Hcmp;
    first [done | apply Qeq_alt in Hcmp; lra | apply Qlt_alt in Hcmp; lra].
Qed.

(** The row that [updatePhysicalState] stores when no time runs
    backwards: each percentage is the computed one, rounded to
    hundredths. *)
Lemma updatePhysicalState_row (s : Store) (id : Z) (seconds : Q) (c : Character) :
  characters s !! id = Some c ->
  (0 <= seconds)%Q ->
  exists c',
    updatePhysicalState id seconds s
    = (with_characters (<[id := c']> (characters s)) s, Returned tt)
    /\ hundredths (nutrition c')
       = round_hundredths (Qmax 0 (nutrition c - (seconds / 900) * 1))
    /\ hundredths (hydration c')
       = round_hundredths (Qmax 0 (hydration c - (seconds / 600) * 1))
    /\ hundredths (tiredness c')
       = round_hundredths
           (if less (alertness c) 20
            then Qmax 0 (tiredness c - (seconds / 60) * 5)
            else Qmin 100 (tiredness c + (seconds / 600) * 1))
    /\ (if less (alertness c) 20
        then hundredths (alertness c')
             = round_hundredths (Qmin 100 (alertness c + (seconds / 60) * 5))
        else if Qle_bool 100 (Qmin 100 (tiredness c + (seconds / 600) * 1))
             then hundredths (alertness c') = 0
             else alertness c' = alertness c)
    /\ damage c'
       = List.filter (fun d => less 0 (severity d))
           (map (heal seconds) (damage c))
    /\ owner_id c' = owner_id c
    /\ character_world_id c' = character_world_id c
    /\ character_id c' = character_id c
    /\ memory c' = memory c
    /\ character_current_area_id c' = character_current_area_id c.
Proof.
  intros Hc Hs. unfold updatePhysicalState.
  rewrite (bind_returned _ _ _ _ _ (Character_findById_run id s)), Hc.
  cbv zeta.
  pose proof (percent_bounds (nutrition c)) as [Hn0 Hn1].
  pose proof (percent_bounds (hydration c)) as [Hh0 Hh1].
  pose proof (percent_bounds (tiredness c)) as [Ht0 Ht1].
  pose proof (percent_bounds (alertness c)) as [Ha0 Ha1].
  pose proof (quotient_nonneg seconds 900 Hs eq_refl).
  pose proof (quotient_nonneg seconds 600 Hs eq_refl).
  pose proof (quotient_nonneg seconds 60 Hs eq_refl).
  destruct (less (alertness c) 20);
    [|destruct (Qle_bool 100 (Qmin 100 (tiredness c + seconds / 600 * 1)))];
    match goal with
    | |- context [bind (Character_update ?i ?data) _ ?s0] =>
        pose proof (Character_update_accepted i data s0 c Hc eq_refl eq_refl
                      eq_refl eq_refl) as Hup;
        pose proof (stored_accepted (nutrition c) (data_nutrition data)) as Sn;
        pose proof (stored_accepted (hydration c) (data_hydration data)) as Sh;
        pose proof (stored_accepted (tiredness c) (data_tiredness data)) as St;
        pose proof (stored_accepted (alertness c) (data_alertness data)) as Sa
    end;
    cbn [data_nutrition data_hydration data_tiredness data_alertness]
      in Hup, Sn, Sh, St, Sa;
    repeat match goal with
           | H : accepted ?o = true -> _ |- _ =>
               let Hacc := fresh "Hacc" in
               assert (accepted o = true) as Hacc
                 by first
                      [ reflexivity
                      | apply accepted_percentage;
                        first [ apply Q.le_max_l | apply Q.le_min_l
                              | apply Q.max_lub; lra | apply Q.min_glb; lra ] ];
               specialize (H Hacc); clear Hacc
           end;
    rewrite (bind_returned _ _ _ _ _ Hup);
    (eexists; split; [reflexivity|]);
    cbn [nutrition hydration tiredness alertness damage owner_id
         character_world_id character_id memory character_current_area_id
         set_fields data_nutrition data_hydration data_tiredness
         data_alertness data_damage data_owner_id data_memory
         data_current_area_id];
    (split; [exact Sn|]); (split; [exact Sh|]); (split; [exact St|]);
    (split; [exact Sa|]); (split; [by destruct (damage c)|]); done.
Qed.



Lemma elem_of_selected {A} (P : Z * A -> Prop) `{!forall p, Decision (P p)}
    (m : gmap Z A) (x : A) :
  x ∈ map snd (map_to_list (filter P m))
  <-> exists k, m !! k = Some x /\ P (k, x).
Proof.
  rewrite list_elem_of_fmap. split.
  - intros ([k y] & -> & Hin). apply elem_of_map_to_list in Hin.
    apply map_lookup_filter_Some in Hin as [Hm HP]. eauto.
  - intros (k & Hm & HP). exists (k, x). split; [done|].
    apply elem_of_map_to_list. by apply map_lookup_filter_Some.
Qed.

(** The rows the scheduler processes: those of the world, without owner
    and awake. *)
Lemma elem_of_findAIControllable (world : Z) (s : Store) (row : Character) :
  row ∈ rows_of (Character_findAIControllable world s)
  <-> exists k, characters s !! k = Some row
                /\ character_world_id row = world
                /\ owner_id row = None
                /\ awake row.
Proof.
  unfold rows_of, Character_findAIControllable, bind, gets, ret; simpl.
  rewrite merge_sort_Permutation, elem_of_selected. simpl.
  unfold awake. by setoid_rewrite Qle_bool_iff.
Qed.









(** * Dropping an item, and the round trip *)

Lemma silent_same_areas (s s1 : Store) (areaId : Z) (eventType : string)
    (eventData : EventData) :
  areas s1 = areas s ->
  silent s areaId eventType eventData ->
  silent s1 areaId eventType eventData.
Proof. unfold silent. by intros ->. Qed.

Lemma matching_same_areas (s s1 : Store) (areaId : Z) (eventType : string)
    (eventData : EventData) :
  areas s1 = areas s ->
  matching s1 areaId eventType eventData = matching s areaId eventType eventData.
Proof. unfold matching. by intros ->. Qed.

(** The row an append to the memory stores: its last entry is the new
    one, and nothing else of the row changes. *)
Lemma Character_addMemory_row (s : Store) (id : Z) (act res now : string)
    (cap : nat) (c : Character) :
  characters s !! id = Some c ->
  (1 <= cap)%nat ->
  exists c',
    Character_addMemory id act res cap now s
    = (with_characters (<[id := c']> (characters s)) s, Returned (Some c'))
    /\ last (memory c')
       = Some {| action := act; result := res; timestamp := now |}
    /\ character_id c' = character_id c
    /\ character_world_id c' = character_world_id c
    /\ character_name c' = character_name c
    /\ character_class c' = character_class c
    /\ character_current_area_id c' = character_current_area_id c
    /\ owner_id c' = owner_id c
    /\ alertness c' = alertness c.
Proof.
  intros Hc Hcap. unfold Character_addMemory.
  rewrite (bind_returned _ _ _ _ _ (Character_findById_run id s)), Hc.
  rewrite Character_update_eq, Hc. simpl.
  eexists. split; [reflexivity|]. simpl. split; [|done].
  destruct (Nat.ltb_spec cap (length (memory c ++ [{| action := act;
              result := res; timestamp := now |}]))) as [Hlt|Hge].
  - rewrite length_app in Hlt. simpl in Hlt.
    destruct (memory c) as [|e l]; simpl in *; [lia|].
    by rewrite last_snoc.
  - by rewrite last_snoc.
Qed.

Lemma memory_cap_positive (c : Character) : (1 <= memory_cap c)%nat.
Proof. unfold memory_cap. destruct (String.eqb _ _); lia. Qed.

Lemma truthy_number_area (o : option Z) :
  truthy_number o = true -> o = Some (default 0 o).
Proof. by destruct o. Qed.

(** The drop once its tests have passed and the area is there: the item
    is laid down, then the triggers run, and the memory is written when
    they return. *)
Lemma item_drop_run (s : Store) (args : Args) (now : string)
    (c : Character) (i : Item) (area : Z) (a : Area) :
  characters s !! arg_character_id args = Some c ->
  items s !! arg_item_id args = Some i ->
  differs (held_by_character_id i) (Some (arg_character_id args)) = false ->
  truthy_number (character_current_area_id c) = true ->
  character_current_area_id c = Some area ->
  areas s !! area = Some a ->
  let s1 := laid_down (arg_item_id args) area i s in
  let run :=
    executeTriggers area "item_dropped"
      (item_event (arg_character_id args) (arg_item_id args)) s1 in
  match snd run with
  | Returned _ =>
      exists c',
        item_drop args now s
        = (with_characters
             (<[arg_character_id args := c']> (characters (fst run)))
             (fst run),
           Returned {| content := Text (character_name c ++ " dropped "
                                        ++ item_name i);
                       isError := false |})
        /\ last (memory c')
           = Some {| action := "dropped " ++ item_name i;
                     result := "item left in area"; timestamp := now |}
  | Thrown e => item_drop args now s = (fst run, Thrown e)
  end.
Proof.
  intros Hc Hi Hheld Htruthy Harea Ha. cbv zeta. unfold item_drop.
  rewrite (bind_returned _ _ _ _ _ (Character_findById_run _ s)), Hc.
  rewrite (bind_returned _ _ _ _ _ (Item_findById_run _ s)), Hi, Hheld, Htruthy.
  rewrite Harea. simpl.
  pose proof (Item_moveToArea_run (arg_item_id args) area s i Hi) as Hmove.
  rewrite Ha in Hmove. rewrite (bind_returned _ _ _ _ _ Hmove).
  fold (item_event (arg_character_id args) (arg_item_id args)).
  fold (laid_down (arg_item_id args) area i s).
  destruct (executeTriggers_frame area "item_dropped"
              (item_event (arg_character_id args) (arg_item_id args))
              (laid_down (arg_item_id args) area i s))
    as (s2 & o & n & Hrun & (Hcs & _) & _).
  rewrite Hrun. simpl. destruct o as [[]|e].
  - rewrite (bind_returned _ _ _ _ _ Hrun).
    assert (characters s2 !! arg_character_id args = Some c) as Hc2
      by (by rewrite Hcs).
    destruct (Character_addMemory_row s2 (arg_character_id args)
                ("dropped " ++ item_name i) "item left in area" now
                (memory_cap c) c Hc2 (memory_cap_positive c))
      as (c' & Hmem & Hlast & _).
    rewrite (bind_returned _ _ _ _ _ Hmem).
    exists c'. split; [done|]. exact Hlast.
  - by rewrite (bind_thrown _ _ _ _ _ Hrun).
Qed.

(** X12: [item_drop] fails with "not found" for a missing character or
    item, with "not holding" when the item is not held by the character,
    and with "in no area" when the character has no area; the database
    refuses an area that does not exist; these failures change nothing.
    Otherwise the item is laid down in the character's area with its
    hold fields cleared, and the triggers of the area run for
    [item_dropped]: when they return the call succeeds and the
    character's memory ends with the drop; when they throw the call
    fails with their error, the item laid down. *)
Theorem item_drop_cases (s : Store) (args : Args) (now : string) :
  let r := item_drop args now s in
  match characters s !! arg_character_id args, items s !! arg_item_id args with
  | None, _ =>
      failed_with r (CharacterNotFound (arg_character_id args))
      /\ state_after r = s
  | Some _, None =>
      failed_with r (ItemNotFound (arg_item_id args)) /\ state_after r = s
  | Some c, Some i =>
      if differs (held_by_character_id i) (Some (arg_character_id args))
      then failed_with r NotHoldingItem /\ state_after r = s
      else if negb (truthy_number (character_current_area_id c))
      then failed_with r CharacterNotInAnyArea /\ state_after r = s
      else
        let area := default 0 (character_current_area_id c) in
        match areas s !! area with
        | None => failed_with r no_area_for_item /\ state_after r = s
        | Some _ =>
            let s1 := laid_down (arg_item_id args) area i s in
            let run :=
              executeTriggers area "item_dropped"
                (item_event (arg_character_id args) (arg_item_id args)) s1 in
            items s1 !! arg_item_id args = Some (moved_to area i)
            /\ located (moved_to area i)
            /\ match snd run with
               | Returned _ =>
                   succeeded r
                   /\ items (state_after r) = items (fst run)
                   /\ exists c',
                        characters (state_after r) !! arg_character_id args
                        = Some c'
                        /\ last (memory c')
                           = Some {| action := "dropped " ++ item_name i;
                                     result := "item left in area";
                                     timestamp := now |}
               | Thrown e => failed_with r e /\ state_after r = fst run
               end
        end
  end.
Proof.
  cbv zeta.
  destruct (characters s !! arg_character_id args) as [c|] eqn:Hc;
    [|unfold item_drop;
      by rewrite (bind_returned _ _ _ _ _ (Character_findById_run _ s)), Hc].
  destruct (items s !! arg_item_id args) as [i|] eqn:Hi;
    [|unfold item_drop;
      rewrite (bind_returned _ _ _ _ _ (Character_findById_run _ s)), Hc;
      by rewrite (bind_returned _ _ _ _ _ (Item_findById_run _ s)), Hi].
  destruct (differs _ _) eqn:Hheld.
  { unfold item_drop.
    rewrite (bind_returned _ _ _ _ _ (Character_findById_run _ s)), Hc.
    by rewrite (bind_returned _ _ _ _ _ (Item_findById_run _ s)), Hi, Hheld. }
  destruct (truthy_number (character_current_area_id c)) eqn:Htruthy; simpl.
  2:{ unfold item_drop.
      rewrite (bind_returned _ _ _ _ _ (Character_findById_run _ s)), Hc.
      rewrite (bind_returned _ _ _ _ _ (Item_findById_run _ s)), Hi, Hheld.
      by rewrite Htruthy. }
  pose proof (truthy_number_area _ Htruthy) as Harea.
  set (area := default 0 (character_current_area_id c)) in *.
  destruct (areas s !! area) as [a|] eqn:Ha.
  - pose proof (item_drop_run s args now c i area a Hc Hi Hheld Htruthy
                  Harea Ha) as Hrun.
    cbv zeta in Hrun.
    split; [apply lookup_insert_eq|]. split; [left; simpl; eauto|].
    destruct (snd (executeTriggers _ _ _ _)).
    + destruct Hrun as (c' & -> & Hlast).
      unfold succeeded, state_after; simpl.
      split; [eauto|]. split; [done|].
      exists c'. by rewrite lookup_insert_eq.
    + by rewrite Hrun.
  - unfold item_drop.
    rewrite (bind_returned _ _ _ _ _ (Character_findById_run _ s)), Hc.
    rewrite (bind_returned _ _ _ _ _ (Item_findById_run _ s)), Hi, Hheld.
    rewrite Htruthy. simpl. fold area.
    pose proof (Item_moveToArea_run (arg_item_id args) area s i Hi) as Hmove.
    rewrite Ha in Hmove. by rewrite (bind_thrown _ _ _ _ _ Hmove).
Qed.

Lemma item_drop_cases_witness :
  failed_with (item_drop pickup_torch "2025-10-26T12:06:00.000Z" store_hand_full)
    NotHoldingItem
  /\ state_after (item_drop pickup_torch "2025-10-26T12:06:00.000Z" store_hand_full)
     = store_hand_full.
Proof.
  pose proof (item_drop_cases store_hand_full pickup_torch
                "2025-10-26T12:06:00.000Z") as H.
  cbv zeta in H.
  change (characters store_hand_full !! arg_character_id pickup_torch)
    with (Some (sample_character "minor" [] (Some 10) None)) in H.
  change (items store_hand_full !! arg_item_id pickup_torch)
    with (Some (sample_item 30 "Torch" (Some 10) None None)) in H.
  cbv beta iota in H.
  change (differs _ _) with true in H. cbv beta iota in H.
  exact H.
Defined.

(** The run of a pickup that passes in silence. *)
Lemma item_pickup_quiet (s : Store) (args : Args) (now : string)
    (c : Character) (i : Item) :
  characters s !! arg_character_id args = Some c ->
  items s !! arg_item_id args = Some i ->
  item_current_area_id i = character_current_area_id c ->
  (String.length (arg_location args) <= 50)%nat ->
  silent s (default 0 (character_current_area_id c)) "item_picked_up"
    (item_event (arg_character_id args) (arg_item_id args)) ->
  exists c' response,
    item_pickup args now s
    = (with_characters (<[arg_character_id args := c']> (characters s))
         (handed_over (arg_character_id args) (arg_item_id args)
            (arg_location args) i s),
       Returned response)
    /\ last (memory c')
       = Some {| action := "picked up " ++ item_name i;
                 result := "now holding in " ++ arg_location args;
                 timestamp := now |}
    /\ character_current_area_id c' = character_current_area_id c.
Proof.
  intros Hc Hi Hsame Hfit Hquiet. unfold item_pickup.
  rewrite (bind_returned _ _ _ _ _ (Character_findById_run _ s)), Hc.
  rewrite (bind_returned _ _ _ _ _ (Item_findById_run _ s)), Hi.
  rewrite Hsame. unfold differs at 1. rewrite bool_decide_eq_true_2 by done.
  simpl.
  pose proof (Item_giveToCharacter_run _ _ (arg_location args) s i c Hi Hc)
    as Hgive.
  rewrite (varchar_short _ _ Hfit) in Hgive.
  rewrite (bind_returned _ _ _ _ _ Hgive).
  match goal with
  | |- context [bind (if ?b then ?t else ?e) _ ?s1] =>
      assert ((if b then t else e) s1 = (s1, Returned tt)) as Hrun
  end.
  { destruct (truthy_number (character_current_area_id c)); [|done].
    apply executeTriggers_silent.
    by apply (silent_same_areas s). }
  rewrite (bind_returned _ _ _ _ _ Hrun).
  match goal with
  | |- context [bind (Character_addMemory ?id ?a ?r ?cap ?now) _ ?s2] =>
      destruct (Character_addMemory_row s2 id a r now cap c Hc
                  (memory_cap_positive c))
        as (c' & Hmem & Hlast & _ & _ & _ & _ & Harea & _)
  end.
  rewrite (bind_returned _ _ _ _ _ Hmem).
  exists c'. eexists. split; [reflexivity|]. done.
Qed.

(** The run of a drop that passes in silence. *)
Lemma item_drop_quiet (s : Store) (args : Args) (now : string)
    (c : Character) (i : Item) (area : Z) (a : Area) :
  characters s !! arg_character_id args = Some c ->
  items s !! arg_item_id args = Some i ->
  held_by_character_id i = Some (arg_character_id args) ->
  character_current_area_id c = Some area ->
  area <> 0 ->
  areas s !! area = Some a ->
  silent s area "item_dropped"
    (item_event (arg_character_id args) (arg_item_id args)) ->
  exists c' response,
    item_drop args now s
    = (with_characters (<[arg_character_id args := c']> (characters s))
         (laid_down (arg_item_id args) area i s),
       Returned response)
    /\ last (memory c')
       = Some {| action := "dropped " ++ item_name i;
                 result := "item left in area"; timestamp := now |}.
Proof.
  intros Hc Hi Hheld Harea Hnz Ha Hquiet.
  assert (differs (held_by_character_id i) (Some (arg_character_id args))
          = false) as Hsame.
  { rewrite Hheld. unfold differs. by rewrite bool_decide_eq_true_2. }
  assert (truthy_number (character_current_area_id c) = true) as Htruthy.
  { rewrite Harea. simpl. by destruct (Z.eqb_spec area 0). }
  pose proof (item_drop_run s args now c i area a Hc Hi Hsame Htruthy
                Harea Ha) as Hrun.
  cbv zeta in Hrun.
  rewrite executeTriggers_silent in Hrun
    by (by apply (silent_same_areas s)).
  simpl in Hrun. destruct Hrun as (c' & Hrun & Hlast).
  exists c'. eexists. split; [exact Hrun | exact Hlast].
Qed.

(** X13: the round trip.  A character standing in an area picks up an
    item of that area, into a location that fits its column, and drops
    it again, both events passing in silence: both calls succeed, in
    between the item is held by the character at the location and lies
    in no area, and in the end it lies in the area again with its hold
    fields cleared and everything else of it as before; no other item
    and no area has changed. *)
Theorem pickup_then_drop_restores (s : Store) (args : Args)
    (now1 now2 : string) (c : Character) (i : Item) (area : Z) (a : Area) :
  characters s !! arg_character_id args = Some c ->
  items s !! arg_item_id args = Some i ->
  character_current_area_id c = Some area ->
  area <> 0 ->
  areas s !! area = Some a ->
  item_current_area_id i = Some area ->
  (String.length (arg_location args) <= 50)%nat ->
  silent s area "item_picked_up"
    (item_event (arg_character_id args) (arg_item_id args)) ->
  silent s area "item_dropped"
    (item_event (arg_character_id args) (arg_item_id args)) ->
  let r1 := item_pickup args now1 s in
  let r2 := item_drop args now2 (state_after r1) in
  succeeded r1
  /\ (exists held,
        items (state_after r1) !! arg_item_id args = Some held
        /\ held_by_character_id held = Some (arg_character_id args)
        /\ held_location held = Some (arg_location args)
        /\ item_current_area_id held = None)
  /\ succeeded r2
  /\ (exists i',
        items (state_after r2) !! arg_item_id args = Some i'
        /\ item_current_area_id i' = Some area
        /\ held_by_character_id i' = None
        /\ held_location i' = None
        /\ item_name i' = item_name i
        /\ item_description i' = item_description i
        /\ properties i' = properties i
        /\ item_world_id i' = item_world_id i
        /\ item_id i' = item_id i)
  /\ (forall other, other <> arg_item_id args ->
        items (state_after r2) !! other = items s !! other)
  /\ areas (state_after r2) = areas s.
Proof.
  intros Hc Hi Ha Hnz Harea Hia Hfit Hq1 Hq2 r1 r2.
  destruct (item_pickup_quiet s args now1 c i Hc Hi)
    as (c1 & resp1 & Hrun1 & _ & Ha1).
  { by rewrite Hia, Ha. }
  { done. }
  { by rewrite Ha. }
  subst r2 r1. rewrite Hrun1. unfold state_after at 1 2 3 4 5; simpl.
  set (s1 := with_characters _ _).
  destruct (item_drop_quiet s1 args now2 c1
              (given_to (arg_character_id args) (arg_location args) i) area a)
    as (c2 & resp2 & Hrun2 & _).
  { subst s1. simpl. apply lookup_insert_eq. }
  { subst s1. simpl. apply lookup_insert_eq. }
  { done. }
  { by rewrite Ha1. }
  { done. }
  { done. }
  { by apply (silent_same_areas s). }
  rewrite Hrun2. unfold succeeded, state_after; simpl.
  split; [eauto|]. split.
  { eexists. split; [apply lookup_insert_eq|].
    by apply given_to_location, varchar_short. }
  split; [eauto|]. split.
  - eexists. split; [apply lookup_insert_eq|]. done.
  - split; [|done]. intros other Hother.
    by rewrite !lookup_insert_ne.
Qed.

Lemma pickup_then_drop_restores_witness :
  succeeded (item_pickup pickup_torch "2025-10-26T12:05:00.000Z" store_adrift_ashore)
  /\ succeeded
       (item_drop pickup_torch "2025-10-26T12:06:00.000Z"
          (state_after (item_pickup pickup_torch "2025-10-26T12:05:00.000Z"
                          store_adrift_ashore)))
  /\ areas (state_after
              (item_drop pickup_torch "2025-10-26T12:06:00.000Z"
                 (state_after (item_pickup pickup_torch "2025-10-26T12:05:00.000Z"
                                 store_adrift_ashore))))
     = areas store_adrift_ashore.
Proof.
  destruct (pickup_then_drop_restores store_adrift_ashore pickup_torch
              "2025-10-26T12:05:00.000Z" "2025-10-26T12:06:00.000Z"
              (sample_character "minor" [] (Some 10) None)
              (sample_item 30 "Torch" (Some 10) None None) 10
              (sample_area 10 1 [warm_once]))
    as (Hok1 & _ & Hok2 & _ & _ & Hareas).
  - reflexivity.
  - reflexivity.
  - reflexivity.
  - intros Heq; discriminate Heq.
  - reflexivity.
  - reflexivity.
  - simpl. lia.
  - reflexivity.
  - reflexivity.
  - split; [exact Hok1|]. split; [exact Hok2 | exact Hareas].
Defined.

(** * Speaking *)

(** X14: [character_speak] fails with "not found" for a missing
    character and changes nothing; otherwise the character's memory ends
    with ["<type>: <text>"], however the call ends.  When the type is
    "speech" and the character has an area, the triggers of the area run
    for [character_speech]: the firings recorded are those of the first
    [n] triggers that match, of all of them when the call returns, and
    the call returns when the speech passes in silence.  For any other
    type, or with no area, the call succeeds, nothing runs and no area
    or item changes. *)
Theorem character_speak_cases (s : Store) (args : Args) (now : string) :
  let r := character_speak args now s in
  match characters s !! arg_character_id args with
  | None =>
      failed_with r (CharacterNotFound (arg_character_id args))
      /\ state_after r = s
  | Some c =>
      (exists c',
         characters (state_after r) !! arg_character_id args = Some c'
         /\ last (memory c')
            = Some {| action := arg_action_type args ++ ": " ++ arg_text args;
                      result := "communicated"; timestamp := now |})
      /\ if String.eqb (arg_action_type args) "speech"
            && truthy_number (character_current_area_id c)
         then
           let area := default 0 (character_current_area_id c) in
           let event := speech_event (arg_character_id args) (arg_text args) in
           (exists n : nat,
              firings (state_after r)
              = (firings s
                 ++ firings_of area "character_speech"
                      (take n (matching s area "character_speech" event)))%list
              /\ match snd r with
                 | Returned _ =>
                     n = length (matching s area "character_speech" event)
                 | Thrown _ => True
                 end)
           /\ (silent s area "character_speech" event -> succeeded r)
         else
           succeeded r
           /\ firings (state_after r) = firings s
           /\ areas (state_after r) = areas s
           /\ items (state_after r) = items s
  end.
Proof.
  cbv zeta. unfold character_speak.
  rewrite (bind_returned _ _ _ _ _ (Character_findById_run _ s)).
  destruct (characters s !! arg_character_id args) as [c|] eqn:Hc; [|done].
  match goal with
  | |- context [bind (Character_addMemory ?id ?a ?r ?cap ?now) _ ?s2] =>
      destruct (Character_addMemory_row s2 id a r now cap c Hc
                  (memory_cap_positive c))
        as (c' & Hmem & Hlast & _)
  end.
  rewrite (bind_returned _ _ _ _ _ Hmem).
  destruct (String.eqb (arg_action_type args) "speech"
            && truthy_number (character_current_area_id c)).
  - fold (speech_event (arg_character_id args) (arg_text args)).
    match goal with
    | |- context [bind (executeTriggers ?a ?ty ?ev) _ ?s1] =>
        destruct (executeTriggers_frame a ty ev s1)
          as (s2 & o & n & Hrun & (Hcs & _ & _) & Hfi & Hall);
        rewrite (matching_same_areas s s1) in Hfi, Hall by done;
        pose proof (executeTriggers_silent a ty ev s1) as Hsilent
    end.
    destruct o as [[]|e].
    + rewrite (bind_returned _ _ _ _ _ Hrun).
      unfold reply, ret, succeeded, state_after; simpl.
      split; [exists c'; rewrite Hcs; simpl; by rewrite lookup_insert_eq|].
      split; [|eauto]. exists n. split; [done | by apply Hall].
    + rewrite (bind_thrown _ _ _ _ _ Hrun).
      unfold succeeded, state_after; simpl.
      split; [exists c'; rewrite Hcs; simpl; by rewrite lookup_insert_eq|].
      split; [by exists n|].
      intros Hq. rewrite Hsilent in Hrun by (by apply (silent_same_areas s)).
      done.
  - unfold reply, ret, bind, succeeded, state_after; simpl.
    split; [exists c'; by rewrite lookup_insert_eq|]. eauto.
Qed.

Lemma character_speak_cases_witness :
  succeeded
    (character_speak (call_args 20 0 None "" "Open sesame" "speech" "" "")
       "2025-10-26T12:05:00.000Z" store_two_worlds).
Proof.
  pose proof (character_speak_cases store_two_worlds
                (call_args 20 0 None "" "Open sesame" "speech" "" "")
                "2025-10-26T12:05:00.000Z") as H.
  cbv zeta in H.
  change (characters store_two_worlds !! _)
    with (Some (sample_character "minor" [] (Some 10) None)) in H.
  cbv beta iota in H. destruct H as (_ & H).
  change (String.eqb _ _ && truthy_number _) with true in H.
  cbv beta iota in H. destruct H as (_ & H).
  apply H. reflexivity.
Defined.

(** * Reactions that write the same field *)

Lemma executeReaction_exits (areaId : Z) (a : Area) (u u1 : AreaData)
    (r : Reaction) (s s1 : Store) :
  executeReaction areaId (Some a) u r s = (s1, Returned u1) ->
  data_exits u1
  = if touches_exits r then Some (exits_by r (exits a)) else data_exits u.
Proof.
  unfold executeReaction, touches_exits, exits_by.
  destruct r as [ty it iid dir tgt nd ad rt td]; simpl.
  repeat match goal with
         | |- context [String.eqb ty ?c] =>
             destruct (String.eqb_spec ty c) as [->|?]; simpl
         end;
    unfold deref, bind, ret, throw;
    repeat match goal with
           | |- context [match ?c s with _ => _ end] =>
               destruct (c s) as [? [?|?]]
           end;
    repeat case_match; simpl; intros [= <- <-];
    simpl in *; try done; try congruence.
Qed.

Lemma executeReactions_loop_exits_kept (areaId : Z) (a : Area)
    (rs : list Reaction) :
  forallb (fun r => negb (touches_exits r)) rs = true ->
  forall (u u1 : AreaData) (s s1 : Store),
    executeReactions_loop areaId (Some a) u rs s = (s1, Returned u1) ->
    data_exits u1 = data_exits u.
Proof.
  induction rs as [|r rest IH]; intros Hnone u u1 s s1; simpl.
  - by intros [= <- <-].
  - simpl in Hnone. apply andb_true_iff in Hnone as [Hr Hrest].
    unfold bind.
    destruct (executeReaction areaId (Some a) u r s) as [s0 [u0|e]] eqn:Hone;
      [|done].
    intros Hloop. rewrite (IH Hrest _ _ _ _ Hloop).
    rewrite (executeReaction_exits _ _ _ _ _ _ _ Hone).
    by apply negb_true_iff in Hr as ->.
Qed.

Lemma executeReactions_loop_app (areaId : Z) (area : option Area)
    (rs1 rs2 : list Reaction) :
  forall (u : AreaData) (s : Store),
    executeReactions_loop areaId area u (rs1 ++ rs2) s
    = bind (executeReactions_loop areaId area u rs1)
        (fun u1 => executeReactions_loop areaId area u1 rs2) s.
Proof.
  induction rs1 as [|r rest IH]; intros u s; simpl; [done|].
  unfold bind at 1 2 3.
  destruct (executeReaction areaId area u r s) as [s0 [u0|e]]; [|done].
  by rewrite IH.
Qed.

(** The exits that the loop leaves in the updates when its last reaction
    on the exits is [r]. *)
Lemma executeReactions_loop_last_exit (areaId : Z) (a : Area)
    (before after : list Reaction) (r : Reaction) (u : AreaData)
    (s s1 : Store) :
  touches_exits r = true ->
  forallb (fun r' => negb (touches_exits r')) after = true ->
  executeReactions_loop areaId (Some a) no_updates (before ++ r :: after) s
  = (s1, Returned u) ->
  data_exits u = Some (exits_by r (exits a)).
Proof.
  intros Hr Hafter. rewrite executeReactions_loop_app. unfold bind at 1.
  destruct (executeReactions_loop areaId (Some a) no_updates before s)
    as [s0 [u0|e]]; [|done].
  simpl. unfold bind at 1.
  destruct (executeReaction areaId (Some a) u0 r s0) as [s2 [u2|e]] eqn:Hone;
    [|done].
  intros Hrest.
  rewrite (executeReactions_loop_exits_kept _ _ _ Hafter _ _ _ _ Hrest).
  by rewrite (executeReaction_exits _ _ _ _ _ _ _ Hone), Hr.
Qed.

(** A harmless reaction returns, in an area that is there, and sets
    neither the name nor the temperature of the area. *)
Lemma executeReaction_harmless (areaId : Z) (a : Area) (u : AreaData)
    (r : Reaction) (s : Store) :
  harmless r = true ->
  exists s1 u1,
    executeReaction areaId (Some a) u r s = (s1, Returned u1)
    /\ data_area_name u1 = data_area_name u
    /\ data_temperature u1 = data_temperature u.
Proof.
  unfold harmless, executeReaction.
  destruct r as [ty it iid dir tgt nd ad rt td]; simpl.
  destruct (String.eqb ty "add_item"); [done|].
  destruct (String.eqb ty "modify_temperature") eqn:Htemp; [done|].
  intros _. unfold deref, Item_delete, bind, gets, ret, set_items.
  repeat match goal with
         | |- context [if ?b then _ else _] => destruct b
         end; simpl; eauto.
Qed.

Lemma executeReactions_loop_harmless (areaId : Z) (a : Area)
    (rs : list Reaction) :
  forallb harmless rs = true ->
  forall (u : AreaData) (s : Store),
    exists s1 u1,
      executeReactions_loop areaId (Some a) u rs s = (s1, Returned u1)
      /\ data_area_name u1 = data_area_name u
      /\ data_temperature u1 = data_temperature u.
Proof.
  induction rs as [|r rest IH]; intros Hall u s; simpl; [eauto|].
  simpl in Hall. apply andb_true_iff in Hall as [Hr Hrest].
  destruct (executeReaction_harmless areaId a u r s Hr)
    as (s0 & u0 & Hone & Hname & Htemp).
  destruct (IH Hrest u0 s0) as (s1 & u1 & Hloop & Hname' & Htemp').
  exists s1, u1. rewrite (bind_returned _ _ _ _ _ Hone).
  split; [done|]. split; congruence.
Qed.

(** A run of harmless reactions returns and leaves the area in place
    with its triggers. *)
Lemma executeReactions_harmless (areaId : Z) (a : Area)
    (rs : list Reaction) (eventData : EventData) (s : Store) :
  areas s !! areaId = Some a ->
  forallb harmless rs = true ->
  exists s1 a1,
    executeReactions areaId rs eventData s = (s1, Returned tt)
    /\ areas s1 !! areaId = Some a1
    /\ triggers a1 = triggers a.
Proof.
  intros Ha Hall. unfold executeReactions.
  destruct rs as [|r rest] eqn:Hrs; [by exists s, a|]. rewrite <- Hrs in *.
  clear Hrs r rest.
  rewrite (bind_returned _ _ _ _ _ (Area_findById_run areaId s)), Ha.
  destruct (executeReactions_loop_harmless areaId a rs Hall no_updates s)
    as (s1 & u & Hloop & Hname & Htemp).
  pose proof (executeReactions_loop_frame areaId (Some a) rs no_updates s)
    as Hframe.
  rewrite Hloop in Hframe. destruct Hframe as (_ & Hareas & _).
  pose proof (executeReactions_loop_keeps_triggers _ _ _ _ _ _ _ Hloop)
    as Htriggers.
  simpl in Hareas, Hname, Htemp, Htriggers.
  rewrite (bind_returned _ _ _ _ _ Hloop).
  destruct (has_updates u); [|exists s1, a; by rewrite Hareas].
  unfold bind. rewrite Area_update_eq, Hareas, Ha.
  unfold area_misfit. rewrite Hname, Htemp. simpl.
  destruct (no_area_fields u); [exists s1, a; by rewrite Hareas|].
  eexists _, _. split; [done|]. simpl.
  rewrite lookup_insert_eq. split; [done|]. simpl. by rewrite Htriggers.
Qed.

(** X15: of the reactions of one run that write the exits, the last
    alone takes effect.  Each [add_exit] and [remove_exit] starts from the
    exits read before the loop, so a run that returns leaves the area
    with those exits changed by the last such reaction only: what the
    earlier ones added or removed is lost.  A run that throws leaves the
    exits as they were; and a run of harmless reactions returns. *)
Theorem executeReactions_last_exit_wins (s : Store) (areaId : Z) (a : Area)
    (before after : list Reaction) (r : Reaction) (eventData : EventData) :
  areas s !! areaId = Some a ->
  touches_exits r = true ->
  forallb (fun r' => negb (touches_exits r')) after = true ->
  let run := executeReactions areaId (before ++ r :: after) eventData s in
  (exits <$> areas (state_after run) !! areaId)
  = Some match snd run with
         | Returned _ => exits_by r (exits a)
         | Thrown _ => exits a
         end
  /\ (forallb harmless (before ++ r :: after) = true -> succeeded run).
Proof.
  intros Ha Hr Hafter. cbv zeta. split.
  - unfold executeReactions.
    destruct (before ++ r :: after)%list as [|r0 rest] eqn:Hlist;
      [by destruct before|]. rewrite <- Hlist. clear Hlist r0 rest.
    rewrite (bind_returned _ _ _ _ _ (Area_findById_run areaId s)), Ha.
    pose proof (executeReactions_loop_frame areaId (Some a)
                  (before ++ r :: after)%list no_updates s) as Hframe.
    destruct (executeReactions_loop areaId (Some a) no_updates
                (before ++ r :: after)%list s) as [s1 [u|e]] eqn:Hrun;
      destruct Hframe as (_ & Hars & _); simpl in Hars.
    + rewrite (bind_returned _ _ _ _ _ Hrun).
      pose proof (executeReactions_loop_last_exit _ _ _ _ _ _ _ _ Hr Hafter
                    Hrun) as Hexits.
      assert (has_updates u = true) as ->.
      { unfold has_updates. rewrite Hexits. simpl.
        by rewrite !orb_true_r. }
      unfold bind. rewrite Area_update_eq, Hars, Ha.
      assert (no_area_fields u = false) as ->.
      { unfold no_area_fields. rewrite Hexits. by repeat case_match. }
      destruct (area_misfit u); unfold state_after; simpl.
      * by rewrite Hars, Ha.
      * rewrite lookup_insert_eq. simpl. by rewrite Hexits.
    + rewrite (bind_thrown _ _ _ _ _ Hrun). unfold state_after; simpl.
      by rewrite Hars, Ha.
  - intros Hall.
    destruct (executeReactions_harmless areaId a _ eventData s Ha Hall)
      as (s1 & a1 & -> & _).
    by eexists.
Qed.

Lemma executeReactions_last_exit_wins_witness :
  (exits
     <$> areas (state_after
                  (executeReactions 10 [add_exit "north" 11; add_exit "secret" 42]
                     (enters 20) store_two_worlds)) !! 10)
  = Some {[ "secret" := 42 ]}.
Proof.
  destruct (executeReactions_last_exit_wins store_two_worlds 10
              (sample_area 10 1 []) [add_exit "north" 11] []
              (add_exit "secret" 42) (enters 20)) as [Hexits _].
  - reflexivity.
  - reflexivity.
  - reflexivity.
  - exact Hexits.
Defined.

(** * One-time triggers *)

Lemma last_one_time_filter (matched : list (nat * Trigger)) :
  last_one_time matched
  = fst <$> last (List.filter (fun p => one_time (snd p)) matched).
Proof.
  induction matched as [|p rest IH]; [done|]. simpl. rewrite IH.
  destruct (one_time (snd p)); [|by destruct (last _)].
  destruct (List.filter _ rest) as [|q more]; [done|].
  rewrite !last_cons. by destruct (last more).
Qed.

Lemma filter_positions_above {A} (l : list A) (n j : nat) :
  (j < n)%nat ->
  map snd (List.filter (fun p => negb (Nat.eqb (fst p) j))
             (zip (seq n (length l)) l)) = l.
Proof.
  revert n. induction l as [|x rest IH]; intros n Hj; [done|]. simpl.
  destruct (Nat.eqb_spec n j) as [->|_]; [lia|]. simpl.
  f_equal. apply IH. lia.
Qed.

Lemma filter_out_from {A} (l : list A) (n j : nat) :
  map snd (List.filter (fun p => negb (Nat.eqb (fst p) (n + j)))
             (zip (seq n (length l)) l)) = delete j l.
Proof.
  revert n j. induction l as [|x rest IH]; intros n j; [done|]. simpl.
  destruct j as [|j].
  - rewrite Nat.add_0_r, Nat.eqb_refl. simpl.
    apply filter_positions_above. lia.
  - destruct (Nat.eqb_spec n (n + S j)) as [Heq|_]; [lia|]. simpl.
    f_equal. rewrite <- (IH (S n) j). by rewrite Nat.add_succ_r.
Qed.

Lemma filter_out_delete {A} (j : nat) (l : list A) :
  filter_out j l = delete j l.
Proof. apply (filter_out_from l 0 j). Qed.

(** The firing of a trigger with harmless reactions returns; it stores
    the list without the trigger when the trigger is one-time. *)
Lemma fire_harmless (areaId : Z) (eventType : string) (eventData : EventData)
    (all : list Trigger) (p : nat * Trigger) (s : Store) (a : Area) :
  areas s !! areaId = Some a ->
  forallb harmless (reactions (snd p)) = true ->
  exists s1 a1,
    fire areaId eventType eventData all p s = (s1, Returned tt)
    /\ areas s1 !! areaId = Some a1
    /\ triggers a1
       = if one_time (snd p) then filter_out (fst p) all else triggers a.
Proof.
  intros Ha Hall. unfold fire. cbv zeta.
  match goal with
  | |- context [bind (record_firing ?f) ?k s] =>
      change (bind (record_firing f) k s)
        with (k tt (fst (record_firing f s)))
  end.
  cbv beta.
  destruct (executeReactions_harmless areaId a (reactions (snd p)) eventData
              (fst (record_firing
                      {| firing_area := areaId; firing_event := eventType;
                         firing_trigger := snd p |} s)) Ha Hall)
    as (s1 & a1 & Hrun & Ha1 & Htriggers).
  rewrite (bind_returned _ _ _ _ _ Hrun).
  destruct (one_time (snd p)).
  - unfold bind. rewrite Area_update_eq, Ha1. simpl.
    eexists _, _. split; [done|]. simpl. by rewrite lookup_insert_eq.
  - by exists s1, a1.
Qed.

Lemma for_each_fire_harmless (areaId : Z) (eventType : string)
    (eventData : EventData) (all : list Trigger)
    (matched : list (nat * Trigger)) :
  forallb (fun p => forallb harmless (reactions (snd p))) matched = true ->
  forall (s : Store) (a : Area),
    areas s !! areaId = Some a ->
    exists s1 a1,
      for_each matched (fire areaId eventType eventData all) s
      = (s1, Returned tt)
      /\ areas s1 !! areaId = Some a1
      /\ triggers a1
         = match last_one_time matched with
           | Some j => filter_out j all
           | None => triggers a
           end.
Proof.
  induction matched as [|p rest IH]; intros Hall s a Ha; [by exists s, a|].
  simpl in Hall. apply andb_true_iff in Hall as [Hp Hrest].
  destruct (fire_harmless areaId eventType eventData all p s a Ha Hp)
    as (s1 & a1 & Hrun & Ha1 & Hone).
  destruct (IH Hrest s1 a1 Ha1) as (s2 & a2 & Hrun' & Ha2 & Hlast).
  exists s2, a2. simpl. rewrite (bind_returned _ _ _ _ _ Hrun).
  split; [done|]. split; [done|]. rewrite Hlast.
  destruct (last_one_time rest); [done|].
  rewrite Hone. by destruct (one_time (snd p)).
Qed.

(** What a run of the engine stores of the triggers when its reactions
    are harmless: the list read at the start without the last one-time
    trigger that matched, whatever the earlier removals wrote. *)
Lemma executeTriggers_stored_triggers (s : Store) (areaId : Z)
    (eventType : string) (eventData : EventData) (area : Area)
    (matched : list (nat * Trigger)) :
  areas s !! areaId = Some area ->
  scan eventType eventData (indexed (triggers area)) = Returned matched ->
  forallb (fun p => forallb harmless (reactions (snd p))) matched = true ->
  (triggers
     <$> areas (state_after (executeTriggers areaId eventType eventData s))
         !! areaId)
  = Some match last_one_time matched with
         | Some j => filter_out j (triggers area)
         | None => triggers area
         end.
Proof.
  intros Ha Hscan Hall.
  rewrite (executeTriggers_unfold _ _ _ _ _ _ Ha Hscan).
  destruct (for_each_fire_harmless areaId eventType eventData (triggers area)
              matched Hall s area Ha) as (s1 & a1 & -> & Ha1 & Hlast).
  unfold state_after; simpl. by rewrite Ha1, <- Hlast.
Qed.

(** X16: when the reactions of the triggers that match an event are
    harmless and at most one of these triggers is one-time, a run of the
    triggers returns and stores the list without it (the element at its
    position is deleted, every other trigger stays in order), and stores
    the list as it was when none is. *)
Theorem executeTriggers_removes_one_time (s : Store) (areaId : Z)
    (eventType : string) (eventData : EventData) (area : Area)
    (matched : list (nat * Trigger)) :
  areas s !! areaId = Some area ->
  scan eventType eventData (indexed (triggers area)) = Returned matched ->
  forallb (fun p => forallb harmless (reactions (snd p))) matched = true ->
  (length (List.filter (fun p => one_time (snd p)) matched) <= 1)%nat ->
  let r := executeTriggers areaId eventType eventData s in
  succeeded r
  /\ (triggers <$> areas (state_after r) !! areaId)
     = Some match List.filter (fun p => one_time (snd p)) matched with
            | [] => triggers area
            | p :: _ => delete (fst p) (triggers area)
            end.
Proof.
  intros Ha Hscan Hall Hone. cbv zeta.
  rewrite (executeTriggers_unfold _ _ _ _ _ _ Ha Hscan).
  destruct (for_each_fire_harmless areaId eventType eventData (triggers area)
              matched Hall s area Ha) as (s1 & a1 & -> & Ha1 & Hlast).
  unfold succeeded, state_after; simpl. split; [eauto|].
  rewrite Ha1. simpl. f_equal. rewrite Hlast, last_one_time_filter.
  destruct (List.filter _ matched) as [|p [|q more]]; simpl in *; [done| |lia].
  by rewrite filter_out_delete.
Qed.

Lemma executeTriggers_removes_one_time_witness :
  succeeded (executeTriggers 10 "character_enters" (enters 20) store_with_door)
  /\ (triggers
        <$> areas (state_after
                     (executeTriggers 10 "character_enters" (enters 20)
                        store_with_door)) !! 10)
     = Some [].
Proof.
  apply (executeTriggers_removes_one_time store_with_door 10
           "character_enters" (enters 20) (sample_area 10 1 [door_once])
           [(0%nat, door_once)]).
  - reflexivity.
  - reflexivity.
  - reflexivity.
  - simpl. lia.
Defined.

(** * The context of a character *)

Lemma last_drop {A} (l : list A) (n : nat) (x : A) :
  last l = Some x -> (n < length l)%nat -> last (drop n l) = Some x.
Proof.
  intros Hlast Hn. apply last_Some in Hlast as [l' ->].
  rewrite length_app in Hn. simpl in Hn.
  rewrite drop_app_le by lia. apply last_snoc.
Qed.

(** X17: an entry added to the memory of a character with the cap of its
    class is the last entry of the memory section of its next context,
    and that section holds at most 3 entries, 5 for a story character. *)
Theorem added_memory_shows_in_context (s : Store) (id : Z)
    (act res now : string) (c : Character) :
  characters s !! id = Some c ->
  exists c',
    characters
      (state_after (Character_addMemory id act res (memory_cap c) now s)) !! id
    = Some c'
    /\ last (buildMemoryContext c')
       = Some {| action := act; result := res; timestamp := now |}
    /\ (length (buildMemoryContext c') <= memory_cap c')%nat.
Proof.
  intros Hc.
  destruct (Character_addMemory_row s id act res now (memory_cap c) c Hc
              (memory_cap_positive c)) as (c' & Hrun & Hlast & _).
  exists c'. rewrite Hrun. unfold state_after; simpl.
  split; [apply lookup_insert_eq|].
  pose proof (memory_cap_positive c') as Hcap.
  unfold buildMemoryContext. split.
  - apply last_drop; [done|].
    destruct (memory c') as [|e l]; [done|]. simpl. lia.
  - rewrite length_drop. lia.
Qed.

Lemma added_memory_shows_in_context_witness :
  exists c',
    characters
      (state_after
         (Character_addMemory 20 "looked around" "saw a hall" 3 "t9"
            store_over_cap)) !! 20
    = Some c'
    /\ last (buildMemoryContext c')
       = Some {| action := "looked around"; result := "saw a hall";
                 timestamp := "t9" |}
    /\ (length (buildMemoryContext c') <= memory_cap c')%nat.
Proof.
  destruct (characters store_over_cap !! 20) as [c|] eqn:Hc;
    [|by vm_compute in Hc].
  assert (memory_cap c = 3%nat) as Hcap
    by (vm_compute in Hc; by injection Hc as <-).
  rewrite <- Hcap.
  exact (added_memory_shows_in_context store_over_cap 20 "looked around"
           "saw a hall" "t9" c Hc).
Defined.

(** The [Asleep] note is shown below an alertness of 20. *)
Lemma Asleep_noted (c : Character) :
  Asleep ∈ physical_notes c <-> less (alertness c) 20 = true.
Proof.
  unfold physical_notes. split.
  - destruct (less (alertness c) 20); [done|].
    rewrite !elem_of_app.
    intros [Hin|[Hin|[Hin|[Hin|Hin]]]];
      repeat match type of Hin with
             | context [if ?b then _ else _] => destruct b
             | context [match ?l with [] => _ | _ => _ end] => destruct l
             end;
      by repeat first [ apply elem_of_nil in Hin
                      | apply elem_of_cons in Hin as [Hin|Hin] ].
  - intros ->. rewrite !elem_of_app. do 3 right. left. by left.
Qed.

(** The window of a character that is there is built, and nothing is
    written; its notes are those of the stored row. *)
Lemma buildContextWindow_notes (s : Store) (id : Z) (c : Character) :
  characters s !! id = Some c ->
  exists w,
    buildContextWindow id s = (s, Returned w)
    /\ window_notes w = physical_notes c.
Proof.
  intros Hc.
  unfold buildContextWindow, buildAreaContext, Area_findById,
    Area_getCharacters, Area_getItems, Character_getInventory,
    Character_findById, bind, gets, ret; simpl.
  rewrite Hc. destruct (truthy_number _); [|eauto].
  destruct (areas s !! _); eauto.
Qed.

(** X18: what [processCharacter] shows a character of its sleep.  The
    tick runs first and the window is built from the row that the tick
    has stored, and this window is the one the language model answers:
    a selected character whose tiredness the tick brings to 100 is
    forced asleep and its window carries the [Asleep] note; any other
    selected character keeps its alertness and its window does not
    carry the note.  The action that is answered then runs on the store
    that the tick has left. *)
Theorem tick_decides_the_asleep_note
    (decide : Character -> ContextWindow -> option Action)
    (clock : Z -> string) (character : Character) (seconds : Q) (st : Stats)
    (s : Store) (c : Character) :
  characters s !! character_id character = Some c ->
  awake c ->
  (0 <= seconds)%Q ->
  let id := character_id character in
  let s1 := state_after (updatePhysicalState id seconds s) in
  exists w,
    buildContextWindow id s1 = (s1, Returned w)
    /\ (if Qle_bool 100 (tiredness c + (seconds / 600) * 1)
        then Asleep ∈ window_notes w
        else Asleep ∉ window_notes w)
    /\ processCharacter decide clock character seconds st s
       = match decide character w with
         | None => (s1, Returned (failed_one st))
         | Some action =>
             match executeAction id action (clock id) s1 with
             | (s', Returned result) => (s', Returned (counted result st))
             | (s', Thrown _) => (s', Returned (failed_one st))
             end
         end.
Proof.
  intros Hc Hawake Hs. cbv zeta.
  destruct (updatePhysicalState_row s (character_id character) seconds c Hc Hs)
    as (c' & Hrun & _ & _ & _ & Fa & _).
  unfold processCharacter. rewrite (bind_returned _ _ _ _ _ Hrun).
  rewrite Hrun. unfold state_after; simpl.
  destruct (buildContextWindow_notes
              (with_characters
                 (<[character_id character := c']> (characters s)) s)
              (character_id character) c')
    as (w & Hw & Hnotes); [apply lookup_insert_eq|].
  rewrite (bind_returned _ _ _ _ _ Hw).
  exists w. split; [done|]. split.
  - rewrite Hnotes.
    assert (less (alertness c) 20 = false) as Hless by (by apply less_false).
    rewrite Hless in Fa.
    destruct (Qle_bool 100 (tiredness c + seconds / 600 * 1)) eqn:Hfull.
    + apply Qle_bool_iff in Hfull. rewrite (Qmin_100_l _ Hfull) in Fa.
      change (Qle_bool 100 100) with true in Fa.
      apply Asleep_noted, less_spec. rewrite fixed_Q_hundredths, Fa. done.
    + assert (tiredness c + seconds / 600 * 1 < 100)%Q as Hbelow.
      { apply Qnot_le_lt. intros Hle. apply Qle_bool_iff in Hle. congruence. }
      rewrite (Qmin_100_r _ Hbelow), Hfull in Fa.
      rewrite Asleep_noted, Fa, Hless. done.
  - destruct (decide character w) as [action|]; [|done].
    unfold bind, ret.
    by destruct (executeAction _ _ _ _) as [s' [result|e]].
Qed.

Lemma tick_decides_the_asleep_note_witness :
  exists w,
    buildContextWindow 20
      (state_after (updatePhysicalState 20 600 store_tired))
    = (state_after (updatePhysicalState 20 600 store_tired), Returned w)
    /\ Asleep ∈ window_notes w
    /\ processCharacter always_wait still_clock tired_mira 600
         {| totalActions := 0; successfulActions := 0; failedActions := 0;
            charactersProcessed := 0 |} store_tired
       = match always_wait tired_mira w with
         | None =>
             (state_after (updatePhysicalState 20 600 store_tired),
              Returned
                (failed_one
                   {| totalActions := 0; successfulActions := 0;
                      failedActions := 0; charactersProcessed := 0 |}))
         | Some action =>
             match
               executeAction 20 action (still_clock 20)
                 (state_after (updatePhysicalState 20 600 store_tired))
             with
             | (s', Returned result) =>
                 (s', Returned
                        (counted result
                           {| totalActions := 0; successfulActions := 0;
                              failedActions := 0; charactersProcessed := 0 |}))
             | (s', Thrown _) =>
                 (s', Returned
                        (failed_one
                           {| totalActions := 0; successfulActions := 0;
                              failedActions := 0; charactersProcessed := 0 |}))
             end
         end.
Proof.
  destruct (tick_decides_the_asleep_note always_wait still_clock tired_mira 600
              {| totalActions := 0; successfulActions := 0; failedActions := 0;
                 charactersProcessed := 0 |} store_tired tired_mira)
    as (w & Hw & Hnote & Hrun).
  - reflexivity.
  - unfold awake, Qle; simpl. lia.
  - unfold Qle; simpl. lia.
  - exists w. split; [exact Hw|].
    change (Qle_bool 100 (tiredness tired_mira + 600 / 600 * 1)) with true
      in Hnote.
    split; [exact Hnote | exact Hrun].
Defined.

Lemma fold_place_item (items : list Item) :
  forall acc : InventoryContext,
    pockets (fold_left place_item items acc)
    = (pockets acc
       ++ map pocketed
            (List.filter
               (fun i => negb (in_hand "right hand" i)
                         && negb (in_hand "left hand" i)) items))%list
    /\ right_hand (fold_left place_item items acc)
       = match last (List.filter (in_hand "right hand") items) with
         | Some i => Some (shown i)
         | None => right_hand acc
         end
    /\ left_hand (fold_left place_item items acc)
       = match last (List.filter (in_hand "left hand") items) with
         | Some i => Some (shown i)
         | None => left_hand acc
         end.
Proof.
  induction items as [|i rest IH]; intros acc; simpl.
  - by rewrite app_nil_r.
  - destruct (IH (place_item acc i)) as (-> & -> & ->). clear IH.
    unfold place_item, in_hand.
    destruct (bool_decide (held_location i = Some "right hand")) eqn:Hright.
    + apply bool_decide_eq_true in Hright.
      rewrite (bool_decide_eq_false_2 (held_location i = Some "left hand"))
        by (rewrite Hright; done).
      simpl. split; [done|]. split; [|done].
      rewrite last_cons. by destruct (last _).
    + destruct (bool_decide (held_location i = Some "left hand")); simpl.
      * split; [done|]. split; [done|].
        rewrite last_cons. by destruct (last _).
      * by rewrite <- app_assoc.
Qed.

(** X19: the inventory section lists under [pockets], in order, the items
    that are in neither hand, and shows for each hand the last of the
    items held there: of two items in one hand, the first is not shown. *)
Theorem buildInventoryContext_shows (items : list Item) :
  pockets (buildInventoryContext items)
  = map pocketed
      (List.filter
         (fun i => negb (in_hand "right hand" i)
                   && negb (in_hand "left hand" i)) items)
  /\ right_hand (buildInventoryContext items)
     = shown <$> last (List.filter (in_hand "right hand") items)
  /\ left_hand (buildInventoryContext items)
     = shown <$> last (List.filter (in_hand "left hand") items).
Proof.
  unfold buildInventoryContext.
  destruct (fold_place_item items
              {| right_hand := None; left_hand := None; pockets := [] |})
    as (-> & -> & ->).
  simpl. split; [done|]. by split; destruct (last _).
Qed.

(** * The actions of an agent *)

Lemma truthy_string_Some (o : option string) :
  truthy_string o = true <-> exists t, o = Some t /\ t <> "".
Proof.
  destruct o as [t|]; simpl.
  - rewrite negb_true_iff, String.eqb_neq. split.
    + intros Hne. by exists t.
    + by intros (t' & [= <-] & Hne).
  - split; [done|]. by intros (t & Hno & _).
Qed.

Lemma truthy_number_Some (o : option Z) :
  truthy_number o = true <-> exists n, o = Some n /\ n <> 0.
Proof.
  destruct o as [n|]; simpl.
  - rewrite negb_true_iff, Z.eqb_neq. split.
    + intros Hne. by exists n.
    + by intros (n' & [= <-] & Hne).
  - split; [done|]. by intros (n & Hno & _).
Qed.

(** The ways [character_move] ends on a character that is there: with
    the character placed, or refused by the database with nothing
    changed. *)
Lemma character_move_cases (s : Store) (args : Args) (c : Character) (a : Z) :
  characters s !! arg_character_id args = Some c ->
  arg_area_id args = Some a ->
  (character_current_area_id
     <$> characters (state_after (character_move args s))
         !! arg_character_id args) = Some (Some a)
  \/ (exists e, character_move args s = (s, Thrown e)).
Proof.
  intros Hc Ha. destruct (areas s !! a) as [area|] eqn:Harea.
  - left. destruct (character_move_run s args c a area Hc Ha Harea)
      as (-> & _). by rewrite lookup_insert_eq.
  - right. unfold character_move.
    rewrite (bind_returned _ _ _ _ _ (Character_findById_run _ s)), Hc, Ha.
    simpl fmap.
    pose proof (Character_update_area (arg_character_id args) a s) as Hup.
    rewrite Hc, Harea in Hup.
    rewrite (bind_thrown _ _ _ _ _ Hup). eauto.
Qed.

Lemma executeMoveAction_cases (s : Store) (c : Character) (action : Action) :
  characters s !! character_id c = Some c ->
  let r := executeMoveAction c action s in
  match snd r with
  | Returned (Moved dir from to _) =>
      from = character_current_area_id c
      /\ went s (state_after r) c action dir to
  | Returned (Failed _) => state_after r = s
  | Returned _ => False
  | Thrown _ =>
      state_after r = s
      \/ exists dir to, went s (state_after r) c action dir to
  end.
Proof.
  intros Hc. cbv zeta. unfold executeMoveAction.
  destruct (truthy_string (action_direction action)) eqn:Hdir; simpl;
    [|done].
  apply truthy_string_Some in Hdir as (dir & Hdir & Hne). rewrite Hdir; simpl.
  destruct (truthy_number (character_current_area_id c)) eqn:Hhere; simpl;
    [|done].
  apply truthy_number_Some in Hhere as (here & Hhere & Hne0).
  rewrite Hhere; simpl.
  rewrite (bind_returned _ _ _ _ _ (Area_findById_run here s)).
  destruct (areas s !! here) as [area|] eqn:Harea; [|done].
  destruct (truthy_number (exits area !! toLowerCase dir)) eqn:Hexit; simpl;
    [|done].
  apply truthy_number_Some in Hexit as (to & Hexit & Hto). rewrite Hexit.
  unfold handleCharacterTool; simpl.
  match goal with
  | |- context [bind (character_move ?args) _ s] =>
      destruct (character_move_cases s args c to Hc eq_refl)
        as [Hrow|(e & Hrun)];
      [destruct (character_move args s) as [s2 [response|e]] eqn:Hrun|]
  end.
  - rewrite (bind_returned _ _ _ _ _ Hrun). simpl. split; [done|].
    by exists here, area.
  - rewrite (bind_thrown _ _ _ _ _ Hrun). simpl. right.
    by exists dir, to, here, area.
  - rewrite (bind_thrown _ _ _ _ _ Hrun). by left.
Qed.

(** The move of an agent along an exit to an area that is there, the
    entrance passing in silence. *)
Lemma executeMoveAction_moves (s : Store) (c : Character) (action : Action)
    (here to : Z) (area target : Area) (dir : string) :
  characters s !! character_id c = Some c ->
  character_current_area_id c = Some here -> here <> 0 ->
  areas s !! here = Some area ->
  action_direction action = Some dir -> dir <> "" ->
  exits area !! toLowerCase dir = Some to -> to <> 0 ->
  areas s !! to = Some target ->
  silent s to "character_enters" (enters (character_id c)) ->
  exists descr,
    snd (executeMoveAction c action s)
    = Returned (Moved dir (Some here) to descr).
Proof.
  intros Hc Hhere Hne0 Harea Hdir Hne Hexit Hto Htarget Hsilent.
  unfold executeMoveAction. rewrite Hdir, Hhere. simpl.
  destruct (String.eqb_spec dir "") as [|_]; [done|]. simpl.
  destruct (Z.eqb_spec here 0) as [|_]; [done|]. simpl.
  rewrite (bind_returned _ _ _ _ _ (Area_findById_run here s)), Harea, Hexit.
  simpl. destruct (Z.eqb_spec to 0) as [|_]; [done|]. simpl.
  unfold handleCharacterTool; simpl.
  match goal with
  | |- context [bind (character_move ?args) _ s] =>
      destruct (character_move_run s args c to target Hc eq_refl Htarget)
        as (_ & _ & Hend)
  end.
  simpl in Hend.
  rewrite executeTriggers_silent in Hend
    by (by apply (silent_same_areas s)).
  destruct Hend as [response Hend].
  match goal with
  | |- context [bind (character_move ?args) _ s] =>
      destruct (character_move args s) as [s2 [r|e]] eqn:Hrun; [|done]
  end.
  rewrite (bind_returned _ _ _ _ _ Hrun). simpl. eauto.
Qed.

(** X20: an agent's move goes along an exit.  For a character stored
    under its id the [move] action never throws.  When it reports a
    move, the direction names, in lower case, an exit of the character's
    area to the reported target, and the character is stored in that
    target.  When it fails, either nothing has changed, or the character
    went along the exit and a trigger of the target threw.  And a move
    along an exit to an area that is there, the entrance passing in
    silence, is reported as a move. *)
Theorem move_action_follows_an_exit (s : Store) (id : Z) (action : Action)
    (now : string) (c : Character) :
  characters s !! id = Some c ->
  character_id c = id ->
  action_name action = "move" ->
  let r := executeAction id action now s in
  match snd r with
  | Returned (Moved dir from to _) =>
      from = character_current_area_id c
      /\ went s (state_after r) c action dir to
  | Returned (Failed _) =>
      state_after r = s
      \/ exists dir to, went s (state_after r) c action dir to
  | _ => False
  end
  /\ forall (here to : Z) (area target : Area) (dir : string),
       character_current_area_id c = Some here -> here <> 0 ->
       areas s !! here = Some area ->
       action_direction action = Some dir -> dir <> "" ->
       exits area !! toLowerCase dir = Some to -> to <> 0 ->
       areas s !! to = Some target ->
       silent s to "character_enters" (enters id) ->
       exists descr, snd r = Returned (Moved dir (Some here) to descr).
Proof.
  intros Hc <- Hname. cbv zeta. unfold executeAction.
  rewrite (bind_returned _ _ _ _ _ (Character_findById_run _ s)), Hc.
  rewrite Hname; simpl.
  pose proof (executeMoveAction_cases s c action Hc) as Hcases.
  cbv zeta in Hcases. split.
  - destruct (executeMoveAction c action s) as [s' [[]|e]]; simpl in *;
      try done. by left.
  - intros here to area target dir Hhere Hne0 Harea Hdir Hne Hexit Hto
      Htarget Hsilent.
    destruct (executeMoveAction_moves s c action here to area target dir
                Hc Hhere Hne0 Harea Hdir Hne Hexit Hto Htarget Hsilent)
      as [descr Hrun].
    exists descr.
    destruct (executeMoveAction c action s) as [s' [res|e]]; simpl in *;
      congruence.
Qed.

Lemma move_action_follows_an_exit_witness :
  exists descr,
    snd (executeAction 20 go_north "t1" store_with_exit)
    = Returned (Moved "North" (Some 10) 11 descr).
Proof.
  destruct (move_action_follows_an_exit store_with_exit 20 go_north "t1"
              (sample_character "minor" [] (Some 10) None)
              eq_refl eq_refl eq_refl) as [_ Hmoves].
  apply (Hmoves 10 11
           {| area_id := 10; area_world_id := 1; area_name := "Hall";
              description := "A bare hall."; temperature := degrees 20;
              exits := {[ "north" := 11 ]}; triggers := [] |}
           (sample_area 11 1 []) "North").
  - reflexivity.
  - intros Heq; discriminate Heq.
  - reflexivity.
  - reflexivity.
  - intros Heq; discriminate Heq.
  - reflexivity.
  - intros Heq; discriminate Heq.
  - reflexivity.
  - reflexivity.
Defined.

(** ** Computations that fail without a change *)

Lemma reads_ret {A} (a : A) : reads (ret a).
Proof. intros s. by exists a. Qed.

Lemma reads_gets {A} (f : Store -> A) : reads (gets f).
Proof. intros s. by exists (f s). Qed.

Lemma reads_bind {A B} (c : M A) (k : A -> M B) :
  reads c -> (forall a, reads (k a)) -> reads (bind c k).
Proof.
  intros Hc Hk s. destruct (Hc s) as [a Ha].
  rewrite (bind_returned _ _ _ _ _ Ha). apply Hk.
Qed.

Lemma returns_reads {A} (c : M A) : reads c -> returns c.
Proof. intros Hc s. destruct (Hc s) as [a Ha]. eauto. Qed.

Lemma foreign_returns {A} (c : M A) : returns c -> foreign c.
Proof. intros Hc s s' e He. destruct (Hc s) as (s1 & a & Ha). congruence. Qed.

Lemma foreign_throw {A} (e : Error) :
  kind_of e = OtherError -> foreign (@throw A e).
Proof. by intros He s s' e' [= _ <-]. Qed.

Lemma foreign_bind {A B} (c : M A) (k : A -> M B) :
  foreign c -> (forall a, foreign (k a)) -> foreign (bind c k).
Proof.
  intros Hc Hk s s' e. unfold bind.
  destruct (c s) as [s1 [a|e1]] eqn:Hrun.
  - apply Hk.
  - intros [= <- <-]. by apply (Hc _ _ _ Hrun).
Qed.

Lemma graceful_foreign {A} (c : M A) : foreign c -> graceful c.
Proof. intros Hc s s' e He. left. by apply (Hc _ _ _ He). Qed.

Lemma graceful_throw {A} (e : Error) : graceful (@throw A e).
Proof. intros s s' e' [= <- _]. by right. Qed.

Lemma graceful_bind {A B} (c : M A) (k : A -> M B) :
  reads c -> (forall a, graceful (k a)) -> graceful (bind c k).
Proof.
  intros Hc Hk s s' e. destruct (Hc s) as [a Ha].
  rewrite (bind_returned _ _ _ _ _ Ha). apply Hk.
Qed.

Lemma reads_Character_findById (id : Z) : reads (Character_findById id).
Proof. intros s. eexists. apply Character_findById_run. Qed.

Lemma reads_Item_findById (id : Z) : reads (Item_findById id).
Proof. intros s. eexists. apply Item_findById_run. Qed.

Lemma reads_Area_findById (id : Z) : reads (Area_findById id).
Proof. intros s. eexists. apply Area_findById_run. Qed.

Lemma reads_Character_getInventory (id : Z) :
  reads (Character_getInventory id).
Proof. intros s. by eexists. Qed.

Lemma reads_Character_findAwake (world : Z) : reads (Character_findAwake world).
Proof. intros s. by eexists. Qed.

Lemma reads_Area_getItems (area : Z) : reads (Area_getItems area).
Proof. intros s. by eexists. Qed.

Lemma item_misfit_kind (name location : option string) (e : Error) :
  item_misfit name location = Some e -> kind_of e = OtherError.
Proof.
  apply first_error_kind. repeat constructor; eauto using too_long_kind.
Qed.

Lemma item_violation_kind (area holder : option (option Z))
    (areas : gmap Z Area) (characters : gmap Z Character) (e : Error) :
  item_violation area holder areas characters = Some e ->
  kind_of e = OtherError.
Proof.
  apply first_error_kind. repeat constructor; eauto using no_row_kind.
Qed.

Lemma area_misfit_kind (data : AreaData) (e : Error) :
  area_misfit data = Some e -> kind_of e = OtherError.
Proof.
  apply first_error_kind.
  repeat constructor; eauto using too_long_kind, overflows_kind.
Qed.

Lemma foreign_Character_update (id : Z) (data : CharacterData) :
  foreign (Character_update id data).
Proof.
  intros s s' e. rewrite Character_update_eq.
  destruct (no_character_fields data); [done|].
  destruct (character_misfit data) eqn:Hfit;
    [intros [= _ <-]; by apply (character_misfit_kind data)|].
  destruct (characters s !! id); [|done].
  destruct (character_violation data (areas s)) eqn:Hvio; [|done].
  intros [= _ <-]. by apply (character_violation_kind data (areas s)).
Qed.

Lemma foreign_Item_update (id : Z) (data : ItemData) :
  foreign (Item_update id data).
Proof.
  intros s s' e. rewrite Item_update_eq.
  destruct (no_item_fields data); [done|].
  destruct (item_misfit _ _) eqn:Hfit;
    [intros [= _ <-]; by apply (item_misfit_kind _ _ _ Hfit)|].
  destruct (items s !! id); [|done].
  destruct (item_violation _ _ _ _) eqn:Hvio; [|done].
  intros [= _ <-]. by apply (item_violation_kind _ _ _ _ _ Hvio).
Qed.

Lemma foreign_Area_update (id : Z) (data : AreaData) :
  foreign (Area_update id data).
Proof.
  intros s s' e. rewrite Area_update_eq.
  destruct (no_area_fields data); [done|].
  destruct (area_misfit data) eqn:Hfit;
    [intros [= _ <-]; by apply (area_misfit_kind data)|].
  by destruct (areas s !! id).
Qed.

Lemma returns_Character_addMemory (id : Z) (act res : string) (cap : nat)
    (now : string) :
  returns (Character_addMemory id act res cap now).
Proof.
  intros s.
  destruct (Character_addMemory_run id act res now cap s) as (rows & o & Hrun & _).
  eauto.
Qed.

Lemma returns_reply (text : string) : returns (reply text).
Proof. apply returns_reads, reads_ret. Qed.

Create HintDb flow.

#[local] Hint Resolve reads_ret reads_gets reads_Character_findById
  reads_Item_findById reads_Area_findById reads_Character_getInventory
  reads_Character_findAwake reads_Area_getItems : flow.

#[local] Hint Resolve foreign_Character_update foreign_Item_update
  foreign_Area_update graceful_throw : flow.

(** The steps that are the same for every tool: a chain of operations
    none of which throws an error of the taxonomy; or a read and then a
    case. *)
Ltac foreign_tac :=
  repeat first
    [ solve [eauto with flow]
    | apply foreign_returns; solve [eauto using returns_reads with flow]
    | apply foreign_throw; reflexivity
    | apply foreign_bind; [|intros ?]
    | match goal with
      | |- foreign (if ?b then _ else _) => destruct b
      | |- foreign (match ?x with _ => _ end) => destruct x
      end ].

Lemma foreign_Item_create (world : Z) (name : option string)
    (descr props : string) (area holder : option Z)
    (location : option string) :
  foreign (Item_create world name descr props area holder location).
Proof.
  unfold Item_create.
  destruct (item_misfit name location) eqn:Hfit;
    [intros s s' e' [= _ <-]; by apply (item_misfit_kind _ _ _ Hfit)|].
  apply foreign_bind; [by apply foreign_returns; intros s; eexists _, _|].
  intros id. destruct name; [|by apply foreign_throw].
  apply foreign_bind; [apply foreign_returns, returns_reads, reads_gets|].
  intros worlds.
  apply foreign_bind; [apply foreign_returns, returns_reads, reads_gets|].
  intros areas.
  apply foreign_bind; [apply foreign_returns, returns_reads, reads_gets|].
  intros characters.
  destruct (negb _); [by apply foreign_throw|].
  destruct (item_violation _ _ _ _) eqn:Hvio;
    [intros st st' e' [= _ <-]; by apply (item_violation_kind _ _ _ _ _ Hvio)|].
  apply foreign_bind; [by apply foreign_returns; intros st; eexists _, _|].
  intros _. apply foreign_returns, returns_reads, reads_ret.
Qed.

Lemma foreign_Item_delete (id : Z) : foreign (Item_delete id).
Proof. apply foreign_returns. intros s. by eexists _, _. Qed.

#[local] Hint Resolve foreign_Item_create foreign_Item_delete : flow.

Lemma foreign_executeReaction (areaId : Z) (area : option Area)
    (u : AreaData) (reaction : Reaction) :
  foreign (executeReaction areaId area u reaction).
Proof. unfold executeReaction, deref. foreign_tac. Qed.

Lemma foreign_executeReactions_loop (areaId : Z) (area : option Area)
    (reactions : list Reaction) :
  forall u, foreign (executeReactions_loop areaId area u reactions).
Proof.
  induction reactions as [|reaction rest IH]; intros u; simpl.
  - foreign_tac.
  - apply foreign_bind; [apply foreign_executeReaction | apply IH].
Qed.

Lemma foreign_executeReactions (areaId : Z) (reactions : list Reaction)
    (eventData : EventData) :
  foreign (executeReactions areaId reactions eventData).
Proof.
  unfold executeReactions. destruct reactions; [foreign_tac|].
  apply foreign_bind; [foreign_tac|]. intros area.
  apply foreign_bind; [apply foreign_executeReactions_loop|]. intros u.
  foreign_tac.
Qed.

#[local] Hint Resolve foreign_executeReactions : flow.

Lemma foreign_for_each {A} (l : list A) (body : A -> M unit) :
  (forall x, foreign (body x)) -> foreign (for_each l body).
Proof.
  intros Hbody. induction l as [|x rest IH]; simpl.
  - apply foreign_returns, returns_reads, reads_ret.
  - apply foreign_bind; [apply Hbody | intros _; apply IH].
Qed.

Lemma scan_throws (eventType : string) (eventData : EventData)
    (l : list (nat * Trigger)) (e : Error) :
  scan eventType eventData l = Thrown e -> kind_of e = OtherError.
Proof.
  induction l as [|p rest IH]; simpl; [done|].
  unfold shouldTriggerFire at 1.
  destruct (condition (snd p)); try (destruct (scan _ _ rest); by eauto).
  by intros [= <-].
Qed.

Lemma foreign_executeTriggers (areaId : Z) (eventType : string)
    (eventData : EventData) :
  foreign (executeTriggers areaId eventType eventData).
Proof.
  unfold executeTriggers.
  apply foreign_bind; [foreign_tac|].
  intros [area|]; [|foreign_tac].
  destruct (triggers area); [foreign_tac|].
  destruct (scan _ _ _) as [matched|e] eqn:Hscan.
  - apply foreign_for_each. intros p. unfold fire. cbv zeta.
    apply foreign_bind; [by apply foreign_returns; intros s; eexists _, _|].
    intros _. foreign_tac.
  - apply foreign_throw. by apply (scan_throws _ _ _ _ Hscan).
Qed.

#[local] Hint Resolve foreign_executeTriggers : flow.

Ltac graceful_tac :=
  repeat first
    [ solve [eauto with flow]
    | apply graceful_bind; [solve [eauto with flow]|intros ?]
    | match goal with
      | |- graceful (if ?b then _ else _) => destruct b
      | |- graceful (match ?x with _ => _ end) => destruct x
      end
    | apply graceful_foreign; foreign_tac ].

Lemma graceful_character_update_state (args : Args) :
  graceful (character_update_state args).
Proof.
  intros s s' e. unfold character_update_state. cbv zeta. unfold bind.
  match goal with
  | |- context [Character_update ?id ?data s] =>
      pose proof (foreign_Character_update id data s) as Hforeign;
      pose proof (Character_update_eq id data s) as Heq;
      destruct (Character_update id data s) as [s1 [[c'|]|e1]] eqn:Hrun
  end.
  - done.
  - intros [= <- _]. right.
    revert Heq. repeat case_match; congruence.
  - intros [= <- <-]. left. by apply (Hforeign _ _ eq_refl).
Qed.

Lemma graceful_handleCharacterTool (name : string) (args : Args) (now : string) :
  graceful (handleCharacterTool name args now).
Proof.
  unfold handleCharacterTool.
  repeat match goal with
         | |- graceful (if ?b then _ else _) => destruct b
         end;
    try apply graceful_character_update_state;
    unfold character_get, character_list_awake, character_move,
      character_speak, character_get_inventory, character_add_memory, reply;
    graceful_tac.
Qed.

Lemma graceful_handleItemTool (name : string) (args : Args) (now : string) :
  graceful (handleItemTool name args now).
Proof.
  unfold handleItemTool.
  repeat match goal with
         | |- graceful (if ?b then _ else _) => destruct b
         end;
    unfold item_get, item_pickup, item_drop, item_create,
      Item_giveToCharacter, Item_moveToArea, reply;
    graceful_tac.
Qed.

(** X21: a character tool or an item tool that fails with an error of
    the taxonomy of the specification (not found, not here, not holding,
    no area) has changed nothing: every check of a tool comes before its
    first write.  What is thrown after a write comes from the database
    or from a trigger, and is no error of the taxonomy. *)
Theorem failed_tool_changes_nothing (name : string) (args : Args)
    (now : string) (s : Store) :
  match snd (handleCharacterTool name args now s) with
  | Thrown e =>
      kind_of e = OtherError
      \/ state_after (handleCharacterTool name args now s) = s
  | Returned _ => True
  end
  /\ match snd (handleItemTool name args now s) with
     | Thrown e =>
         kind_of e = OtherError
         \/ state_after (handleItemTool name args now s) = s
     | Returned _ => True
     end.
Proof.
  split.
  - destruct (handleCharacterTool name args now s) as [s' [r|e]] eqn:Hrun;
      [done|]. apply (graceful_handleCharacterTool _ _ _ _ _ _ Hrun).
  - destruct (handleItemTool name args now s) as [s' [r|e]] eqn:Hrun;
      [done|]. apply (graceful_handleItemTool _ _ _ _ _ _ Hrun).
Qed.

(** ** Actions that fail without a change *)

Lemma mild_failed (error : string) : mild (ret (Failed error)).
Proof. by intros s. Qed.

Lemma mild_bind {A} (c : M A) (k : A -> M ActionResult) :
  reads c -> (forall a, mild (k a)) -> mild (bind c k).
Proof.
  intros Hc Hk s. destruct (Hc s) as [a Ha].
  rewrite (bind_returned _ _ _ _ _ Ha). apply Hk.
Qed.

Lemma mild_then {A} (c : M A) (r : ActionResult) :
  graceful c ->
  match r with Failed _ => False | _ => True end ->
  mild (c ;; ret r).
Proof.
  intros Hc Hr s. unfold bind.
  destruct (c s) as [s' [a|e]] eqn:Hrun; simpl.
  - by destruct r.
  - by apply (Hc _ _ _ Hrun).
Qed.

Lemma mild_executeMoveAction (c : Character) (action : Action) :
  mild (executeMoveAction c action).
Proof.
  unfold executeMoveAction.
  destruct (negb _); [apply mild_failed|].
  destruct (negb _); [apply mild_failed|].
  apply mild_bind; [apply reads_Area_findById|].
  intros [area|]; [|apply mild_failed].
  destruct (negb _); [apply mild_failed|].
  by apply mild_then; [apply graceful_handleCharacterTool|].
Qed.

Lemma mild_executeSpeakAction (c : Character) (action : Action)
    (now : string) :
  mild (executeSpeakAction c action now).
Proof.
  unfold executeSpeakAction.
  destruct (negb _); [apply mild_failed|].
  by apply mild_then; [apply graceful_handleCharacterTool|].
Qed.

Lemma mild_executePickupAction (c : Character) (action : Action)
    (now : string) :
  mild (executePickupAction c action now).
Proof.
  unfold executePickupAction.
  destruct (negb _); [apply mild_failed|].
  destruct (negb _); [apply mild_failed|].
  apply mild_bind; [apply reads_Area_getItems|]. intros items.
  destruct (List.find _ items) as [item|]; [|apply mild_failed].
  apply mild_bind; [apply reads_Character_getInventory|]. intros inventory.
  destruct (negb (hand_taken "right hand" inventory));
    [|destruct (negb (hand_taken "left hand" inventory));
      [|apply mild_failed]];
    by apply mild_then; [apply graceful_handleItemTool|].
Qed.

Lemma mild_executeDropAction (c : Character) (action : Action)
    (now : string) :
  mild (executeDropAction c action now).
Proof.
  unfold executeDropAction.
  destruct (negb _); [apply mild_failed|].
  apply mild_bind; [apply reads_Character_getInventory|]. intros inventory.
  destruct (List.find _ inventory) as [item|]; [|apply mild_failed].
  by apply mild_then; [apply graceful_handleItemTool|].
Qed.

Lemma mild_executeWaitAction (c : Character) (action : Action)
    (now : string) :
  mild (executeWaitAction c action now).
Proof.
  unfold executeWaitAction.
  by apply mild_then;
    [apply graceful_foreign, foreign_returns, returns_Character_addMemory|].
Qed.

Lemma mild_executeSleepAction (c : Character) (action : Action) :
  mild (executeSleepAction c action).
Proof.
  unfold executeSleepAction.
  by apply mild_then; [apply graceful_handleCharacterTool|].
Qed.

(** X22: [executeAction] throws only for a character that does not
    exist, and then nothing has changed; for one that does, an error
    thrown by the action is caught and becomes a failed result with the
    message of the error.  An action that fails has changed nothing,
    unless what it reports is an error of the database or of a trigger,
    thrown after a write. *)
Theorem failed_action_changes_nothing (id : Z) (action : Action)
    (now : string) (s : Store) :
  let r := executeAction id action now s in
  match characters s !! id with
  | Some _ => succeeded r
  | None => failed_with r (CharacterNotFound id)
  end
  /\ match snd r with
     | Returned (Failed error) =>
         state_after r = s
         \/ exists e, kind_of e = OtherError /\ error = message e
     | Returned _ => True
     | Thrown _ => state_after r = s
     end.
Proof.
  cbv zeta. unfold executeAction.
  rewrite (bind_returned _ _ _ _ _ (Character_findById_run _ s)).
  destruct (characters s !! id) as [c|]; [|done].
  match goal with
  | |- context [(if ?b then ?x else ?y) s] => set (run := if b then x else y)
  end.
  assert (mild run) as Hmild; [subst run|].
  2: specialize (Hmild s); destruct (run s) as [s' [r|e]].
  { repeat match goal with
           | |- mild (if ?b then _ else _) => destruct b
           end;
      auto using mild_executeMoveAction, mild_executeSpeakAction,
        mild_executePickupAction, mild_executeDropAction,
        mild_executeWaitAction, mild_executeSleepAction, mild_failed. }
  - split; [by eexists|]. destruct r; try done. by left.
  - split; [by eexists|]. simpl in *. destruct Hmild as [Hkind|Hsame].
    + right. by exists e.
    + by left.
Qed.

(** ** Picking up as an agent *)

Lemma elem_of_getInventory (s : Store) (id : Z) (i : Item) :
  i ∈ rows_of (Character_getInventory id s)
  <-> exists k, items s !! k = Some i /\ held_by_character_id i = Some id.
Proof.
  unfold rows_of; simpl. by rewrite elem_of_selected.
Qed.

Lemma elem_of_getItems (s : Store) (area : Z) (i : Item) :
  i ∈ rows_of (Area_getItems area s)
  <-> exists k, items s !! k = Some i /\ item_current_area_id i = Some area.
Proof.
  unfold rows_of; simpl. by rewrite elem_of_selected.
Qed.

Lemma Area_getItems_run (area : Z) (s : Store) :
  Area_getItems area s = (s, Returned (rows_of (Area_getItems area s))).
Proof. reflexivity. Qed.

Lemma Character_getInventory_run (id : Z) (s : Store) :
  Character_getInventory id s
  = (s, Returned (rows_of (Character_getInventory id s))).
Proof. reflexivity. Qed.

Lemma hand_taken_false (s : Store) (id : Z) (hand : string) :
  hand_taken hand (rows_of (Character_getInventory id s)) = false ->
  forall k i, items s !! k = Some i ->
              held_by_character_id i = Some id ->
              held_location i <> Some hand.
Proof.
  intros Hfree k i Hi Hheld Hloc.
  assert (hand_taken hand (rows_of (Character_getInventory id s)) = true)
    as Htaken; [|congruence].
  apply existsb_exists. exists i. split.
  - apply list_elem_of_In, elem_of_getInventory. eauto.
  - by apply bool_decide_eq_true.
Qed.

Lemma hand_taken_true (s : Store) (id : Z) (hand : string) (k : Z) (i : Item) :
  items s !! k = Some i ->
  held_by_character_id i = Some id ->
  held_location i = Some hand ->
  hand_taken hand (rows_of (Character_getInventory id s)) = true.
Proof.
  intros Hi Hheld Hloc. apply existsb_exists. exists i. split.
  - apply list_elem_of_In, elem_of_getInventory. eauto.
  - by apply bool_decide_eq_true.
Qed.

Lemma executePickupAction_picked (s s' : Store) (c : Character)
    (action : Action) (now name location d : string) :
  executePickupAction c action now s = (s', Returned (PickedUp name location d)) ->
  (location = "right hand" \/ location = "left hand")
  /\ (forall k i, items s !! k = Some i ->
                  held_by_character_id i = Some (character_id c) ->
                  held_location i <> Some location)
  /\ exists k i, items s !! k = Some i /\ item_name i = name
                 /\ item_current_area_id i = character_current_area_id c
                 /\ name_matches (default "" (action_item action)) i = true.
Proof.
  unfold executePickupAction.
  destruct (negb (truthy_string _)); [by intros [=]|].
  destruct (truthy_number (character_current_area_id c)) eqn:Harea;
    [|by intros [=]].
  apply truthy_number_Some in Harea as (area & Harea & _).
  rewrite Harea. simpl.
  rewrite (bind_returned _ _ _ _ _ (Area_getItems_run area s)).
  destruct (List.find _ _) as [item|] eqn:Hfind; [|by intros [=]].
  apply find_some in Hfind as [Hin Hmatch].
  apply list_elem_of_In, elem_of_getItems in Hin as (k & Hk & Hthere).
  rewrite (bind_returned _ _ _ _ _ (Character_getInventory_run _ s)).
  destruct (hand_taken "right hand" _) eqn:Hright; simpl.
  - destruct (hand_taken "left hand" _) eqn:Hleft; simpl; [by intros [=]|].
    unfold bind. destruct (handleItemTool _ _ _ s) as [s1 [r|e]]; [|by intros [=]].
    intros [= <- <- <- <-]. split; [by right|].
    split; [by apply hand_taken_false|]. eauto 10.
  - unfold bind. destruct (handleItemTool _ _ _ s) as [s1 [r|e]]; [|by intros [=]].
    intros [= <- <- <- <-]. split; [by left|].
    split; [by apply hand_taken_false|]. eauto 10.
Qed.

(** X23: an agent picks up into a free hand.  When the [pickup] action
    of a character reports a pickup, the reported hand is the right or
    the left one, the character held nothing there before, and the item's
    name is that of an item of the character's area that matches the
    wanted name. *)
Theorem pickup_action_takes_a_free_hand (s : Store) (id : Z)
    (action : Action) (now : string) (c : Character)
    (name location d : string) :
  characters s !! id = Some c ->
  character_id c = id ->
  action_name action = "pickup" ->
  snd (executeAction id action now s) = Returned (PickedUp name location d) ->
  (location = "right hand" \/ location = "left hand")
  /\ (forall k i, items s !! k = Some i ->
                  held_by_character_id i = Some id ->
                  held_location i <> Some location)
  /\ exists k i, items s !! k = Some i /\ item_name i = name
                 /\ item_current_area_id i = character_current_area_id c
                 /\ name_matches (default "" (action_item action)) i = true.
Proof.
  intros Hc <- Hname. unfold executeAction.
  rewrite (bind_returned _ _ _ _ _ (Character_findById_run _ s)), Hc.
  rewrite Hname; simpl.
  destruct (executePickupAction c action now s) as [s' [r|e]] eqn:Hrun;
    simpl; [|done].
  intros [= ->]. by apply (executePickupAction_picked _ _ _ _ _ _ _ _ Hrun).
Qed.

Lemma pickup_action_takes_a_free_hand_witness :
  ("left hand" = "right hand" \/ "left hand" = "left hand")
  /\ (forall k i, items store_hand_full !! k = Some i ->
                  held_by_character_id i = Some 20 ->
                  held_location i <> Some "left hand")
  /\ exists k i, items store_hand_full !! k = Some i /\ item_name i = "Torch"
                 /\ item_current_area_id i = Some 10
                 /\ name_matches "torch" i = true.
Proof.
  apply (pickup_action_takes_a_free_hand store_hand_full 20 take_torch "t1"
           (sample_character "minor" [] (Some 10) None)
           "Torch" "left hand" "Mira picked up Torch in left hand").
  - reflexivity.
  - reflexivity.
  - reflexivity.
  - vm_compute. reflexivity.
Defined.

(** X24: with an item in each hand, the [pickup] action of a character
    in an area where a matching item lies fails with "Both hands are
    full" and changes nothing. *)
Theorem pickup_action_refuses_full_hands (s : Store) (id : Z)
    (action : Action) (now wanted : string) (c : Character) (area : Z)
    (k kr kl : Z) (i ir il : Item) :
  characters s !! id = Some c ->
  character_id c = id ->
  action_name action = "pickup" ->
  action_item action = Some wanted -> wanted <> "" ->
  character_current_area_id c = Some area -> area <> 0 ->
  items s !! k = Some i -> item_current_area_id i = Some area ->
  name_matches wanted i = true ->
  items s !! kr = Some ir -> held_by_character_id ir = Some id ->
  held_location ir = Some "right hand" ->
  items s !! kl = Some il -> held_by_character_id il = Some id ->
  held_location il = Some "left hand" ->
  executeAction id action now s = (s, Returned (Failed "Both hands are full")).
Proof.
  intros Hc <- Hname Hitem Hwanted Harea Hne Hi Hthere Hmatch
    Hr Hrheld Hrloc Hl Hlheld Hlloc.
  unfold executeAction.
  rewrite (bind_returned _ _ _ _ _ (Character_findById_run _ s)), Hc.
  rewrite Hname; simpl. unfold executePickupAction.
  assert (truthy_string (action_item action) = true) as ->
    by (apply truthy_string_Some; eauto).
  assert (truthy_number (character_current_area_id c) = true) as ->
    by (apply truthy_number_Some; eauto).
  rewrite Hitem, Harea. simpl.
  rewrite (bind_returned _ _ _ _ _ (Area_getItems_run area s)).
  destruct (List.find _ _) as [item|] eqn:Hfind.
  2: { rewrite (find_none _ _ Hfind i) in Hmatch; [done|].
       apply list_elem_of_In, elem_of_getItems. eauto. }
  rewrite (bind_returned _ _ _ _ _ (Character_getInventory_run _ s)).
  rewrite (hand_taken_true s _ _ kr ir), (hand_taken_true s _ _ kl il) by done.
  done.
Qed.

Lemma pickup_action_refuses_full_hands_witness :
  executeAction 20 take_torch "t1" store_hands_full
  = (store_hands_full, Returned (Failed "Both hands are full")).
Proof.
  apply (pickup_action_refuses_full_hands store_hands_full 20 take_torch "t1"
           "torch" (sample_character "minor" [] (Some 10) None) 10
           30 31 32
           (sample_item 30 "Torch" (Some 10) None None)
           (sample_item 31 "Lamp" None (Some 20) (Some "right hand"))
           (sample_item 32 "Rope" None (Some 20) (Some "left hand")));
    first [reflexivity | done].
Defined.

(** ** Going to sleep *)

(** X25: the [sleep] action of a character stored under its id reports
    a sleep and stores an alertness of 0 with the other measures as they
    were, so that the scheduler leaves the character out from then on. *)
Theorem sleep_action_leaves_the_schedule (s : Store) (id : Z)
    (action : Action) (now : string) (c : Character) :
  characters s !! id = Some c ->
  character_id c = id ->
  action_name action = "sleep" ->
  let r := executeAction id action now s in
  snd r = Returned (Slept (character_name c ++ " goes to sleep"))
  /\ exists c',
       characters (state_after r) !! id = Some c'
       /\ (alertness c' : Q) = 0%Q
       /\ nutrition c' = nutrition c /\ hydration c' = hydration c
       /\ tiredness c' = tiredness c
       /\ forall world,
            c' ∉ rows_of (Character_findAIControllable world (state_after r)).
Proof.
  intros Hc <- Hname. cbv zeta. unfold executeAction.
  rewrite (bind_returned _ _ _ _ _ (Character_findById_run _ s)), Hc.
  rewrite Hname; simpl.
  unfold executeSleepAction, handleCharacterTool; simpl.
  match goal with
  | |- context [character_update_state ?args] =>
      pose proof (character_update_state_run s args c Hc) as Hrun
  end.
  cbv zeta in Hrun. simpl in Hrun. destruct Hrun as [[response Hok] Hstate].
  unfold bind.
  destruct (character_update_state _ s) as [s1 [r|e]]; [|done].
  unfold state_after in *; simpl in *. subst s1. simpl.
  split; [done|]. rewrite lookup_insert_eq. eexists. split; [done|].
  simpl. repeat (split; [done|]).
  intros world Hin. apply elem_of_findAIControllable in Hin
    as (k & _ & _ & _ & Hawake).
  unfold awake in Hawake. simpl in Hawake. by apply Qle_bool_iff in Hawake.
Qed.

Lemma sleep_action_leaves_the_schedule_witness :
  snd (executeAction 20 go_to_sleep "t1" store_adrift_ashore)
  = Returned (Slept "Mira goes to sleep")
  /\ exists c',
       characters
         (state_after (executeAction 20 go_to_sleep "t1" store_adrift_ashore))
         !! 20 = Some c'
       /\ (alertness c' : Q) = 0%Q
       /\ nutrition c' = percent 50 /\ hydration c' = percent 50
       /\ tiredness c' = percent 10
       /\ forall world,
            c' ∉ rows_of
                   (Character_findAIControllable world
                      (state_after
                         (executeAction 20 go_to_sleep "t1" store_adrift_ashore))).
Proof.
  exact (sleep_action_leaves_the_schedule store_adrift_ashore 20 go_to_sleep
           "t1" (sample_character "minor" [] (Some 10) None)
           eq_refl eq_refl eq_refl).
Defined.

(** * The cycle of the controller *)

Lemma only_row_refl (id : Z) (s : Store) : only_row id s s.
Proof. by split. Qed.

Lemma only_row_trans (id : Z) (s1 s2 s3 : Store) :
  only_row id s1 s2 -> only_row id s2 s3 -> only_row id s1 s3.
Proof.
  intros [H1 H1'] [H2 H2']. split.
  - intros k Hk. by rewrite H2, H1.
  - by rewrite H2'.
Qed.

Lemma only_row_same (id : Z) (s s' : Store) :
  characters s' = characters s -> only_row id s s'.
Proof. intros Hsame. split; by rewrite Hsame. Qed.

Lemma only_row_keyed (id : Z) (s s' : Store) :
  keyed s -> only_row id s s' -> keyed s'.
Proof.
  intros Hkey [Hother Hid] k c Hc. destruct (decide (k = id)) as [->|Hne].
  - rewrite Hc in Hid. simpl in Hid.
    destruct (characters s !! id) as [c0|] eqn:H0; [|done].
    injection Hid as ->. by apply Hkey.
  - rewrite Hother in Hc by done. by apply Hkey.
Qed.

Lemma spares_ret {A} (a : A) : spares (ret a).
Proof. by intros s. Qed.

Lemma spares_throw {A} (e : Error) : spares (@throw A e).
Proof. by intros s. Qed.

Lemma spares_gets {A} (f : Store -> A) : spares (gets f).
Proof. by intros s. Qed.

Lemma spares_bind {A B} (c : M A) (k : A -> M B) :
  spares c -> (forall a, spares (k a)) -> spares (bind c k).
Proof.
  intros Hc Hk s. unfold bind. specialize (Hc s).
  destruct (c s) as [s1 [a|e]]; simpl in *; [|done].
  by rewrite (Hk a s1).
Qed.

Lemma spares_set_areas (f : gmap Z Area -> gmap Z Area) : spares (set_areas f).
Proof. by intros s. Qed.

Lemma spares_set_items (f : gmap Z Item -> gmap Z Item) : spares (set_items f).
Proof. by intros s. Qed.

Lemma spares_next_item_id : spares next_item_id.
Proof. by intros s. Qed.

Lemma spares_executeTriggers (areaId : Z) (eventType : string)
    (eventData : EventData) :
  spares (executeTriggers areaId eventType eventData).
Proof.
  intros s.
  destruct (executeTriggers_frame areaId eventType eventData s)
    as (s1 & o & n & Hrun & (Hcs & _) & _).
  by rewrite Hrun.
Qed.

Create HintDb rows.

#[local] Hint Resolve spares_ret spares_throw spares_set_areas
  spares_set_items spares_next_item_id spares_executeTriggers : rows.

Ltac spares_tac :=
  repeat first
    [ solve [eauto with rows]
    | apply spares_gets
    | apply spares_bind; [|intros ?]
    | match goal with
      | |- spares (match ?x with _ => _ end) => destruct x
      | |- spares (if ?x then _ else _) => destruct x
      end ].

Lemma spares_Character_findById (id : Z) : spares (Character_findById id).
Proof. unfold Character_findById. spares_tac. Qed.

Lemma spares_Item_findById (id : Z) : spares (Item_findById id).
Proof. unfold Item_findById. spares_tac. Qed.

Lemma spares_Area_findById (id : Z) : spares (Area_findById id).
Proof. unfold Area_findById. spares_tac. Qed.

Lemma spares_Item_update (id : Z) (data : ItemData) :
  spares (Item_update id data).
Proof. unfold Item_update, Item_findById. spares_tac. Qed.

Lemma spares_Item_create (world : Z) (name : option string)
    (descr props : string) (area holder : option Z)
    (location : option string) :
  spares (Item_create world name descr props area holder location).
Proof. unfold Item_create. spares_tac. Qed.

Lemma spares_Character_getInventory (id : Z) :
  spares (Character_getInventory id).
Proof. unfold Character_getInventory. spares_tac. Qed.

Lemma spares_Character_findAwake (world : Z) :
  spares (Character_findAwake world).
Proof. unfold Character_findAwake. spares_tac. Qed.

Lemma spares_Area_getItems (area : Z) : spares (Area_getItems area).
Proof. unfold Area_getItems. spares_tac. Qed.

Lemma spares_Area_getCharacters (area : Z) : spares (Area_getCharacters area).
Proof. unfold Area_getCharacters. spares_tac. Qed.

#[local] Hint Resolve spares_Character_findById spares_Item_findById
  spares_Area_findById spares_Item_update spares_Item_create
  spares_Character_getInventory spares_Character_findAwake
  spares_Area_getItems spares_Area_getCharacters : rows.

Lemma spares_buildContextWindow (id : Z) : spares (buildContextWindow id).
Proof. unfold buildContextWindow, buildAreaContext. spares_tac. Qed.

Lemma confined_spares (id : Z) {A} (c : M A) : spares c -> confined id c.
Proof. intros Hc s. apply only_row_same, Hc. Qed.

Lemma confined_bind (id : Z) {A B} (c : M A) (k : A -> M B) :
  confined id c -> (forall a, confined id (k a)) -> confined id (bind c k).
Proof.
  intros Hc Hk s. unfold bind. specialize (Hc s).
  destruct (c s) as [s1 [a|e]]; simpl in *; [|done].
  apply (only_row_trans _ _ s1); [done|apply Hk].
Qed.

Lemma confined_Character_update (id : Z) (data : CharacterData) :
  confined id (Character_update id data).
Proof.
  intros s. rewrite Character_update_eq.
  destruct (no_character_fields data); [apply only_row_refl|].
  destruct (character_misfit data); [apply only_row_refl|].
  destruct (characters s !! id) as [c|] eqn:Hc; [|apply only_row_refl].
  destruct (character_violation data (areas s)); [apply only_row_refl|].
  split; simpl.
  - intros k Hk. by rewrite lookup_insert_ne.
  - by rewrite lookup_insert_eq, Hc.
Qed.

Lemma confined_Character_addMemory (id : Z) (act res : string) (cap : nat)
    (now : string) :
  confined id (Character_addMemory id act res cap now).
Proof.
  unfold Character_addMemory.
  apply confined_bind; [apply confined_spares, spares_Character_findById|].
  intros [c|]; [apply confined_Character_update|].
  apply confined_spares, spares_ret.
Qed.

#[local] Hint Resolve confined_Character_update confined_Character_addMemory
  : rows.

Ltac confined_tac :=
  repeat first
    [ solve [eauto with rows]
    | solve [apply confined_spares; spares_tac]
    | apply confined_bind; [|intros ?]
    | match goal with
      | |- confined _ (match ?x with _ => _ end) => destruct x
      | |- confined _ (if ?x then _ else _) => destruct x
      end ].

Lemma confined_handleCharacterTool (name : string) (args : Args)
    (now : string) :
  confined (arg_character_id args) (handleCharacterTool name args now).
Proof.
  unfold handleCharacterTool, character_get, character_list_awake,
    character_move, character_speak, character_update_state,
    character_get_inventory, character_add_memory, reply.
  cbv zeta. confined_tac.
Qed.

Lemma confined_handleItemTool (name : string) (args : Args) (now : string) :
  confined (arg_character_id args) (handleItemTool name args now).
Proof.
  unfold handleItemTool, item_get, item_pickup, item_drop, item_create,
    Item_giveToCharacter, Item_moveToArea, reply.
  confined_tac.
Qed.

Ltac confined_tool :=
  match goal with
  | |- confined _ (handleCharacterTool ?n ?a ?t) =>
      exact (confined_handleCharacterTool n a t)
  | |- confined _ (handleItemTool ?n ?a ?t) =>
      exact (confined_handleItemTool n a t)
  end.

Ltac confined_action :=
  repeat first
    [ confined_tool
    | solve [eauto with rows]
    | solve [apply confined_spares; spares_tac]
    | apply confined_bind; [|intros ?]
    | match goal with
      | |- confined _ (match ?x with _ => _ end) => destruct x
      | |- confined _ (if ?x then _ else _) => destruct x
      end ].

Lemma confined_action_of (c : Character) (action : Action) (now : string) :
  confined (character_id c) (executeMoveAction c action)
  /\ confined (character_id c) (executeSpeakAction c action now)
  /\ confined (character_id c) (executePickupAction c action now)
  /\ confined (character_id c) (executeDropAction c action now)
  /\ confined (character_id c) (executeWaitAction c action now)
  /\ confined (character_id c) (executeSleepAction c action).
Proof.
  unfold executeMoveAction, executeSpeakAction, executePickupAction,
    executeDropAction, executeWaitAction, executeSleepAction.
  repeat apply conj; confined_action.
Qed.

Lemma executeAction_only_row (id : Z) (action : Action) (now : string)
    (s : Store) :
  keyed s -> only_row id s (fst (executeAction id action now s)).
Proof.
  intros Hkey. unfold executeAction.
  rewrite (bind_returned _ _ _ _ _ (Character_findById_run _ s)).
  destruct (characters s !! id) as [c|] eqn:Hc; [|apply only_row_refl].
  apply Hkey in Hc as <-.
  destruct (confined_action_of c action now)
    as (Hmove & Hspeak & Hpickup & Hdrop & Hwait & Hsleep).
  match goal with
  | |- context [(if ?b then ?x else ?y) s] => set (run := if b then x else y)
  end.
  assert (confined (character_id c) run) as Hrun.
  { subst run.
    repeat match goal with
           | |- confined _ (if ?b then _ else _) => destruct b
           end; first [done | apply confined_spares, spares_ret]. }
  specialize (Hrun s). by destruct (run s) as [s' [r|e]].
Qed.

Lemma confined_updatePhysicalState (id : Z) (seconds : Q) :
  confined id (updatePhysicalState id seconds).
Proof. unfold updatePhysicalState. confined_tac. Qed.

Section Cycle.

Variable WORLD_ID : Z.
Variable decide : Character -> ContextWindow -> option Action.
Variable clock : Z -> string.

Lemma processCharacter_only_row (character : Character) (seconds : Q)
    (st : Stats) (s : Store) :
  keyed s ->
  only_row (character_id character) s
    (fst (processCharacter decide clock character seconds st s)).
Proof.
  intros Hkey. unfold processCharacter. cbv zeta.
  match goal with
  | |- only_row _ _ (fst (match ?attempt s with _ => _ end)) =>
      assert (only_row (character_id character) s (fst (attempt s))) as Hrun;
        [|by destruct (attempt s) as [s' [st'|e]]]
  end.
  unfold bind at 1.
  pose proof (confined_updatePhysicalState (character_id character) seconds s)
    as Hfirst.
  destruct (updatePhysicalState (character_id character) seconds s)
    as [s1 [[]|e]]; simpl in Hfirst; [|done].
  apply (only_row_trans _ _ s1); [done|].
  pose proof (only_row_keyed _ _ _ Hkey Hfirst) as Hkey1.
  unfold bind at 1.
  pose proof (spares_buildContextWindow (character_id character) s1) as Hsame.
  destruct (buildContextWindow (character_id character) s1)
    as [s2 [context|e]]; simpl in Hsame; [|by apply only_row_same].
  apply (only_row_trans _ _ s2); [by apply only_row_same|].
  assert (keyed s2) as Hkey2
    by (apply (only_row_keyed (character_id character) s1);
        [done|by apply only_row_same]).
  destruct (decide character context) as [action|]; [|apply only_row_refl].
  unfold bind.
  pose proof (executeAction_only_row (character_id character) action
                (clock (character_id character)) s2 Hkey2) as Hact.
  by destruct (executeAction _ _ _ s2) as [s3 [r|e]].
Qed.

Lemma process_all_rows (selected : list Character) (seconds : Q) :
  forall (st : Stats) (s : Store),
    keyed s ->
    keyed (fst (process_all decide clock selected seconds st s))
    /\ forall k, k ∉ map character_id selected ->
         characters (fst (process_all decide clock selected seconds st s)) !! k
         = characters s !! k.
Proof.
  induction selected as [|c rest IH]; intros st s Hkey; [done|].
  simpl. unfold bind.
  pose proof (processCharacter_only_row c seconds st s Hkey) as Hone.
  destruct (processCharacter decide clock c seconds st s) as [s1 [st1|e]];
    simpl in Hone.
  - destruct (IH (processed_one st1) s1 (only_row_keyed _ _ _ Hkey Hone))
      as [Hkey' Hrest].
    split; [done|]. intros k Hk. apply not_elem_of_cons in Hk as [Hne Hk].
    rewrite Hrest by done. by apply Hone.
  - split; [by apply (only_row_keyed _ _ _ Hkey Hone)|].
    intros k Hk. apply not_elem_of_cons in Hk as [Hne Hk]. by apply Hone.
Qed.

(** X26: a cycle of the controller leaves the row of every character
    that the scheduler does not select as it is: the character of another
    world, the one a player owns and the one that sleeps.  A sleeper is
    thus never rested by a cycle: the branch of [updatePhysicalState] for
    a sleeping character is not reached from [runCycle]. *)
Theorem cycle_spares_the_unscheduled (controller : Controller) (now : Z)
    (s : Store) (k : Z) (c : Character) :
  keyed s ->
  characters s !! k = Some c ->
  ~ schedulable WORLD_ID c ->
  characters
    (state_after (runCycle WORLD_ID decide clock controller now s)) !! k
  = Some c.
Proof.
  intros Hkey Hc Hnot. unfold runCycle, state_after. cbv zeta.
  unfold bind at 1.
  change (Character_findAIControllable WORLD_ID s)
    with (s, Returned (rows_of (Character_findAIControllable WORLD_ID s))).
  cbv beta iota.
  assert (k ∉ map character_id
                (rows_of (Character_findAIControllable WORLD_ID s))) as Hk.
  { intros Hin. apply list_elem_of_fmap in Hin as (c' & Hid & Hin).
    apply elem_of_findAIControllable in Hin as (k' & Hc' & Hsel).
    apply Hnot. pose proof (Hkey _ _ Hc') as Hown.
    assert (k' = k) as -> by congruence.
    by assert (c' = c) as -> by congruence. }
  destruct (rows_of (Character_findAIControllable WORLD_ID s))
    as [|c0 rest] eqn:Hrows; [done|].
  unfold bind.
  match goal with
  | |- context [process_all decide clock ?l ?secs ?st s] =>
      destruct (process_all_rows l secs st s Hkey) as [_ Hrest];
      specialize (Hrest k Hk);
      destruct (process_all decide clock l secs st s) as [s1 [st1|e]]
  end; simpl in *; by rewrite Hrest.
Qed.

End Cycle.

Lemma cycle_spares_the_unscheduled_witness :
  characters
    (state_after
       (runCycle 1 always_wait still_clock fresh_controller 1761480005000
          store_company)) !! 21
  = Some odo_asleep.
Proof.
  apply cycle_spares_the_unscheduled.
  - intros k c Hc. unfold store_company, sample_store in Hc. simpl in Hc.
    apply lookup_insert_Some in Hc as [[<- <-]|[_ Hc]]; [done|].
    by apply lookup_singleton_Some in Hc as [<- <-].
  - reflexivity.
  - intros (_ & _ & Hawake). by vm_compute in Hawake.
Defined.

(** ** The counters of the controller *)

Lemma counted_once_failed (st : Stats) : counted_once st (failed_one st).
Proof. unfold counted_once, consistent. simpl. lia. Qed.

Lemma counted_once_counted (r : ActionResult) (st : Stats) :
  counted_once st (counted r st).
Proof. unfold counted_once, consistent. destruct r; simpl; lia. Qed.

Section Counters.

Variable WORLD_ID : Z.
Variable decide : Character -> ContextWindow -> option Action.
Variable clock : Z -> string.

Lemma processCharacter_counts (character : Character) (seconds : Q)
    (st : Stats) (s : Store) :
  exists s' st',
    processCharacter decide clock character seconds st s = (s', Returned st')
    /\ counted_once st st'.
Proof.
  unfold processCharacter. cbv zeta. unfold bind.
  destruct (updatePhysicalState _ _ s) as [s1 [[]|e]];
    [|eauto using counted_once_failed].
  destruct (buildContextWindow _ s1) as [s2 [context|e]];
    [|eauto using counted_once_failed].
  destruct (decide character context) as [action|];
    [|unfold ret; eauto using counted_once_failed].
  destruct (executeAction _ _ _ s2) as [s3 [r|e]];
    unfold ret; eauto using counted_once_failed, counted_once_counted.
Qed.

Lemma process_all_counts (selected : list Character) (seconds : Q) :
  forall (st : Stats) (s : Store),
    exists s' st',
      process_all decide clock selected seconds st s = (s', Returned st')
      /\ (successfulActions st' + failedActions st'
          = successfulActions st + failedActions st + length selected)%nat
      /\ (charactersProcessed st'
          = charactersProcessed st + length selected)%nat
      /\ (consistent st -> consistent st').
Proof.
  induction selected as [|c rest IH]; intros st s; simpl.
  - exists s, st. unfold ret. split; [done|]. split; [lia|]. split; [lia|done].
  - destruct (processCharacter_counts c seconds st s)
      as (s1 & st1 & Hrun & Hsum & Hseen & Hcons).
    rewrite (bind_returned _ _ _ _ _ Hrun).
    destruct (IH (processed_one st1) s1)
      as (s2 & st2 & Hrest & Hsum2 & Hseen2 & Hcons2).
    exists s2, st2. split; [done|]. simpl in *.
    split; [lia|]. split; [lia|]. intros Hst. by apply Hcons2, Hcons.
Qed.

(** X27: a cycle of the controller returns; it counts the cycle, counts
    every selected character as processed and counts each of them once as
    a success or as a failure; and it keeps the counters consistent: no
    more successes than actions, no more actions than successes and
    failures.  A failure need not be an action: an answer that does not
    parse is counted as a failure only. *)
Theorem cycle_counts_every_character (controller : Controller) (now : Z)
    (s : Store) :
  consistent (stats controller) ->
  exists s' controller',
    runCycle WORLD_ID decide clock controller now s = (s', Returned controller')
    /\ cycleCount controller' = S (cycleCount controller)
    /\ (charactersProcessed (stats controller')
        = charactersProcessed (stats controller)
          + length (rows_of (Character_findAIControllable WORLD_ID s)))%nat
    /\ (successfulActions (stats controller')
        + failedActions (stats controller')
        = successfulActions (stats controller)
          + failedActions (stats controller)
          + length (rows_of (Character_findAIControllable WORLD_ID s)))%nat
    /\ consistent (stats controller').
Proof.
  intros Hcons. unfold runCycle. cbv zeta. unfold bind at 1.
  change (Character_findAIControllable WORLD_ID s)
    with (s, Returned (rows_of (Character_findAIControllable WORLD_ID s))).
  cbv beta iota.
  destruct (rows_of (Character_findAIControllable WORLD_ID s))
    as [|c rest] eqn:Hrows.
  - exists s. eexists. unfold ret. split; [reflexivity|]. simpl.
    split; [done|]. split; [lia|]. split; [lia|done].
  - match goal with
    | |- context [process_all decide clock ?l ?secs ?st] =>
        destruct (process_all_counts l secs st s)
          as (s1 & st1 & Hrun & Hsum & Hseen & Hkeep)
    end.
    rewrite (bind_returned _ _ _ _ _ Hrun).
    exists s1. eexists. unfold ret. split; [reflexivity|]. simpl.
    split; [done|]. split; [done|]. split; [done|]. by apply Hkeep.
Qed.

End Counters.

Lemma cycle_counts_every_character_witness :
  exists s' controller',
    runCycle 1 always_wait still_clock fresh_controller 1761480005000
      store_company = (s', Returned controller')
    /\ cycleCount controller' = 1%nat
    /\ charactersProcessed (stats controller') = 1%nat
    /\ (successfulActions (stats controller')
        + failedActions (stats controller') = 1)%nat
    /\ consistent (stats controller').
Proof.
  destruct (cycle_counts_every_character 1 always_wait still_clock
              fresh_controller 1761480005000 store_company)
    as (s' & controller' & Hrun & Hcount & Hseen & Hsum & Hcons).
  - unfold consistent. simpl. lia.
  - exists s', controller'. split; [exact Hrun|]. split; [exact Hcount|].
    split; [exact Hseen|]. split; [exact Hsum|exact Hcons].
Defined.

(** * Failed calls *)

Lemma plain_bind {A} (c : M A) (k : A -> M Response) :
  (forall a, plain (k a)) -> plain (bind c k).
Proof.
  intros Hk s s' r. unfold bind.
  destruct (c s) as [s1 [a|e]]; [apply Hk|done].
Qed.

Lemma plain_ret (r : Response) : isError r = false -> plain (ret r).
Proof. by intros Hr s s' r' [= _ <-]. Qed.

Lemma plain_throw (e : Error) : plain (throw e).
Proof. by intros s s' r. Qed.

Ltac plain_tac :=
  repeat first
    [ apply plain_throw
    | apply plain_ret; reflexivity
    | apply plain_bind; intros ?
    | match goal with
      | |- plain (match ?x with _ => _ end) => destruct x
      | |- plain (if ?x then _ else _) => destruct x
      end ].

Lemma plain_handleCharacterTool (name : string) (args : Args) (now : string) :
  plain (handleCharacterTool name args now).
Proof.
  unfold handleCharacterTool, character_get, character_list_awake,
    character_move, character_speak, character_update_state,
    character_get_inventory, character_add_memory, reply.
  cbv zeta. plain_tac.
Qed.

Lemma plain_handleItemTool (name : string) (args : Args) (now : string) :
  plain (handleItemTool name args now).
Proof.
  unfold handleItemTool, item_get, item_pickup, item_drop, item_create, reply.
  plain_tac.
Qed.

(** X28: the handler of [tools/call], called for a tool that is neither
    a world nor an area tool, always returns a response and never throws.
    When the tool returns, the response is the one of the tool and is not
    marked [isError]; when the tool throws (or no tool has the name), the
    response is marked [isError] and its text is the message of the error
    after [Error: ].  In both cases the store is the one the tool left:
    the handler undoes nothing. *)
Theorem failed_call_is_answered (hW hA : string -> Args -> M Response)
    (name : string) (args : Args) (now : string) (s : Store) :
  startsWith name "world_" = false ->
  startsWith name "area_" = false ->
  let handler :=
    if startsWith name "character_" then handleCharacterTool name args now
    else if startsWith name "item_" then handleItemTool name args now
    else throw (UnknownTool name) in
  exists response,
    snd (tools_call hW hA name args now s) = Returned response
    /\ state_after (tools_call hW hA name args now s) = fst (handler s)
    /\ match snd (handler s) with
       | Returned r => response = r /\ isError r = false
       | Thrown e =>
           response = {| content := Text ("Error: " ++ message e);
                         isError := true |}
       end.
Proof.
  intros HW HA handler.
  unfold tools_call, state_after. rewrite HW, HA. fold handler.
  assert (plain handler) as Hplain.
  { subst handler. repeat case_match;
      auto using plain_handleCharacterTool, plain_handleItemTool,
        plain_throw. }
  destruct (handler s) as [s' [response|e]] eqn:Hrun; simpl.
  - exists response. split; [done|]. split; [done|].
    split; [done|]. by apply (Hplain _ _ _ Hrun).
  - eexists. split; [reflexivity|]. by split.
Qed.

Lemma failed_call_is_answered_witness :
  snd (tools_call no_such_tool no_such_tool "character_get"
         (params_arguments get_nobody) "2025-10-26T12:05:00.000Z" store_owned)
  = Returned {| content := Text "Error: Character not found: 99";
                isError := true |}.
Proof.
  destruct (failed_call_is_answered no_such_tool no_such_tool "character_get"
              (params_arguments get_nobody) "2025-10-26T12:05:00.000Z"
              store_owned eq_refl eq_refl)
    as (response & Hrun & _ & Hthrown).
  rewrite Hrun. f_equal. exact Hthrown.
Defined.

(** * What a character sees of its area *)

Lemma buildAreaContext_run (s : Store) (areaId me : Z) (area : Area) :
  areas s !! areaId = Some area ->
  buildAreaContext areaId me s
  = (s, Returned (Some
       {| context_name := area_name area;
          context_description := description area;
          context_temperature := temperature area;
          context_exits := exits area;
          context_characters :=
            map character_name
              (List.filter (fun c => negb (Z.eqb (character_id c) me))
                 (rows_of (Area_getCharacters areaId s)));
          context_items :=
            map (fun i => (item_name i, item_description i))
              (rows_of (Area_getItems areaId s)) |})).
Proof.
  intros Ha. unfold buildAreaContext.
  by rewrite (bind_returned _ _ _ _ _ (Area_findById_run _ s)), Ha.
Qed.

(** X29: for an area that does not exist [buildAreaContext] returns
    nothing.  For one that does, with every character stored under its
    id, the context names exactly the characters that stand in the area
    other than the observer, and shows exactly the items that lie there;
    the store is left as it is. *)
Theorem buildAreaContext_shows_the_others (s : Store) (areaId me : Z) :
  keyed s ->
  match areas s !! areaId with
  | None => buildAreaContext areaId me s = (s, Returned None)
  | Some area =>
      exists context,
        buildAreaContext areaId me s = (s, Returned (Some context))
        /\ context_exits context = exits area
        /\ (forall name,
              name ∈ context_characters context
              <-> exists k c, characters s !! k = Some c /\ k <> me
                              /\ character_current_area_id c = Some areaId
                              /\ character_name c = name)
        /\ (forall shown,
              shown ∈ context_items context
              <-> exists k i, items s !! k = Some i
                              /\ item_current_area_id i = Some areaId
                              /\ (item_name i, item_description i) = shown)
  end.
Proof.
  intros Hkey. destruct (areas s !! areaId) as [area|] eqn:Ha.
  - eexists. split; [by apply buildAreaContext_run|]. simpl.
    split; [done|]. split.
    + intros name. rewrite list_elem_of_fmap. split.
      * intros (c & -> & Hin).
        apply list_elem_of_In, filter_In in Hin as [Hin Hother].
        apply list_elem_of_In in Hin.
        unfold rows_of in Hin; simpl in Hin.
        apply elem_of_selected in Hin as (k & Hc & Hthere).
        exists k, c. split; [done|]. split; [|done].
        apply negb_true_iff, Z.eqb_neq in Hother.
        by rewrite <- (Hkey _ _ Hc).
      * intros (k & c & Hc & Hne & Hthere & <-). exists c. split; [done|].
        apply list_elem_of_In, filter_In. split.
        -- apply list_elem_of_In. unfold rows_of; simpl.
           apply elem_of_selected. eauto.
        -- apply negb_true_iff, Z.eqb_neq. by rewrite (Hkey _ _ Hc).
    + intros shown. rewrite list_elem_of_fmap. split.
      * intros (i & -> & Hin). apply elem_of_getItems in Hin as (k & Hi & Hthere).
        eauto.
      * intros (k & i & Hi & Hthere & <-). exists i. split; [done|].
        apply elem_of_getItems. eauto.
  - unfold buildAreaContext.
    by rewrite (bind_returned _ _ _ _ _ (Area_findById_run _ s)), Ha.
Qed.

Lemma buildAreaContext_shows_the_others_witness :
  exists context,
    buildAreaContext 10 20 store_company = (store_company, Returned (Some context))
    /\ (forall name,
          name ∈ context_characters context
          <-> exists k c, characters store_company !! k = Some c /\ k <> 20
                          /\ character_current_area_id c = Some 10
                          /\ character_name c = name).
Proof.
  destruct (buildAreaContext_shows_the_others store_company 10 20)
    as (context & Hrun & _ & Hnames & _).
  - intros k c Hc. unfold store_company, sample_store in Hc. simpl in Hc.
    apply lookup_insert_Some in Hc as [[<- <-]|[_ Hc]]; [done|].
    by apply lookup_singleton_Some in Hc as [<- <-].
  - exists context. split; [exact Hrun|exact Hnames].
Defined.
